(** * Haaukins: the exercise assembly and the lab hub

    A shallow embedding of three Go packages:
    - package [exercise] (blueprint expansion, [Create], [Start], [Stop],
      [Close], [Reset]);
    - package [lab] (the [hub]: [NewHub], [addLab], [Get], [GetLabByTag],
      [Close] and the channel-backed [semaphore]);
    - package [store] (the [Tag] type with [NewTag] and [Validate]).

    Go values are modelled as the code has them: [int] and [int32] as [Z]
    (the [int32] counter with its wrap-around), [map[string]string] as a
    [gmap string string], slices as lists (a nil slice that the code tests
    with [!= nil] as [None]), channels as bounded queues with a closed flag,
    interfaces implemented outside these packages as records of stateful
    functions over an abstract world.

    A call of a method is one run from a state to a result: it returns,
    panics, or blocks on a channel. The goroutines a method starts and
    waits for run one after the other inside that run; the goroutines it
    starts and leaves behind are recorded as spawned and are runs of their
    own. Every call that crosses an interface is recorded, with its result,
    in a history that the statements below read. *)

From Stdlib Require Import ZArith List Lia Ascii.
From stdpp Require Import base option list strings pretty relations gmap fin_maps.

Local Open Scope string_scope.
Local Open Scope list_scope.
Local Open Scope Z_scope.

(** ** Go runtime fragments shared by both packages *)
Module Go.

(** An [error] value is identified by its message; [nil] is [None]. *)
Definition error := string.

(** Result of running a piece of Go code from a state of type [S]:
    it returns, it panics, or it blocks forever on a channel. *)
Inductive res (S A : Type) : Type :=
| Done (a : A) (s : S)
| Panicked (msg : string) (s : S)
| Blocked (s : S).
Arguments Done {S A} a s.
Arguments Panicked {S A} msg s.
Arguments Blocked {S A} s.

Definition M (S A : Type) : Type := S → res S A.

Definition ret {S A} (a : A) : M S A := λ s, Done a s.

Definition bind {S A B} (m : M S A) (k : A → M S B) : M S B :=
  λ s, match m s with
       | Done a s' => k a s'
       | Panicked msg s' => Panicked msg s'
       | Blocked s' => Blocked s'
       end.

Definition get {S} : M S S := λ s, Done s s.
Definition put {S} (s : S) : M S unit := λ _, Done tt s.
Definition modify {S} (f : S → S) : M S unit := λ s, Done tt (f s).
Definition panic {S A} (msg : string) : M S A := λ s, Panicked msg s.
Definition block {S A} : M S A := λ s, Blocked s.

(** [defer d] around a body: the deferred call runs when the body returns
    and also when it panics. *)
Definition defer {S A} (body : M S A) (d : M S unit) : M S A :=
  λ s, match body s with
       | Done a s' => match d s' with
                      | Done _ s'' => Done a s''
                      | Panicked msg s'' => Panicked msg s''
                      | Blocked s'' => Blocked s''
                      end
       | Panicked msg s' => match d s' with
                            | Done _ s'' => Panicked msg s''
                            | Panicked msg' s'' => Panicked msg' s''
                            | Blocked s'' => Blocked s''
                            end
       | Blocked s' => Blocked s'
       end.

(** A buffered channel: queued items (oldest first), capacity, closed flag. *)
Record chan (A : Type) : Type := mkChan {
  items : list A;
  capacity : Z;
  closed : bool
}.
Arguments mkChan {A} items capacity closed.
Arguments items {A} c.
Arguments capacity {A} c.
Arguments closed {A} c.

(** [make(chan A, n)]; a negative size panics. *)
Definition make_chan {A} (n : Z) : option (chan A) :=
  if n <? 0 then None else Some (mkChan [] n false).

(** [len(c)] *)
Definition len {A} (c : chan A) : Z := Z.of_nat (length (items c)).

(** Result of trying a channel operation once. *)
Inductive attempt (A : Type) : Type :=
| Ready (a : A)
| NotReady
| Fault.
Arguments Ready {A} a.
Arguments NotReady {A}.
Arguments Fault {A}.

(** Receive: a queued item if there is one, the zero value from a closed
    and drained channel, otherwise not ready. *)
Definition try_recv {A} (zero : A) (c : chan A) : attempt (A * chan A) :=
  match items c with
  | x :: rest => Ready (x, mkChan rest (capacity c) (closed c))
  | [] => if closed c then Ready (zero, c) else NotReady
  end.

(** Send: faults on a closed channel, succeeds while there is room,
    otherwise not ready. *)
Definition try_send {A} (x : A) (c : chan A) : attempt (chan A) :=
  if closed c then Fault
  else if len c <? capacity c
       then Ready (mkChan (items c ++ [x]) (capacity c) (closed c))
       else NotReady.

(** [close(c)]; closing twice panics. *)
Definition close_chan {A} (c : chan A) : option (chan A) :=
  if closed c then None else Some (mkChan (items c) (capacity c) true).

(** 32-bit two's complement wrap-around, as [atomic.AddInt32] computes. *)
Definition wrap32 (z : Z) : Z := (z + 2 ^ 31) mod 2 ^ 32 - 2 ^ 31.

(** The state a run leaves behind (the state it started in when the run
    does not return). *)
Definition state_after {S A} (m : M S A) (s : S) : S :=
  match m s with
  | Done _ s' => s'
  | _ => s
  end.

End Go.

Declare Scope go_scope.
Delimit Scope go_scope with go.
Notation "'let*' x ':=' m 'in' k" := (Go.bind m (λ x, k))
  (at level 10, x pattern, m at level 100, k at level 200) : go_scope.
Notation "'run' m 'then' k" := (Go.bind m (λ _, k))
  (at level 10, m at level 100, k at level 200) : go_scope.

(** ** Package exercise *)
Module Exercise.
Import Go.

Record RecordConfig := mkRecordConfig {
  rec_Name : string;
  rec_Type : string;
  RData : string
}.

Record FlagConfig := mkFlagConfig {
  flag_Name : string;
  flag_EnvVar : string;
  Default : string;
  Points : Z
}.

Record EnvVarConfig := mkEnvVarConfig {
  env_EnvVar : string;
  Value : string
}.

(** [float64], kept as its IEEE-754 bit pattern: the code only copies it. *)
Definition float64 := Z.

Record DockerConfig := mkDockerConfig {
  docker_Image : string;
  docker_Flags : list FlagConfig;
  Envs : list EnvVarConfig;
  Records : list RecordConfig;
  docker_MemoryMB : Z;
  docker_CPU : float64
}.

Record VBoxConfig := mkVBoxConfig {
  vbox_Image : string;
  vbox_MemoryMB : Z;
  vbox_Flags : list FlagConfig
}.

Record Config := mkConfig {
  Name : string;
  Tags : list string;
  DockerConfs : list DockerConfig;
  VBoxConfs : list VBoxConfig
}.

(** Modelled from the spec: [docker.Resources] and [docker.ContainerConfig]
    are declared in package docker, outside this package; the launch spec
    carries the image, the resources, the merged environment, the DNS
    servers and the MAC address, which are the fields the code reads or
    writes. *)
Record Resources := mkResources {
  MemoryMB : Z;
  CPU : float64
}.

Record ContainerConfig := mkContainerConfig {
  Image : string;
  Resources_ : Resources;
  EnvVars : gmap string string;
  DNS : list string;
  MacAddress : string
}.

(** [Config.Flags] *)
Definition Flags (conf : Config) : list FlagConfig :=
  let res := fold_left (λ res dockerConf, res ++ docker_Flags dockerConf)
                       (DockerConfs conf) [] in
  fold_left (λ res vboxConf, res ++ vbox_Flags vboxConf) (VBoxConfs conf) res.

(** The two inner loops of [ContainerOpts] over one container spec. *)
Definition flagEnvVars (flags : list FlagConfig) (envVars : gmap string string)
  : gmap string string :=
  fold_left (λ envVars flag, <[flag_EnvVar flag := Default flag]> envVars)
            flags envVars.

Definition overrideEnvVars (envs : list EnvVarConfig) (envVars : gmap string string)
  : gmap string string :=
  fold_left (λ envVars env, <[env_EnvVar env := Value env]> envVars)
            envs envVars.

(** The body of the outer loop: the launch spec of one container spec. *)
Definition containerSpec (conf : DockerConfig) : ContainerConfig :=
  let envVars := flagEnvVars (docker_Flags conf) ∅ in
  let envVars := overrideEnvVars (Envs conf) envVars in
  {| Image := docker_Image conf;
     Resources_ := {| MemoryMB := docker_MemoryMB conf; CPU := docker_CPU conf |};
     EnvVars := envVars;
     DNS := [];
     MacAddress := "" |}.

(** [Config.ContainerOpts] *)
Definition ContainerOpts (ec : Config)
  : list ContainerConfig * list (list RecordConfig) :=
  fold_left
    (λ '(contSpecs, contRecords) conf,
       (contSpecs ++ [containerSpec conf], contRecords ++ [Records conf]))
    (DockerConfs ec) ([], []).

(** *** Words for the statements about the blueprint *)

(** The last entry of [l] whose key is [k]. *)
Definition lastWith {A} (key : A → string) (k : string) (l : list A) : option A :=
  last (filter (λ x, key x = k) l).

(** *** The exercise and its collaborators *)

(** Handles of the objects the backends hand out. [docker.Container] and
    [vbox.VM] are the two implementers of [virtual.Instance]. *)
Definition Container := nat.
Definition VM := nat.

Inductive Instance :=
| InstContainer (c : Container)
| InstVM (vm : VM).

Inductive Flag : Set := mkFlag.

Record exercise := mkExercise {
  conf : Config;
  flags : list Flag;
  machines : list Instance;
  ips : option (list Z);
  dnsIP : string;
  dnsRecords : list RecordConfig
}.

Definition set_machines (ms : list Instance) (e : exercise) : exercise :=
  mkExercise (conf e) (flags e) ms (ips e) (dnsIP e) (dnsRecords e).
Definition set_ips (l : option (list Z)) (e : exercise) : exercise :=
  mkExercise (conf e) (flags e) (machines e) l (dnsIP e) (dnsRecords e).
Definition set_dnsRecords (rs : list RecordConfig) (e : exercise) : exercise :=
  mkExercise (conf e) (flags e) (machines e) (ips e) (dnsIP e) rs.

Definition set_DNS (dns : list string) (spec : ContainerConfig) : ContainerConfig :=
  mkContainerConfig (Image spec) (Resources_ spec) (EnvVars spec) dns (MacAddress spec).
Definition set_RData (rdata : string) (record : RecordConfig) : RecordConfig :=
  mkRecordConfig (rec_Name record) (rec_Type record) rdata.

(** The interfaces [DockerHost], [docker.Network], [vbox.Library] and
    [virtual.Instance] are implemented elsewhere: each method is a function
    on an abstract world [W], free to fail and to change the world. *)
Record Backends (W : Type) := mkBackends {
  CreateContainer : ContainerConfig → W → (error + Container) * W;
  Connect : Container → string → option Z → W → (error + Z) * W;
  FormatIP : Z → string;
  Interface : string;
  GetCopy : string → string → W → (error + VM) * W;
  InstStart : Instance → W → option error * W;
  InstClose : Instance → W → option error * W
}.
Arguments CreateContainer {W} b spec w.
Arguments Connect {W} b c mac ip w.
Arguments FormatIP {W} b lastDigit.
Arguments Interface {W} b.
Arguments GetCopy {W} b image bridge w.
Arguments InstStart {W} b m w.
Arguments InstClose {W} b m w.

(** Every call that crosses one of these interfaces, with its result. *)
Inductive call :=
| CallCreateContainer (spec : ContainerConfig) (r : error + Container)
| CallConnect (c : Container) (mac : string) (ip : option Z) (r : error + Z)
| CallGetCopy (image bridge : string) (r : error + VM)
| CallStart (m : Instance) (r : option error)
| CallClose (m : Instance) (r : option error).

Record state (W : Type) := mkState {
  ex : exercise;
  world : W;
  calls : list call
}.
Arguments mkState {W} ex world calls.
Arguments ex {W} s.
Arguments world {W} s.
Arguments calls {W} s.

Section Methods.
Context {W : Type} (B : Backends W).
Local Open Scope go_scope.

Definition modify_ex (f : exercise → exercise) : M (state W) unit :=
  modify (λ s, mkState (f (ex s)) (world s) (calls s)).

Definition backend {A} (f : W → A * W) (record : A → call) : M (state W) A :=
  λ s, let '(r, w) := f (world s) in
       Done r (mkState (ex s) w (calls s ++ [record r])).

Definition callCreateContainer (spec : ContainerConfig) :=
  backend (CreateContainer B spec) (CallCreateContainer spec).
Definition callConnect (c : Container) (mac : string) (ip : option Z) :=
  backend (Connect B c mac ip) (CallConnect c mac ip).
Definition callGetCopy (image bridge : string) :=
  backend (GetCopy B image bridge) (CallGetCopy image bridge).
Definition callStart (m : Instance) :=
  backend (InstStart B m) (CallStart m).
Definition callClose (m : Instance) :=
  backend (InstClose B m) (CallClose m).

(** The body of the loop over [records[i]]. *)
Definition resolveRecord (ipaddr : string) (record : RecordConfig) : RecordConfig :=
  if decide (RData record = "") then set_RData ipaddr record else record.

Definition appendRecords (ipaddr : string) (records : list RecordConfig)
  : M (state W) unit :=
  modify_ex (λ e,
    set_dnsRecords
      (fold_left (λ acc record, acc ++ [resolveRecord ipaddr record])
                 records (dnsRecords e)) e).

(** [append(newIps, lastDigit)] on a possibly nil slice. *)
Definition appendIp (newIps : option (list Z)) (lastDigit : Z) : option (list Z) :=
  Some (default [] newIps ++ [lastDigit]).

(** The first loop of [Create], from index [i] on. [inl err] is the
    early [return err]; [inr] carries the locals [machines], [newIps]. *)
Fixpoint createContainers (i : nat) (containers : list ContainerConfig)
    (records : list (list RecordConfig))
    (machines : list Instance) (newIps : option (list Z))
  : M (state W) (error + (list Instance * option (list Z))) :=
  match containers with
  | [] => ret (inr (machines, newIps))
  | spec :: containers' =>
    let* s := get in
    let e := ex s in
    let spec := set_DNS [dnsIP e] spec in
    let* r := callCreateContainer spec in
    match r with
    | inl err => ret (inl err)
    | inr c =>
      let* conn :=
        match ips e with
        | Some eips =>
          match eips !! i with
          | None => panic "index out of range"
          | Some ip =>
            let* r := callConnect c (MacAddress spec) (Some ip) in
            match r with
            | inl err => ret (inl err)
            | inr lastDigit => ret (inr (lastDigit, newIps))
            end
          end
        | None =>
          let* r := callConnect c (MacAddress spec) None in
          match r with
          | inl err => ret (inl err)
          | inr lastDigit => ret (inr (lastDigit, appendIp newIps lastDigit))
          end
        end in
      match conn with
      | inl err => ret (inl err)
      | inr (lastDigit, newIps) =>
        let ipaddr := FormatIP B lastDigit in
        match records !! i with
        | None => panic "index out of range"
        | Some recs =>
          run appendRecords ipaddr recs then
          createContainers (S i) containers' records
                           (machines ++ [InstContainer c]) newIps
        end
      end
    end
  end.

(** The second loop of [Create]. *)
Fixpoint copyVMs (specs : list VBoxConfig) (machines : list Instance)
  : M (state W) (error + list Instance) :=
  match specs with
  | [] => ret (inr machines)
  | spec :: specs' =>
    let* r := callGetCopy (vbox_Image spec) (Interface B) in
    match r with
    | inl err => ret (inl err)
    | inr vm => copyVMs specs' (machines ++ [InstVM vm])
    end
  end.

(** [exercise.Create] *)
Definition Create : M (state W) (option error) :=
  let* s := get in
  let '(containers, records) := ContainerOpts (conf (ex s)) in
  let* r := createContainers 0 containers records [] None in
  match r with
  | inl err => ret (Some err)
  | inr (machines, newIps) =>
    let* s := get in
    let* r := copyVMs (VBoxConfs (conf (ex s))) machines in
    match r with
    | inl err => ret (Some err)
    | inr machines =>
      run modify_ex (λ e, match ips e with
                          | None => set_ips newIps e
                          | Some _ => e
                          end) then
      run modify_ex (set_machines machines) then
      ret None
    end
  end.

(** [exercise.Start] *)
Fixpoint startLoop (ms : list Instance) : M (state W) (option error) :=
  match ms with
  | [] => ret None
  | m :: ms' =>
    let* r := callStart m in
    match r with
    | Some err => ret (Some err)
    | None => startLoop ms'
    end
  end.

Definition Start : M (state W) (option error) :=
  let* s := get in startLoop (machines (ex s)).

(** [exercise.Stop] *)
Fixpoint stopLoop (ms : list Instance) : M (state W) (option error) :=
  match ms with
  | [] => ret None
  | m :: ms' =>
    let* r := callClose m in
    match r with
    | Some err => ret (Some err)
    | None => stopLoop ms'
    end
  end.

Definition Stop : M (state W) (option error) :=
  let* s := get in stopLoop (machines (ex s)).

(** [exercise.Close] *)
Fixpoint closeLoop (ms : list Instance) : M (state W) (option error) :=
  match ms with
  | [] => ret None
  | m :: ms' =>
    let* r := callClose m in
    match r with
    | Some err => ret (Some err)
    | None => closeLoop ms'
    end
  end.

Definition Close : M (state W) (option error) :=
  let* s := get in
  let* r := closeLoop (machines (ex s)) in
  match r with
  | Some err => ret (Some err)
  | None => run modify_ex (set_machines []) then ret None
  end.

(** [exercise.Reset] *)
Definition Reset : M (state W) (option error) :=
  let* r := Stop in
  match r with
  | Some err => ret (Some err)
  | None =>
    let* r := Start in
    match r with
    | Some err => ret (Some err)
    | None => ret None
    end
  end.

(** *** Words for the statements about the methods *)

(** Fields the loops of [Create] leave alone. *)
Definition frame_eq (e e' : exercise) : Prop :=
  conf e' = conf e ∧ flags e' = flags e ∧ machines e' = machines e ∧
  ips e' = ips e ∧ dnsIP e' = dnsIP e.

(** The suffix the code passes to [Connect] for the container at index [i]. *)
Definition requested (eips : option (list Z)) (i : nat) : option Z :=
  match eips with
  | Some l => l !! i
  | None => None
  end.

(** Calls of [k] complete iterations of the first loop of [Create]:
    containers [cs] came back from the runtime, suffixes [ds] from the
    network. *)
Fixpoint createCalls (dns : string) (eips : option (list Z)) (i : nat)
    (specs : list ContainerConfig) (cs : list Container) (ds : list Z) : list call :=
  match specs, cs, ds with
  | spec :: specs', c :: cs', d :: ds' =>
    CallCreateContainer (set_DNS [dns] spec) (inr c)
    :: CallConnect c (MacAddress spec) (requested eips i) (inr d)
    :: createCalls dns eips (S i) specs' cs' ds'
  | _, _, _ => []
  end.

(** Calls of the iteration that returned [err]. *)
Definition failedCalls (dns : string) (eips : option (list Z)) (i : nat)
    (spec : ContainerConfig) (err : error) (tail : list call) : Prop :=
  tail = [CallCreateContainer (set_DNS [dns] spec) (inl err)] ∨
  ∃ c, tail = [CallCreateContainer (set_DNS [dns] spec) (inr c);
               CallConnect c (MacAddress spec) (requested eips i) (inl err)].

(** Records appended by complete iterations from index [i] on. *)
Fixpoint resolvedRecords (i : nat) (ds : list Z)
    (records : list (list RecordConfig)) : list RecordConfig :=
  match ds with
  | [] => []
  | d :: ds' =>
    map (resolveRecord (FormatIP B d)) (default [] (records !! i))
    ++ resolvedRecords (S i) ds' records
  end.

(** Calls of complete iterations of the second loop of [Create]. *)
Fixpoint copyCalls (bridge : string) (specs : list VBoxConfig) (vms : list VM)
  : list call :=
  match specs, vms with
  | spec :: specs', vm :: vms' =>
    CallGetCopy (vbox_Image spec) bridge (inr vm) :: copyCalls bridge specs' vms'
  | _, _ => []
  end.

(** What a successful first [Create] records: the appended suffixes. *)
Definition recordedIps (ds : list Z) : option (list Z) := fold_left appendIp ds None.

(** How a run of [Create] that returns ends: on success, [None]; on an
    early return, the calls of the iteration that failed. *)
Definition createEnd (e : exercise) (ds : list Z) (vms : list VM)
    (err : error) (tail : list call) : Prop :=
  (vms = [] ∧
   ∃ spec, map containerSpec (DockerConfs (conf e)) !! length ds = Some spec ∧
           failedCalls (dnsIP e) (ips e) (length ds) spec err tail)
  ∨ (length ds = length (DockerConfs (conf e)) ∧
     ∃ spec, VBoxConfs (conf e) !! length vms = Some spec ∧
             tail = [CallGetCopy (vbox_Image spec) (Interface B) (inl err)]).

(** *** Reading a history of calls *)

(** The calls made between two states of one run. *)
Definition trace (s s' : state W) : list call :=
  drop (length (calls s)) (calls s').

(** The suffix argument of every [Connect] call, in call order. *)
Definition connectRequests (tr : list call) : list (option Z) :=
  omap (λ c, match c with CallConnect _ _ ip _ => Some ip | _ => None end) tr.

(** The suffix every successful [Connect] call returned, in call order. *)
Definition assignedSuffixes (tr : list call) : list Z :=
  omap (λ c, match c with CallConnect _ _ _ (inr d) => Some d | _ => None end) tr.

(** The containers created, each with the launch spec it was created from. *)
Definition createdContainers (tr : list call) : list (ContainerConfig * Container) :=
  omap (λ c, match c with
             | CallCreateContainer spec (inr c) => Some (spec, c)
             | _ => None
             end) tr.

(** The [Connect] calls, in call order: the container connected, the
    suffix asked for, and the answer of the network. *)
Definition connections (tr : list call) : list (Container * option Z * (error + Z)) :=
  omap (λ c, match c with CallConnect c _ ip r => Some (c, ip, r) | _ => None end) tr.

(** The VM copies made, each with the image it was copied from. *)
Definition copiedVMs (tr : list call) : list (string * VM) :=
  omap (λ c, match c with
             | CallGetCopy image _ (inr vm) => Some (image, vm)
             | _ => None
             end) tr.

(** *** The recorded suffixes stay in step with the blueprint *)

(** The suffix list is nil, or has one entry per container spec: nothing
    but [Create] writes it, from a nil list, one entry per spec. *)
Definition ips_ok (e : exercise) : Prop :=
  match ips e with
  | None => True
  | Some l => length l = length (DockerConfs (conf e))
  end.

(** *** Calls and the backends that answered them *)

(** A recorded call carries the answer the backend gave in some world. *)
Definition justified (c : call) : Prop :=
  match c with
  | CallCreateContainer spec r => ∃ w w', CreateContainer B spec w = (r, w')
  | CallConnect c mac ip r => ∃ w w', Connect B c mac ip w = (r, w')
  | CallGetCopy image bridge r => ∃ w w', GetCopy B image bridge w = (r, w')
  | CallStart m r => ∃ w w', InstStart B m w = (r, w')
  | CallClose m r => ∃ w w', InstClose B m w = (r, w')
  end.

Definition grows_justified (s s' : state W) : Prop :=
  ∃ tr, calls s' = calls s ++ tr ∧ Forall justified tr.

(** The network hands back the suffix it was asked for. *)
Definition honours_requests : Prop :=
  ∀ c mac d w d' w', Connect B c mac (Some d) w = (inr d', w') → d' = d.

(** *** Stop and Close *)

(** Calls of a loop that closed every machine of [ms] without error. *)
Definition closedAll (ms : list Instance) : list call :=
  map (λ m, CallClose m None) ms.

(** Stop, then on success clear the machine list. *)
Definition StopThenClear : M (state W) (option error) :=
  let* r := Stop in
  match r with
  | Some err => ret (Some err)
  | None => run modify_ex (set_machines []) then ret None
  end.

(** *** The life of an exercise *)

(** One call of a method of the exercise that returns, or a change of
    the world between two calls. *)
Inductive step : state W → state W → Prop :=
| step_Create s r s' : Create s = Done r s' → step s s'
| step_Start s r s' : Start s = Done r s' → step s s'
| step_Stop s r s' : Stop s = Done r s' → step s s'
| step_Close s r s' : Close s = Done r s' → step s s'
| step_Reset s r s' : Reset s = Done r s' → step s s'
| step_world s w : step s (mkState (ex s) w (calls s)).

(** The states an exercise goes through: it starts with no recorded
    suffixes, and changes by method calls only. *)
Definition lifecycle (s : state W) : Prop :=
  ∃ s0, ips (ex s0) = None ∧ rtc step s0 s.

(** Fields no method but [Create] writes. *)
Definition same_blueprint (e e' : exercise) : Prop :=
  conf e' = conf e ∧ ips e' = ips e.

(** Once a [Create] has succeeded, the recorded list is nil only for a
    blueprint without container specs. *)
Definition settled (e : exercise) : Prop :=
  ips e = None → DockerConfs (conf e) = [].

End Methods.

(** *** A small world to run the exercise in *)

(** Worlds are call counters. The runtime has no image "broken"; the
    network hands out 100 plus the counter when left to choose, and the
    requested suffix otherwise; the hypervisor copies every image; machines
    start and close without error. *)
Definition demoBackends : Backends nat :=
  {| CreateContainer := λ spec w,
       (if decide (Image spec = "broken") then inl "no such image" else inr w, S w);
     Connect := λ c mac ip w, (inr (default (100 + Z.of_nat w) ip), S w);
     FormatIP := λ lastDigit, "172.16.5." +:+ pretty lastDigit;
     Interface := "br-demo";
     GetCopy := λ image bridge w, (inr w, S w);
     InstStart := λ m w, (None, w);
     InstClose := λ m w, (None, w) |}.

Definition demoContainer (image : string) : DockerConfig :=
  {| docker_Image := image;
     docker_Flags := [mkFlagConfig "flag" "FLAG" "abc" 10];
     Envs := [mkEnvVarConfig "MODE" "prod"];
     Records := [mkRecordConfig (image +:+ ".local") "A" ""];
     docker_MemoryMB := 64;
     docker_CPU := 0 |}.

Definition demoConfig (images : list string) : Config :=
  {| Name := "demo";
     Tags := ["demo"];
     DockerConfs := map demoContainer images;
     VBoxConfs := [mkVBoxConfig "kali" 1024 []] |}.

(** An exercise that has not been created yet. *)
Definition demoFresh (images : list string) : state nat :=
  mkState (mkExercise (demoConfig images) [] [] None "172.16.5.3" []) 0%nat [].

Definition demoCreated : state nat :=
  state_after (Create demoBackends) (demoFresh ["web"; "db"]).

Definition demoClosed : state nat :=
  state_after (Close demoBackends) demoCreated.

Definition demoRecreated : state nat :=
  state_after (Create demoBackends) demoClosed.

Definition demoFailed : state nat :=
  state_after (Create demoBackends) (demoFresh ["web"; "broken"]).

(** A container spec with two flag definitions on one key. *)
Definition demoTwoFlags : DockerConfig :=
  {| docker_Image := "web";
     docker_Flags := [mkFlagConfig "first" "FLAG" "aaa" 5;
                      mkFlagConfig "second" "FLAG" "bbb" 5];
     Envs := [];
     Records := [];
     docker_MemoryMB := 64;
     docker_CPU := 0 |}.

End Exercise.

(** ** Package lab *)
Module Lab.
Import Go.

Definition AvailableSizeErr : error := "Available cannot be larger than capacity".
Definition MaximumLabsErr : error := "Maximum amount of labs reached".
Definition CouldNotFindLabErr : error := "Could not find lab by the specified tag".

Definition BUFFERSIZE : Z := 5.

(** A [Lab] interface value: a reference to a lab object, or nil. *)
Definition labRef := nat.
Definition Lab := option labRef.

Inductive rsrc : Set := mkRsrc.

Record semaphore := mkSemaphore { r : chan rsrc }.

Inductive semaId := CreateSema | MaximumSema.

(** Goroutines started with [go] that nobody waits for. *)
Inductive task :=
| GoAddLab
| GoCloseLab (lab : labRef).

Inductive event :=
| EvNewSemaphore (n : Z)
| EvMakeBuffer (n : Z)
| EvClaim (id : semaId)
| EvRelease (id : semaId)
| EvNewLab (r : error + labRef)
| EvStart (lab : labRef) (r : option error)
| EvClose (lab : labRef) (r : option error)
| EvGo (t : task).

Section Hub.
(** [Config] is this package's blueprint type and [Library] is
    [vbox.Library]; the hub only hands both on to the lab factory. *)
Context {Config Library W : Type}.
Local Open Scope go_scope.

(** The interfaces [LabHost] and [Lab], implemented elsewhere. *)
Record Backends := mkBackends {
  NewLab : Library → Config → W → (error + labRef) * W;
  LabStart : labRef → W → option error * W;
  LabClose : labRef → W → option error * W
}.

Variable B : Backends.

Record hub := mkHub {
  vboxLib : Library;
  conf : Config;
  createSema : semaphore;
  maximumSema : semaphore;
  labs : list Lab;
  buffer : chan Lab;
  numbLabs : Z
}.

(** What lies outside the hub: the backends' world, the history of
    events, and the goroutines left running. *)
Record env := mkEnv {
  world : W;
  events : list event;
  spawned : list task
}.

Definition st : Type := hub * env.

Definition set_sema (id : semaId) (s : semaphore) (h : hub) : hub :=
  match id with
  | CreateSema =>
    mkHub (vboxLib h) (conf h) s (maximumSema h) (labs h) (buffer h) (numbLabs h)
  | MaximumSema =>
    mkHub (vboxLib h) (conf h) (createSema h) s (labs h) (buffer h) (numbLabs h)
  end.
Definition get_sema (id : semaId) (h : hub) : semaphore :=
  match id with
  | CreateSema => createSema h
  | MaximumSema => maximumSema h
  end.
Definition set_labs (l : list Lab) (h : hub) : hub :=
  mkHub (vboxLib h) (conf h) (createSema h) (maximumSema h) l (buffer h) (numbLabs h).
Definition set_buffer (c : chan Lab) (h : hub) : hub :=
  mkHub (vboxLib h) (conf h) (createSema h) (maximumSema h) (labs h) c (numbLabs h).
Definition set_numbLabs (n : Z) (h : hub) : hub :=
  mkHub (vboxLib h) (conf h) (createSema h) (maximumSema h) (labs h) (buffer h) n.

Definition log (ev : event) (e : env) : env :=
  mkEnv (world e) (events e ++ [ev]) (spawned e).
Definition set_world (w : W) (e : env) : env :=
  mkEnv w (events e) (spawned e).

(** [go f()]: the goroutine is recorded, to be run by the scheduler. *)
Definition go (t : task) : M st unit :=
  modify (λ '(h, e), (h, mkEnv (world e) (events e ++ [EvGo t]) (spawned e ++ [t]))).

Definition backend {A} (f : W → A * W) (record : A → event) : M st A :=
  λ '(h, e), let '(a, w) := f (world e) in Done a (h, log (record a) (set_world w e)).

(** *** semaphore *)

(** The filling loop of [newSemaphore]. *)
Fixpoint fill (n : nat) (c : chan rsrc) : attempt (chan rsrc) :=
  match n with
  | O => Ready c
  | S n' =>
    match try_send mkRsrc c with
    | Ready c' => fill n' c'
    | NotReady => NotReady
    | Fault => Fault
    end
  end.

Definition newSemaphore (n : Z) : M env semaphore :=
  λ e, match make_chan n with
       | None => Panicked "makechan: size out of range" e
       | Some c =>
         match fill (Z.to_nat n) c with
         | Ready c' => Done (mkSemaphore c') (log (EvNewSemaphore n) e)
         | NotReady => Blocked e
         | Fault => Panicked "send on closed channel" e
         end
       end.

Definition claim (id : semaId) : M st rsrc :=
  λ '(h, e), match try_recv mkRsrc (r (get_sema id h)) with
             | Ready (x, c) => Done x (set_sema id (mkSemaphore c) h, log (EvClaim id) e)
             | NotReady => Blocked (h, e)
             | Fault => Panicked "receive" (h, e)
             end.

Definition available (id : semaId) : M st Z :=
  λ '(h, e), Done (len (r (get_sema id h))) (h, e).

Definition release (id : semaId) : M st unit :=
  λ '(h, e), match try_send mkRsrc (r (get_sema id h)) with
             | Ready c => Done tt (set_sema id (mkSemaphore c) h, log (EvRelease id) e)
             | NotReady => Blocked (h, e)
             | Fault => Panicked "send on closed channel" (h, e)
             end.

(** *** hub *)

(** The [select] at the end of [addLab]: a send that does not wait. *)
Definition enqueue (lab : Lab) : M st unit :=
  λ '(h, e), match try_send lab (buffer h) with
             | Ready c =>
               let h := set_buffer c h in
               Done tt (set_numbLabs (wrap32 (numbLabs h + 1)) h, e)
             | NotReady => Done tt (h, e)
             | Fault => Panicked "send on closed channel" (h, e)
             end.

(** The part of [addLab] that runs under the deferred release. *)
Definition buildLab : M st (option error) :=
  let* (h, _) := get in
  let* r := backend (NewLab B (vboxLib h) (conf h)) EvNewLab in
  match r with
  | inl err => ret (Some err)
  | inr lab =>
    let* r := backend (LabStart B lab) (EvStart lab) in
    match r with
    | Some err => run go (GoCloseLab lab) then ret (Some err)
    | None => run enqueue (Some lab) then ret None
    end
  end.

(** [hub.addLab] *)
Definition addLab : M st (option error) :=
  let* n := available MaximumSema in
  if n =? 0 then ret (Some MaximumLabsErr)
  else
    run claim MaximumSema then
    run claim CreateSema then
    defer buildLab (release CreateSema).

(** [hub.init]. The goroutines it starts and waits for are run one
    after the other, which is one schedule of the wait group; what
    [addLab] returns is only logged. *)
Fixpoint initLoop (n : nat) : M st unit :=
  match n with
  | O => ret tt
  | S n' => run addLab then initLoop n'
  end.

Definition init (available : Z) : M st (option error) :=
  if available <? 0 then panic "sync: negative WaitGroup counter"
  else run initLoop (Z.to_nat available) then ret None.

Definition make_buffer (n : Z) : M env (chan Lab) :=
  λ e, match make_chan n with
       | None => Panicked "makechan: size out of range" e
       | Some c => Done c (log (EvMakeBuffer n) e)
       end.

Definition with_hub {A} (h : hub) (m : M st A) : M env (A * hub) :=
  λ e, match m (h, e) with
       | Done a (h', e') => Done (a, h') e'
       | Panicked msg (_, e') => Panicked msg e'
       | Blocked (_, e') => Blocked e'
       end.

(** [NewHub]; the result is the pair (hub or nil, error or nil). *)
Definition NewHub (conf : Config) (vboxLib : Library) (available cap : Z)
  : M env (option hub * option error) :=
  if available >? cap then ret (None, Some AvailableSizeErr)
  else
    let createLimit := 3 in
    let* createSema := newSemaphore createLimit in
    let* maximumSema := newSemaphore cap in
    let* buffer := make_buffer available in
    let h := {| labs := [];
                conf := conf;
                createSema := createSema;
                maximumSema := maximumSema;
                buffer := buffer;
                vboxLib := vboxLib;
                numbLabs := 0 |} in
    let* (_, h) := with_hub h (init available) in
    ret (Some h, None).

(** [hub.Available] *)
Definition Available (s : st) : Z := numbLabs (fst s).

(** [hub.GetLabs] *)
Definition GetLabs (s : st) : list Lab := labs (fst s).

(** [hub.Get]; the result is the pair (lab or nil, error or nil). *)
Definition Get : M st (Lab * option error) :=
  let* (h, e) := get in
  match try_recv None (buffer h) with
  | Ready (lab, c) =>
    run modify (λ '(h, e), (set_buffer c h, e)) then
    run modify (λ '(h, e), (set_numbLabs (wrap32 (numbLabs h + -1)) h, e)) then
    let* (h, _) := get in
    run (if numbLabs h <? BUFFERSIZE then go GoAddLab else ret tt) then
    run modify (λ '(h, e), (set_labs (labs h ++ [lab]) h, e)) then
    ret (lab, None)
  | NotReady => ret (None, Some MaximumLabsErr)
  | Fault => panic "receive"
  end.

(** The two loops of [hub.Close]: the wait group makes the hub wait for
    every close; the goroutines are run one after the other. A nil lab
    has no [Close] to call. *)
Fixpoint closeLabs (ls : list Lab) : M st unit :=
  match ls with
  | [] => ret tt
  | None :: _ => panic "nil pointer dereference"
  | Some l :: ls' =>
    run backend (LabClose B l) (EvClose l) then closeLabs ls'
  end.

(** [hub.Close] *)
Definition Close : M st (option error) :=
  let* (h, _) := get in
  match close_chan (buffer h) with
  | None => panic "close of closed channel"
  | Some c =>
    run modify (λ '(h, e), (set_buffer c h, e)) then
    run closeLabs (labs h) then
    run closeLabs (items c) then
    run modify (λ '(h, e),
          (set_buffer (mkChan [] (capacity c) true) h, e)) then
    ret None
  end.

(** *** Words for the statements about the hub *)

(** Permits a semaphore holds. *)
Definition permits (id : semaId) (s : st) : Z := len (r (get_sema id (fst s))).

(** The events between two states of one run. *)
Definition history (s s' : st) : list event :=
  drop (length (events (snd s))) (events (snd s')).

(** *** The warm buffer and its counter *)

Definition max_int32 : Z := 2 ^ 31 - 1.

(** The warm buffer is open and within its capacity, and [numbLabs]
    counts the labs queued in it. *)
Definition buffer_ok (h : hub) : Prop :=
  closed (buffer h) = false ∧
  numbLabs h = len (buffer h) ∧
  len (buffer h) ≤ capacity (buffer h) ∧
  capacity (buffer h) ≤ max_int32.

(** The states of a hub in service: built by [NewHub], then any number of
    [Get] calls and of [addLab] runs (those that [Get] starts), while the
    world around it changes as it likes. *)
Inductive operating : st → Prop :=
| op_NewHub conf lib available cap e0 h e :
    available ≤ max_int32 →
    NewHub conf lib available cap e0 = Done (Some h, None) e →
    operating (h, e)
| op_Get s ret s' :
    operating s → Get s = Done ret s' → operating s'
| op_addLab s ret s' :
    operating s → addLab s = Done ret s' → operating s'
| op_world s w :
    operating s → operating (fst s, set_world w (snd s)).

End Hub.

(** *** A small world to run the hub in *)

(** Worlds are call counters. The factory builds two labs and then runs
    out of disk; labs start and close without error. *)
Definition demoHost : @Backends unit unit nat :=
  {| NewLab := λ _ _ w, (if (w <? 2)%nat then inr w else inl "out of disk", S w);
     LabStart := λ lab w, (None, w);
     LabClose := λ lab w, (None, w) |}.

Definition demoEnv : @env nat := mkEnv 0%nat [] [].

(** The hub [NewHub] builds with a warm size of 2 and a cap of 5. *)
Definition demoPool : @st unit unit nat :=
  ({| vboxLib := tt;
      conf := tt;
      createSema := mkSemaphore (mkChan [mkRsrc; mkRsrc; mkRsrc] 3 false);
      maximumSema := mkSemaphore (mkChan [mkRsrc; mkRsrc; mkRsrc] 5 false);
      labs := [];
      buffer := mkChan [Some 0%nat; Some 1%nat] 2 false;
      numbLabs := 2 |},
   {| world := 2%nat;
      events := [EvNewSemaphore 3; EvNewSemaphore 5; EvMakeBuffer 2;
                 EvClaim MaximumSema; EvClaim CreateSema; EvNewLab (inr 0%nat);
                 EvStart 0%nat None; EvRelease CreateSema;
                 EvClaim MaximumSema; EvClaim CreateSema; EvNewLab (inr 1%nat);
                 EvStart 1%nat None; EvRelease CreateSema];
      spawned := [] |}).

(** The hub [NewHub] builds with a warm size of 0 and a cap of 5. *)
Definition demoEmptyPool : @st unit unit nat :=
  ({| vboxLib := tt;
      conf := tt;
      createSema := mkSemaphore (mkChan [mkRsrc; mkRsrc; mkRsrc] 3 false);
      maximumSema :=
        mkSemaphore (mkChan [mkRsrc; mkRsrc; mkRsrc; mkRsrc; mkRsrc] 5 false);
      labs := [];
      buffer := mkChan [] 0 false;
      numbLabs := 0 |},
   {| world := 0%nat;
      events := [EvNewSemaphore 3; EvNewSemaphore 5; EvMakeBuffer 0];
      spawned := [] |}).

End Lab.

(** ** Further words for the exercise *)
Module ExerciseMore.
Import Go Exercise.

(** Calls of a loop that started every machine of [ms] without error. *)
Definition startedAll (ms : list Instance) : list call :=
  map (λ m, CallStart m None) ms.

(** A call of a method of a machine. *)
Definition touches_machine (c : call) : bool :=
  match c with
  | CallStart _ _ | CallClose _ _ => true
  | _ => false
  end.

(** The records one container contributes: blank addresses filled in. *)
Definition recordsOf {W} (B : Backends W) (lastDigit : Z) (conf : DockerConfig)
  : list RecordConfig :=
  map (resolveRecord (FormatIP B lastDigit)) (Records conf).

End ExerciseMore.

(** ** Further parts of the hub *)
Module LabMore.
Import Go Lab.

Section Hub.
Context {Config Library W : Type}.
Local Open Scope go_scope.
Local Abbreviation st := (@Lab.st Config Library W).

(** [Lab.GetTag], implemented elsewhere: the tag a lab answers with. It is
    taken as a getter, which reads the world and leaves it as it is. *)
Variable GetTag : labRef → W → string.

(** The loop of [hub.GetLabByTag]. A nil lab has no [GetTag] to call. *)
Fixpoint findByTag (tag : string) (ls : list Lab) : M st (Lab * option error) :=
  match ls with
  | [] => ret (None, Some CouldNotFindLabErr)
  | None :: _ => panic "nil pointer dereference"
  | Some lab :: ls' =>
    let* (_, e) := get in
    if decide (tag = GetTag lab (world e))
    then ret (Some lab, None)
    else findByTag tag ls'
  end.

(** [hub.GetLabByTag] *)
Definition GetLabByTag (tag : string) : M st (Lab * option error) :=
  let* (h, _) := get in findByTag tag (labs h).

(** *** Words for further statements about the hub *)

(** The hub between two runs: the creation semaphore holds its three
    permits; the labs in the buffer, the labs dispensed and the capacity
    permits still free do not add up to more than the cap; no lab the hub
    holds is nil. *)
Definition hub_sound (s : st) : Prop :=
  let h := fst s in
  closed (r (createSema h)) = false ∧
  capacity (r (createSema h)) = 3 ∧
  len (r (createSema h)) = 3 ∧
  closed (r (maximumSema h)) = false ∧
  len (buffer h) + Z.of_nat (length (labs h)) + len (r (maximumSema h))
    ≤ capacity (r (maximumSema h)) ∧
  Forall is_Some (labs h) ∧
  Forall is_Some (items (buffer h)).

(** A hub in service between two runs. *)
Definition serving (s : st) : Prop := hub_sound s ∧ buffer_ok (fst s).

(** [go GoCloseLab] on the environment. *)
Definition spawn_close (lab : labRef) (e : @env W) : @env W :=
  mkEnv (world e) (events e ++ [EvGo (GoCloseLab lab)]) (spawned e ++ [GoCloseLab lab]).

(** The labs closed, in the order of the calls. *)
Definition closedLabs (tr : list event) : list labRef :=
  omap (λ ev, match ev with EvClose lab _ => Some lab | _ => None end) tr.

(** The calls of the lab factory. *)
Definition factoryCalls (tr : list event) : list (error + labRef) :=
  omap (λ ev, match ev with EvNewLab r => Some r | _ => None end) tr.

(** The labs that started without error. *)
Definition startedLabs (tr : list event) : list labRef :=
  omap (λ ev, match ev with EvStart lab None => Some lab | _ => None end) tr.

End Hub.

(** A host whose labs are built but do not start. *)
Definition demoFlakyHost : @Backends unit unit nat :=
  {| NewLab := λ _ _ w, (inr w, S w);
     LabStart := λ lab w, (Some "no network", w);
     LabClose := λ lab w, (None, w) |}.

(** Tags of the demo labs. *)
Definition demoTag (lab : labRef) (w : nat) : string :=
  if (lab =? 0)%nat then "red" else "blue".

End LabMore.

(** ** Package store: tags *)
Module Store.

(** Regular expressions over the bytes of a string, with the operators
    [tagRawRegexp] uses. *)
Inductive regex :=
| Void
| Eps
| Class (p : ascii → bool)
| Cat (r1 r2 : regex)
| Alt (r1 r2 : regex)
| Star (r : regex).

(** Whether the expression matches the empty text. *)
Fixpoint nullable (r : regex) : bool :=
  match r with
  | Void => false
  | Eps => true
  | Class _ => false
  | Cat r1 r2 => nullable r1 && nullable r2
  | Alt r1 r2 => nullable r1 || nullable r2
  | Star _ => true
  end.

(** What is left to match after the byte [a]. *)
Fixpoint deriv (a : ascii) (r : regex) : regex :=
  match r with
  | Void => Void
  | Eps => Void
  | Class p => if p a then Eps else Void
  | Cat r1 r2 =>
    if nullable r1
    then Alt (Cat (deriv a r1) r2) (deriv a r2)
    else Cat (deriv a r1) r2
  | Alt r1 r2 => Alt (deriv a r1) (deriv a r2)
  | Star r1 => Cat (deriv a r1) (Star r1)
  end.

(** A match of the whole text. *)
Fixpoint matches (r : regex) (s : list ascii) : bool :=
  match s with
  | [] => nullable r
  | a :: s' => matches (deriv a r) s'
  end.

Definition in_range (lo hi : nat) (a : ascii) : bool :=
  ((lo <=? nat_of_ascii a) && (nat_of_ascii a <=? hi))%nat.

(** [[a-z0-9]] *)
Definition lower_or_digit (a : ascii) : bool :=
  in_range 97 122 a || in_range 48 57 a.

(** [[a-z0-9-]] *)
Definition lower_digit_or_dash (a : ascii) : bool :=
  in_range 97 122 a || in_range 48 57 a || (nat_of_ascii a =? 45)%nat.

Definition tagRawRegexp : string := "^[a-z0-9][a-z0-9-]*[a-z0-9]$".

(** [regexp.MustCompile(tagRawRegexp)]: between [^] and [$], which tie the
    match to both ends of the text, a byte of [[a-z0-9]], any number of
    bytes of [[a-z0-9-]], a byte of [[a-z0-9]]. *)
Definition tagRegex : regex :=
  Cat (Class lower_or_digit)
      (Cat (Star (Class lower_digit_or_dash)) (Class lower_or_digit)).

(** [tagRegex.MatchString] *)
Definition MatchString (re : regex) (s : string) : bool :=
  matches re (String.list_ascii_of_string s).

Inductive tagError :=
| TagEmptyErr
| InvalidTagSyntaxErr (tag : string).

(** [InvalidTagSyntaxErr.Error], and the message of [TagEmptyErr]. *)
Definition Error (err : tagError) : string :=
  match err with
  | TagEmptyErr => "Tag cannot be empty"
  | InvalidTagSyntaxErr tag =>
    "Invalid syntax for tag " +:+ String "034"%char tag
    +:+ String "034"%char ", allowed syntax: " +:+ tagRawRegexp
  end.

Definition Tag := string.

(** [Tag.Validate] *)
Definition Validate (t : Tag) : option tagError :=
  let s := t in
  if decide (s = "") then Some TagEmptyErr
  else if negb (MatchString tagRegex s) then Some (InvalidTagSyntaxErr s)
  else None.



(** The texts an expression matches as a whole. *)
Inductive lang : regex → list ascii → Prop :=
| lang_Eps : lang Eps []
| lang_Class p a : p a = true → lang (Class p) [a]
| lang_Cat r1 r2 s1 s2 : lang r1 s1 → lang r2 s2 → lang (Cat r1 r2) (s1 ++ s2)
| lang_Alt_l r1 r2 s : lang r1 s → lang (Alt r1 r2) s
| lang_Alt_r r1 r2 s : lang r2 s → lang (Alt r1 r2) s
| lang_Star_nil r : lang (Star r) []
| lang_Star_app r s1 s2 : lang r s1 → lang (Star r) s2 → lang (Star r) (s1 ++ s2).

End Store.

(** * Properties *)

(** ** Runs that return *)
Module GoFacts.
Import Go.

Lemma bind_Done {S A C} (m : M S A) (k : A → M S C) s c s' :
  bind m k s = Done c s' → ∃ a s1, m s = Done a s1 ∧ k a s1 = Done c s'.
Proof.
  unfold bind. destruct (m s) as [a s1| |]; [|done|done]. intros H. by exists a, s1.
Qed.

Lemma defer_Done {S A} (body : M S A) (d : M S unit) s a s' :
  defer body d s = Done a s' → ∃ s1, body s = Done a s1 ∧ d s1 = Done tt s'.
Proof.
  unfold defer. destruct (body s) as [a1 s1|msg s1|]; [| |done].
  - destruct (d s1) as [[] s2| |] eqn:E; [|done|done].
    intros [= <- <-]. by exists s1.
  - by destruct (d s1).
Qed.

Lemma recv_then_send {A} (zero x y : A) (c c1 c2 : chan A) :
  try_recv zero c = Ready (x, c1) → try_send y c1 = Ready c2 → len c2 = len c.
Proof.
  unfold try_recv, try_send. destruct c as [[|x0 rest] cap cl]; cbn.
  - destruct cl; [|done]. intros [= <- <-]. done.
  - intros [= <- <-]. cbn. destruct cl; [done|].
    destruct (len _ <? cap); [|done]. intros [= <-].
    unfold len. cbn. rewrite length_app. cbn. lia.
Qed.

Lemma recv_nonempty {A} (zero x : A) (c c1 : chan A) :
  len c ≠ 0 → try_recv zero c = Ready (x, c1) → len c1 = len c - 1.
Proof.
  unfold try_recv, len. destruct c as [[|x0 rest] cap cl]; cbn; [lia|].
  intros _ [= <- <-]. cbn. lia.
Qed.

End GoFacts.

(** ** Package exercise *)
Module ExerciseProofs.
Import Go Exercise GoFacts.

Lemma lastWith_cons {A} (key : A → string) k x l :
  lastWith key k (x :: l) =
  match lastWith key k l with
  | Some y => Some y
  | None => if decide (key x = k) then Some x else None
  end.
Proof.
  unfold lastWith. rewrite filter_cons.
  destruct (decide (key x = k)) as [Hk|Hk].
  - destruct (filter (λ x0, key x0 = k) l) as [|y l'] eqn:E; [done|].
    rewrite last_cons. by destruct (last (y :: l')).
  - by destruct (last (filter (λ x0, key x0 = k) l)).
Qed.

Lemma lookup_fold_insert {A} (key val : A → string) (l : list A)
    (m : gmap string string) (k : string) :
  fold_left (λ m x, <[key x := val x]> m) l m !! k =
  match lastWith key k l with
  | Some x => Some (val x)
  | None => m !! k
  end.
Proof.
  revert m. induction l as [|x l IH]; intros m; [done|].
  cbn [fold_left]. rewrite IH, lastWith_cons.
  destruct (lastWith key k l); [done|].
  destruct (decide (key x = k)) as [<-|Hk].
  - by rewrite lookup_insert_eq.
  - by rewrite lookup_insert_ne.
Qed.

Lemma ContainerOpts_map (ec : Config) :
  ContainerOpts ec =
  (map containerSpec (DockerConfs ec), map Records (DockerConfs ec)).
Proof.
  unfold ContainerOpts.
  enough (H : ∀ l specs recs,
    fold_left
      (λ '(contSpecs, contRecords) conf,
         (contSpecs ++ [containerSpec conf], contRecords ++ [Records conf]))
      l (specs, recs) = (specs ++ map containerSpec l, recs ++ map Records l))
    by apply (H _ [] []).
  induction l as [|c l IH]; intros specs recs; cbn [fold_left map].
  - by rewrite !app_nil_r.
  - rewrite IH. by rewrite <- !app_assoc.
Qed.

Section Proofs.
Context {W : Type} (B : Backends W).
Local Open Scope go_scope.
Local Abbreviation resolvedRecords := (Exercise.resolvedRecords B).
Local Abbreviation createEnd := (Exercise.createEnd B).
Local Abbreviation justified := (Exercise.justified B).
Local Abbreviation grows_justified := (Exercise.grows_justified B).
Local Abbreviation honours_requests := (Exercise.honours_requests B).
Local Abbreviation StopThenClear := (Exercise.StopThenClear B).
Local Abbreviation step := (Exercise.step B).
Local Abbreviation lifecycle := (Exercise.lifecycle B).

Lemma frame_eq_refl e : frame_eq e e.
Proof. by repeat split. Qed.

Lemma fold_left_snoc_map {X Y} (f : X → Y) (l : list X) (acc : list Y) :
  fold_left (λ acc x, acc ++ [f x]) l acc = acc ++ map f l.
Proof.
  revert acc. induction l as [|x l IH]; intros acc; cbn.
  - by rewrite app_nil_r.
  - by rewrite IH, <- app_assoc.
Qed.

Lemma createContainers_Done containers :
  ∀ i records ms0 newIps s r s',
  createContainers B i containers records ms0 newIps s = Done r s' →
  ∃ cs ds tail,
    length cs = length ds ∧
    frame_eq (ex s) (ex s') ∧
    dnsRecords (ex s') = dnsRecords (ex s) ++ resolvedRecords i ds records ∧
    calls s' = calls s
               ++ createCalls (dnsIP (ex s)) (ips (ex s)) i containers cs ds ++ tail ∧
    match r with
    | inr (ms, nips) =>
      length ds = length containers ∧ tail = [] ∧
      ms = ms0 ++ map InstContainer cs ∧
      nips = match ips (ex s) with
             | Some _ => newIps
             | None => fold_left appendIp ds newIps
             end
    | inl err =>
      ∃ spec, containers !! length ds = Some spec ∧
              failedCalls (dnsIP (ex s)) (ips (ex s)) (i + length ds) spec err tail
    end.
Proof.
  induction containers as [|spec containers IH]; intros i records ms0 newIps s r s' H.
  - cbn in H. injection H as <- <-. exists [], [], [].
    rewrite !app_nil_r. repeat split; try done. by destruct (ips (ex s)).
  - cbn [createContainers] in H.
    unfold bind at 1 in H. cbn [get] in H.
    unfold bind at 1, callCreateContainer, backend in H.
    destruct (CreateContainer B _ (world s)) as [[err|c] w] eqn:Ecc.
    + injection H as <- <-. eexists [], [], _. cbn.
      rewrite app_nil_r, Nat.add_0_r.
      split; [done|]. split; [apply frame_eq_refl|]. split; [done|].
      split; [reflexivity|].
      exists spec. split; [done|]. by left.
    + cbn [ex world calls] in H. unfold bind at 1 in H.
      destruct (ips (ex s)) as [eips|] eqn:Eips;
        [destruct (eips !! i) as [ip|] eqn:Eip; [|discriminate]|];
        unfold bind at 1, callConnect, backend in H; cbn [ex world calls] in H;
        (destruct (Connect B _ _ _ w) as [[err|d] w'] eqn:Ecn; cbn in H).
      1,3: (* the network refused *)
        injection H as <- <-; eexists [], [], _; cbn;
        rewrite app_nil_r, Nat.add_0_r, <- app_assoc;
        (split; [done|]); (split; [apply frame_eq_refl|]); (split; [done|]);
        (split; [reflexivity|]);
        exists spec; (split; [done|]); right; exists c; cbn [requested];
        by try rewrite Eip.
      all: (* connected: the loop goes on *)
        destruct (records !! i) as [recs|] eqn:Erec; [|discriminate];
        unfold bind at 1, appendRecords, modify_ex, modify in H;
        apply IH in H as (cs & ds & tail & Hlen & Hfr & Hdns & Hcalls & Hr);
        cbn [ex calls set_dnsRecords conf flags machines ips dnsIP dnsRecords] in *;
        exists (c :: cs), (d :: ds), tail; cbn [length createCalls resolvedRecords];
        rewrite Erec; cbn [default]; rewrite Eips in *; cbn [requested];
        try rewrite Eip;
        (split; [lia|]); (split; [exact Hfr|]);
        (split; [rewrite Hdns, fold_left_snoc_map; by rewrite <- app_assoc|]);
        (split; [rewrite Hcalls; by rewrite <- !app_assoc|]);
        destruct r as [err|[ms nips]];
        [ destruct Hr as (spec' & Hs & Hf); exists spec'; (split; [done|]);
          by replace (i + S (length ds))%nat with (S i + length ds)%nat by lia
        | destruct Hr as (Hl & -> & -> & ->); repeat split; try done; [lia|];
          by rewrite <- app_assoc ].
Qed.

Lemma copyCalls_nil bridge specs : copyCalls bridge specs [] = [].
Proof. by destruct specs. Qed.

Lemma copyVMs_Done specs :
  ∀ ms0 s r s',
  copyVMs B specs ms0 s = Done r s' →
  ∃ vms tail,
    ex s' = ex s ∧
    calls s' = calls s ++ copyCalls (Interface B) specs vms ++ tail ∧
    match r with
    | inr ms => length vms = length specs ∧ tail = [] ∧ ms = ms0 ++ map InstVM vms
    | inl err =>
      ∃ spec, specs !! length vms = Some spec ∧
              tail = [CallGetCopy (vbox_Image spec) (Interface B) (inl err)]
    end.
Proof.
  induction specs as [|spec specs IH]; intros ms0 s r s' H.
  - cbn in H. injection H as <- <-. exists [], []. by rewrite !app_nil_r.
  - cbn [copyVMs] in H. unfold bind at 1, callGetCopy, backend in H.
    destruct (GetCopy B _ _ (world s)) as [[err|vm] w] eqn:Egc.
    + injection H as <- <-. eexists [], _. cbn.
      split; [done|]. split; [reflexivity|]. by exists spec.
    + apply IH in H as (vms & tail & Hex & Hcalls & Hr).
      cbn [ex calls] in *. exists (vm :: vms), tail. cbn [copyCalls length].
      split; [done|]. split; [by rewrite Hcalls, <- !app_assoc|].
      destruct r as [err|ms]; [done|].
      destruct Hr as (Hl & -> & ->). repeat split; [lia|].
      by rewrite <- app_assoc.
Qed.

Lemma fold_appendIp_Some ds l : fold_left appendIp ds (Some l) = Some (l ++ ds).
Proof.
  revert l. induction ds as [|d ds IH]; intros l; cbn.
  - by rewrite app_nil_r.
  - unfold appendIp at 2. cbn. by rewrite IH, <- app_assoc.
Qed.

Lemma recordedIps_cons d ds : recordedIps (d :: ds) = Some (d :: ds).
Proof. unfold recordedIps. cbn. unfold appendIp at 2. cbn. apply fold_appendIp_Some. Qed.

Lemma recordedIps_default ds : default [] (recordedIps ds) = ds.
Proof. destruct ds; [done|]. by rewrite recordedIps_cons. Qed.

Lemma Create_Done s r s' :
  Create B s = Done r s' →
  let e := ex s in
  ∃ cs ds vms tail,
    length cs = length ds ∧
    conf (ex s') = conf e ∧ flags (ex s') = flags e ∧ dnsIP (ex s') = dnsIP e ∧
    dnsRecords (ex s') =
      dnsRecords e ++ resolvedRecords 0 ds (map Records (DockerConfs (conf e))) ∧
    calls s' = calls s
               ++ createCalls (dnsIP e) (ips e) 0
                    (map containerSpec (DockerConfs (conf e))) cs ds
               ++ copyCalls (Interface B) (VBoxConfs (conf e)) vms ++ tail ∧
    match r with
    | None =>
      length ds = length (DockerConfs (conf e)) ∧
      length vms = length (VBoxConfs (conf e)) ∧
      tail = [] ∧
      machines (ex s') = map InstContainer cs ++ map InstVM vms ∧
      ips (ex s') = match ips e with
                    | Some l => Some l
                    | None => recordedIps ds
                    end
    | Some err =>
      machines (ex s') = machines e ∧ ips (ex s') = ips e ∧
      createEnd e ds vms err tail
    end.
Proof.
  intros H e. unfold Create in H. unfold bind at 1 in H. cbn [get] in H.
  rewrite ContainerOpts_map in H. unfold bind at 1 in H.
  destruct (createContainers B 0 _ _ [] None s) as [r1 s1| |] eqn:E1; try discriminate.
  apply createContainers_Done in E1
    as (cs & ds & tail1 & Hlen & (Hc & Hf & Hm & Hi & Hd) & Hdns & Hcalls & Hr1).
  fold e in Hc, Hf, Hm, Hi, Hd, Hdns, Hcalls, Hr1.
  destruct r1 as [err|[ms nips]].
  - injection H as <- <-. destruct Hr1 as (spec & Hs & Hfail).
    exists cs, ds, [], tail1. rewrite copyCalls_nil. cbn [app].
    repeat (split; [done|]). left. split; [done|]. by exists spec.
  - destruct Hr1 as (Hl & -> & -> & ->). rewrite length_map in Hl.
    unfold bind at 1 in H. cbn [get] in H. unfold bind at 1 in H.
    destruct (copyVMs B _ _ s1) as [r2 s2| |] eqn:E2; try discriminate.
    apply copyVMs_Done in E2 as (vms & tail2 & Hex & Hcalls2 & Hr2).
    rewrite Hc in Hcalls2, Hr2.
    destruct r2 as [err|ms].
    + injection H as <- <-. destruct Hr2 as (spec & Hs & ->).
      exists cs, ds, vms, [CallGetCopy (vbox_Image spec) (Interface B) (inl err)].
      rewrite Hex. split; [done|]. repeat (split; [done|]).
      split; [by rewrite Hcalls2, Hcalls, app_nil_r, <- !app_assoc|].
      repeat split; try done. right. split; [done|]. by exists spec.
    + destruct Hr2 as (Hl2 & -> & ->). cbn in H. injection H as <- <-.
      cbn [ex calls]. exists cs, ds, vms, []. rewrite Hex, Hi.
      destruct (ips e) as [l|] eqn:El; cbn;
        (split; [done|]); repeat (split; [done|]);
        (split; [by rewrite Hcalls2, Hcalls, !app_nil_r, <- !app_assoc|]);
        repeat split; done.
Qed.

Lemma trace_app (s s' : state W) tr : calls s' = calls s ++ tr → trace s s' = tr.
Proof. unfold trace. intros ->. apply drop_app_length. Qed.

Lemma connectRequests_createCalls dns l specs :
  ∀ i cs ds,
  length cs = length ds → (length ds ≤ length specs)%nat →
  (i + length ds ≤ length l)%nat →
  connectRequests (createCalls dns (Some l) i specs cs ds)
  = map Some (take (length ds) (drop i l)).
Proof.
  induction specs as [|spec specs IH]; intros i cs ds Hlen Hle Hin.
  - destruct ds; [|cbn in Hle; lia]. by destruct cs.
  - destruct cs as [|c cs], ds as [|d ds]; try discriminate; [done|].
    cbn [length] in *. cbn [createCalls requested].
    destruct (lookup_lt_is_Some_2 l i) as [x Hx]; [lia|].
    rewrite Hx, (drop_S _ _ _ Hx). cbn [take map].
    change (connectRequests (?a :: ?b :: ?tr)) with (Some x :: connectRequests tr).
    f_equal. apply IH; lia.
Qed.

Lemma assignedSuffixes_createCalls dns eips specs :
  ∀ i cs ds,
  length cs = length ds → (length ds ≤ length specs)%nat →
  assignedSuffixes (createCalls dns eips i specs cs ds) = ds.
Proof.
  induction specs as [|spec specs IH]; intros i cs ds Hlen Hle.
  - destruct ds; [|cbn in Hle; lia]. by destruct cs.
  - destruct cs as [|c cs], ds as [|d ds]; try discriminate; [done|].
    cbn [length] in *. cbn [createCalls].
    change (assignedSuffixes (?a :: ?b :: ?tr)) with (d :: assignedSuffixes tr).
    f_equal. apply IH; lia.
Qed.

Lemma createdContainers_createCalls dns eips specs :
  ∀ i cs ds,
  length cs = length ds →
  createdContainers (createCalls dns eips i specs cs ds)
  = zip (map (set_DNS [dns]) specs) cs.
Proof.
  induction specs as [|spec specs IH]; intros i cs ds Hlen.
  - by destruct cs.
  - destruct cs as [|c cs], ds as [|d ds]; try discriminate; [done|].
    cbn [createCalls map zip zip_with].
    change (createdContainers (?a :: ?b :: ?tr))
      with ((set_DNS [dns] spec, c) :: createdContainers tr).
    f_equal. apply IH. by injection Hlen.
Qed.

Lemma copiedVMs_createCalls dns eips specs :
  ∀ i cs ds, copiedVMs (createCalls dns eips i specs cs ds) = [].
Proof.
  induction specs as [|spec specs IH]; intros i cs ds; [done|].
  destruct cs, ds; try done. cbn [createCalls].
  change (copiedVMs (?a :: ?b :: ?tr)) with (copiedVMs tr). apply IH.
Qed.

Lemma copiedVMs_copyCalls bridge specs :
  ∀ vms, copiedVMs (copyCalls bridge specs vms) = zip (map vbox_Image specs) vms.
Proof.
  induction specs as [|spec specs IH]; intros vms; [by destruct vms|].
  destruct vms as [|vm vms]; [done|].
  cbn [copyCalls map zip zip_with].
  change (copiedVMs (?a :: ?tr)) with ((vbox_Image spec, vm) :: copiedVMs tr).
  f_equal. apply IH.
Qed.

Lemma no_connect_copyCalls bridge specs :
  ∀ vms, connectRequests (copyCalls bridge specs vms) = [] ∧
         assignedSuffixes (copyCalls bridge specs vms) = [] ∧
         createdContainers (copyCalls bridge specs vms) = [].
Proof.
  induction specs as [|spec specs IH]; intros vms; [by destruct vms|].
  destruct vms as [|vm vms]; [done|]. apply IH.
Qed.

Lemma createCalls_nil dns eips i specs cs : createCalls dns eips i specs cs [] = [].
Proof. by destruct specs, cs. Qed.

Lemma projections_app tr1 tr2 :
  connectRequests (tr1 ++ tr2) = connectRequests tr1 ++ connectRequests tr2 ∧
  assignedSuffixes (tr1 ++ tr2) = assignedSuffixes tr1 ++ assignedSuffixes tr2 ∧
  createdContainers (tr1 ++ tr2) = createdContainers tr1 ++ createdContainers tr2 ∧
  copiedVMs (tr1 ++ tr2) = copiedVMs tr1 ++ copiedVMs tr2.
Proof.
  unfold connectRequests, assignedSuffixes, createdContainers, copiedVMs.
  by rewrite !omap_app.
Qed.

Lemma Create_ips_ok s r s' :
  ips_ok (ex s) → Create B s = Done r s' → ips_ok (ex s').
Proof.
  intros Hok H. apply Create_Done in H
    as (cs & ds & vms & tail & Hlen & Hc & _ & _ & _ & _ & Hr).
  unfold ips_ok in *. rewrite Hc.
  destruct r as [err|].
  - destruct Hr as (_ & -> & _). exact Hok.
  - destruct Hr as (Hl & _ & _ & _ & ->).
    destruct (ips (ex s)) as [l|]; [exact Hok|].
    destruct ds as [|d ds]; [done|]. by rewrite recordedIps_cons.
Qed.

Lemma grows_refl s : grows_justified s s.
Proof. exists []. by rewrite app_nil_r. Qed.

Lemma grows_trans s1 s2 s3 :
  grows_justified s1 s2 → grows_justified s2 s3 → grows_justified s1 s3.
Proof.
  intros (tr1 & H1 & F1) (tr2 & H2 & F2). exists (tr1 ++ tr2).
  split; [by rewrite H2, H1, app_assoc|]. by apply Forall_app.
Qed.

Lemma grows_ex_only s e : grows_justified s (mkState e (world s) (calls s)).
Proof. exists []. cbn. by rewrite app_nil_r. Qed.

Lemma backend_justified {A} (f : W → A * W) (record : A → call) s a s' :
  (∀ w a w', f w = (a, w') → justified (record a)) →
  backend f record s = Done a s' → grows_justified s s'.
Proof.
  intros Hj H. unfold backend in H.
  destruct (f (world s)) as [a' w'] eqn:E. injection H as <- <-.
  exists [record a']. split; [done|]. constructor; [|constructor].
  by apply (Hj _ _ _ E).
Qed.

Lemma createContainers_justified containers :
  ∀ i records ms0 newIps s r s',
  createContainers B i containers records ms0 newIps s = Done r s' →
  grows_justified s s'.
Proof.
  induction containers as [|spec containers IH];
    intros i records ms0 newIps s r s' H.
  - cbn in H. injection H as <- <-. apply grows_refl.
  - cbn [createContainers] in H.
    unfold bind at 1 in H. cbn [get] in H. unfold bind at 1 in H.
    destruct (callCreateContainer B _ s) as [r1 s1| |] eqn:E1; try discriminate.
    assert (G1 : grows_justified s s1).
    { apply backend_justified in E1; [done|]. intros w a w' Hw. by exists w, w'. }
    destruct r1 as [err|c]; [injection H as <- <-; exact G1|].
    unfold bind at 1 in H.
    assert (∃ r2 s2, grows_justified s1 s2 ∧
              match r2 with
              | inl err => Done (inl err) s2 = Done r s'
              | inr (lastDigit, newIps') =>
                match records !! i with
                | None => panic "index out of range"
                | Some recs =>
                  run appendRecords (FormatIP B lastDigit) recs then
                  createContainers B (S i) containers records
                    (ms0 ++ [InstContainer c]) newIps'
                end s2 = Done r s'
              end) as (r2 & s2 & G2 & H2).
    { destruct (ips (ex s)) as [eips|].
      - destruct (eips !! i) as [ip|]; [|discriminate].
        unfold bind at 1 in H.
        destruct (callConnect B _ _ _ s1) as [r2 s2| |] eqn:E2; try discriminate.
        assert (G2 : grows_justified s1 s2).
        { apply backend_justified in E2; [done|]. intros w a w' Hw. by exists w, w'. }
        destruct r2 as [err|d]; cbn in H.
        + by exists (inl err), s2.
        + by exists (inr (d, newIps)), s2.
      - unfold bind at 1 in H.
        destruct (callConnect B _ _ _ s1) as [r2 s2| |] eqn:E2; try discriminate.
        assert (G2 : grows_justified s1 s2).
        { apply backend_justified in E2; [done|]. intros w a w' Hw. by exists w, w'. }
        destruct r2 as [err|d]; cbn in H.
        + by exists (inl err), s2.
        + by exists (inr (d, appendIp newIps d)), s2. }
    destruct r2 as [err|[d nips]].
    + injection H2 as <- <-. by eapply grows_trans.
    + destruct (records !! i) as [recs|]; [|discriminate].
      unfold bind at 1, appendRecords, modify_ex, modify in H2.
      apply IH in H2.
      eapply grows_trans; [exact G1|]. eapply grows_trans; [exact G2|].
      eapply grows_trans; [apply grows_ex_only|exact H2].
Qed.

Lemma copyVMs_justified specs :
  ∀ ms0 s r s', copyVMs B specs ms0 s = Done r s' → grows_justified s s'.
Proof.
  induction specs as [|spec specs IH]; intros ms0 s r s' H.
  - cbn in H. injection H as <- <-. apply grows_refl.
  - cbn [copyVMs] in H. unfold bind at 1 in H.
    destruct (callGetCopy B _ _ s) as [r1 s1| |] eqn:E1; try discriminate.
    assert (G1 : grows_justified s s1).
    { apply backend_justified in E1; [done|]. intros w a w' Hw. by exists w, w'. }
    destruct r1 as [err|vm]; [injection H as <- <-; exact G1|].
    apply IH in H. by eapply grows_trans.
Qed.

Lemma Create_justified s r s' :
  Create B s = Done r s' → Forall justified (trace s s').
Proof.
  intros H.
  enough (G : grows_justified s s').
  { destruct G as (tr & Htr & F). by rewrite (trace_app _ _ _ Htr). }
  unfold Create in H. unfold bind at 1 in H. cbn [get] in H.
  destruct (ContainerOpts (conf (ex s))) as [containers records].
  unfold bind at 1 in H.
  destruct (createContainers B 0 _ _ [] None s) as [r1 s1| |] eqn:E1; try discriminate.
  apply createContainers_justified in E1.
  destruct r1 as [err|[ms nips]]; [injection H as <- <-; exact E1|].
  unfold bind at 1 in H. cbn [get] in H. unfold bind at 1 in H.
  destruct (copyVMs B _ _ s1) as [r2 s2| |] eqn:E2; try discriminate.
  apply copyVMs_justified in E2.
  destruct r2 as [err|ms']; [injection H as <- <-; by eapply grows_trans|].
  cbn in H. injection H as <- <-.
  eapply grows_trans; [exact E1|]. eapply grows_trans; [exact E2|].
  destruct E2 as (tr & _ & _). exists []. cbn. by rewrite app_nil_r.
Qed.

Lemma assigned_le_requests tr :
  (length (assignedSuffixes tr) ≤ length (connectRequests tr))%nat.
Proof.
  induction tr as [|c tr IH]; [done|].
  unfold assignedSuffixes, connectRequests in *.
  destruct c as [| ? ? ? [?|?] | | |]; cbn; lia.
Qed.

Lemma assigned_as_requested tr :
  honours_requests → Forall justified tr →
  ∀ l, connectRequests tr = map Some l →
       length (assignedSuffixes tr) = length l →
       assignedSuffixes tr = l.
Proof.
  intros Hh F. induction F as [|c tr Hc F IH]; intros l Hreq Hlen.
  - by destruct l.
  - destruct c as [| c mac ip [err|d] | | |]; try (by apply IH).
    + destruct l as [|x l]; [discriminate|].
      change (connectRequests (?a :: ?t)) with (ip :: connectRequests t) in Hreq.
      change (assignedSuffixes (?a :: ?t)) with (assignedSuffixes t) in Hlen.
      cbn [map length] in Hreq, Hlen. injection Hreq as _ Hreq.
      pose proof (assigned_le_requests tr) as Hle.
      rewrite Hreq, length_map in Hle. lia.
    + destruct l as [|x l]; [discriminate|].
      change (connectRequests (?a :: ?t)) with (ip :: connectRequests t) in Hreq.
      change (assignedSuffixes (?a :: ?t)) with (d :: assignedSuffixes t) in *.
      cbn [map length] in Hreq, Hlen. injection Hreq as -> Hreq.
      destruct Hc as (w & w' & Hw). apply Hh in Hw as ->.
      f_equal. apply IH; [done|lia].
Qed.

Lemma requests_of_run e cs ds vms tail tr :
  tr = createCalls (dnsIP e) (ips e) 0
         (map containerSpec (DockerConfs (conf e))) cs ds
       ++ copyCalls (Interface B) (VBoxConfs (conf e)) vms ++ tail →
  connectRequests tr
  = connectRequests (createCalls (dnsIP e) (ips e) 0
                       (map containerSpec (DockerConfs (conf e))) cs ds)
    ++ connectRequests tail ∧
  assignedSuffixes tr
  = assignedSuffixes (createCalls (dnsIP e) (ips e) 0
                        (map containerSpec (DockerConfs (conf e))) cs ds)
    ++ assignedSuffixes tail.
Proof.
  intros ->.
  destruct (projections_app
              (createCalls (dnsIP e) (ips e) 0
                 (map containerSpec (DockerConfs (conf e))) cs ds)
              (copyCalls (Interface B) (VBoxConfs (conf e)) vms ++ tail))
    as (-> & -> & _).
  destruct (projections_app (copyCalls (Interface B) (VBoxConfs (conf e)) vms) tail)
    as (-> & -> & _).
  destruct (no_connect_copyCalls (Interface B) (VBoxConfs (conf e)) vms)
    as (-> & -> & _).
  done.
Qed.

Lemma closeLoop_Done ms :
  ∀ s, ∃ r s',
    closeLoop B ms s = Done r s' ∧ ex s' = ex s ∧
    match r with
    | None => calls s' = calls s ++ closedAll ms
    | Some err =>
      ∃ j m, ms !! j = Some m ∧
             calls s' = calls s ++ closedAll (take j ms) ++ [CallClose m (Some err)]
    end.
Proof.
  induction ms as [|m ms IH]; intros s.
  - exists None, s. cbn. by rewrite app_nil_r.
  - cbn [closeLoop]. unfold bind at 1, callClose, backend.
    destruct (InstClose B m (world s)) as [[err|] w] eqn:E.
    + eexists (Some err), _. split; [reflexivity|]. split; [done|].
      exists 0%nat, m. done.
    + destruct (IH (mkState (ex s) w (calls s ++ [CallClose m None])))
        as (r & s' & Hrun & Hex & Hr).
      exists r, s'. split; [exact Hrun|]. split; [exact Hex|].
      cbn [calls] in Hr. destruct r as [err|].
      * destruct Hr as (j & m' & Hj & ->). exists (S j), m'.
        split; [done|]. cbn [take closedAll map]. by rewrite <- app_assoc.
      * rewrite Hr. cbn [closedAll map]. by rewrite <- app_assoc.
Qed.

Lemma closeLoop_stopLoop ms : ∀ s, closeLoop B ms s = stopLoop B ms s.
Proof.
  induction ms as [|m ms IH]; intros s; [done|].
  cbn [closeLoop stopLoop]. unfold bind.
  destruct (callClose B m s) as [[err|] s1| |]; [done| |done|done].
  apply IH.
Qed.

Lemma Close_StopThenClear s : Close B s = StopThenClear s.
Proof.
  unfold Close, StopThenClear, Stop.
  unfold bind at 1 3 4. cbn [get]. unfold bind at 1 3.
  by rewrite closeLoop_stopLoop.
Qed.

(** *** Create returns *)

Lemma createContainers_returns containers :
  ∀ i records ms0 newIps s,
  (i + length containers ≤ length records)%nat →
  (∀ l, ips (ex s) = Some l → (i + length containers ≤ length l)%nat) →
  ∃ r s', createContainers B i containers records ms0 newIps s = Done r s'.
Proof.
  induction containers as [|spec containers IH];
    intros i records ms0 newIps s Hrec Hips; [by eexists _, _|].
  cbn [length] in Hrec, Hips. cbn [createContainers].
  unfold bind at 1. cbn [get].
  unfold bind at 1, callCreateContainer, backend.
  destruct (CreateContainer B _ (world s)) as [[err|c] w]; [by eexists _, _|].
  cbn [ex world calls]. unfold bind at 1.
  destruct (lookup_lt_is_Some_2 records i) as [recs Hrecs]; [lia|].
  destruct (ips (ex s)) as [eips|] eqn:Eips.
  - destruct (lookup_lt_is_Some_2 eips i) as [ip Hip]; [specialize (Hips _ eq_refl); lia|].
    rewrite Hip. unfold bind at 1, callConnect, backend. cbn [ex world calls].
    destruct (Connect B _ _ _ w) as [[err|d] w']; cbn; [by eexists _, _|].
    rewrite Hrecs. unfold bind at 1, appendRecords, modify_ex, modify.
    apply IH; cbn [ex ips set_dnsRecords]; [lia|].
    rewrite Eips. intros l [= <-]. specialize (Hips _ eq_refl). lia.
  - unfold bind at 1, callConnect, backend. cbn [ex world calls].
    destruct (Connect B _ _ _ w) as [[err|d] w']; cbn; [by eexists _, _|].
    rewrite Hrecs. unfold bind at 1, appendRecords, modify_ex, modify.
    apply IH; cbn [ex ips set_dnsRecords]; [lia|].
    by rewrite Eips.
Qed.

Lemma copyVMs_returns specs :
  ∀ ms0 s, ∃ r s', copyVMs B specs ms0 s = Done r s'.
Proof.
  induction specs as [|spec specs IH]; intros ms0 s; [by eexists _, _|].
  cbn [copyVMs]. unfold bind at 1, callGetCopy, backend.
  destruct (GetCopy B _ _ (world s)) as [[err|vm] w]; [by eexists _, _|].
  apply IH.
Qed.

(** With the recorded list in step with the blueprint, no index of
    [Create] is out of range: the call returns. *)
Lemma Create_returns s : ips_ok (ex s) → ∃ r s', Create B s = Done r s'.
Proof.
  intros Hok. unfold Create. unfold bind at 1. cbn [get].
  rewrite ContainerOpts_map. unfold bind at 1.
  destruct (createContainers_returns
              (map containerSpec (DockerConfs (conf (ex s)))) 0
              (map Records (DockerConfs (conf (ex s)))) [] None s)
    as (r1 & s1 & H1).
  - by rewrite !length_map.
  - intros l Hl. unfold ips_ok in Hok. rewrite Hl in Hok. rewrite length_map. lia.
  - rewrite H1. destruct r1 as [err|[ms nips]]; [by eexists _, _|].
    unfold bind at 1. cbn [get]. unfold bind at 1.
    destruct (copyVMs_returns (VBoxConfs (conf (ex s1))) ms s1) as (r2 & s2 & H2).
    rewrite H2. destruct r2 as [err|ms']; [by eexists _, _|].
    cbn. by eexists _, _.
Qed.

Lemma startLoop_ex ms : ∀ s r s', startLoop B ms s = Done r s' → ex s' = ex s.
Proof.
  induction ms as [|m ms IH]; intros s r s' H.
  - by injection H as <- <-.
  - cbn [startLoop] in H. unfold bind at 1, callStart, backend in H.
    destruct (InstStart B m (world s)) as [[err|] w].
    + by injection H as <- <-.
    + by apply IH in H.
Qed.

Lemma stopLoop_ex ms : ∀ s r s', stopLoop B ms s = Done r s' → ex s' = ex s.
Proof.
  intros s r s' H. rewrite <- closeLoop_stopLoop in H.
  destruct (closeLoop_Done ms s) as (r' & s'' & Hrun & Hex & _).
  rewrite Hrun in H. by injection H as <- <-.
Qed.

Lemma Start_blueprint s r s' : Start B s = Done r s' → same_blueprint (ex s) (ex s').
Proof.
  unfold Start. unfold bind at 1. cbn [get]. intros H%startLoop_ex. by rewrite H.
Qed.

Lemma Stop_blueprint s r s' : Stop B s = Done r s' → same_blueprint (ex s) (ex s').
Proof.
  unfold Stop. unfold bind at 1. cbn [get]. intros H%stopLoop_ex. by rewrite H.
Qed.

Lemma Close_blueprint s r s' : Close B s = Done r s' → same_blueprint (ex s) (ex s').
Proof.
  intros H. rewrite Close_StopThenClear in H. unfold StopThenClear in H.
  apply bind_Done in H as (r1 & s1 & Hs & H). apply Stop_blueprint in Hs.
  destruct r1 as [err|]; [by injection H as <- <-|].
  cbn in H. by injection H as <- <-.
Qed.

Lemma Reset_blueprint s r s' : Reset B s = Done r s' → same_blueprint (ex s) (ex s').
Proof.
  unfold Reset. intros H. apply bind_Done in H as (r1 & s1 & Hs & H).
  apply Stop_blueprint in Hs as (Hc & Hi).
  destruct r1 as [err|]; [by injection H as <- <-|].
  apply bind_Done in H as (r2 & s2 & Hst & H).
  apply Start_blueprint in Hst as (Hc2 & Hi2).
  assert (s' = s2) as -> by (by destruct r2; injection H).
  split; congruence.
Qed.

Lemma step_conf s s' : step s s' → conf (ex s') = conf (ex s).
Proof.
  destruct 1 as [s r s' H|s r s' H|s r s' H|s r s' H|s r s' H|s w].
  - by apply Create_Done in H as (? & ? & ? & ? & _ & Hc & _).
  - by apply Start_blueprint in H as (? & _).
  - by apply Stop_blueprint in H as (? & _).
  - by apply Close_blueprint in H as (? & _).
  - by apply Reset_blueprint in H as (? & _).
  - done.
Qed.

Lemma step_ips_ok s s' : step s s' → ips_ok (ex s) → ips_ok (ex s').
Proof.
  destruct 1 as [s r s' H|s r s' H|s r s' H|s r s' H|s r s' H|s w]; intros Hok.
  - by eapply Create_ips_ok.
  - apply Start_blueprint in H as (Hc & Hi). unfold ips_ok. by rewrite Hc, Hi.
  - apply Stop_blueprint in H as (Hc & Hi). unfold ips_ok. by rewrite Hc, Hi.
  - apply Close_blueprint in H as (Hc & Hi). unfold ips_ok. by rewrite Hc, Hi.
  - apply Reset_blueprint in H as (Hc & Hi). unfold ips_ok. by rewrite Hc, Hi.
  - done.
Qed.

Lemma lifecycle_ips_ok s : lifecycle s → ips_ok (ex s).
Proof.
  intros (s0 & H0 & Hsteps).
  refine (rtc_ind_r (λ s, ips_ok (ex s)) s0 _ _ s Hsteps).
  - unfold ips_ok. by rewrite H0.
  - intros y z _ Hstep IH. by eapply step_ips_ok.
Qed.

Lemma Create_settles s s' :
  ips (ex s) = None → Create B s = Done None s' → settled (ex s').
Proof.
  intros H0 H.
  apply Create_Done in H as (cs & ds & ? & ? & _ & Hc & _ & _ & _ & _ & Hl & _ & _ & _ & Hi).
  unfold settled. rewrite Hc, Hi, H0.
  destruct ds as [|d ds]; [|by rewrite recordedIps_cons].
  intros _. by apply nil_length_inv.
Qed.

Lemma step_ips s s' : step s s' → settled (ex s) → ips (ex s') = ips (ex s).
Proof.
  destruct 1 as [s r s' H|s r s' H|s r s' H|s r s' H|s r s' H|s w]; intros Hset.
  - apply Create_Done in H as (cs & ds & ? & ? & _ & Hc & _ & _ & _ & _ & Hr).
    destruct r as [err|]; [by destruct Hr as (_ & -> & _)|].
    destruct Hr as (Hl & _ & _ & _ & ->).
    destruct (ips (ex s)) as [l|] eqn:Ei; [done|].
    rewrite Hset in Hl by done. by destruct ds.
  - by apply Start_blueprint in H as (_ & ?).
  - by apply Stop_blueprint in H as (_ & ?).
  - by apply Close_blueprint in H as (_ & ?).
  - by apply Reset_blueprint in H as (_ & ?).
  - done.
Qed.

Lemma later_same_blueprint s1 s2 :
  rtc step s1 s2 → settled (ex s1) → same_blueprint (ex s1) (ex s2).
Proof.
  intros Hsteps Hset.
  refine (rtc_ind_r (λ s, same_blueprint (ex s1) (ex s)) s1 _ _ s2 Hsteps); [done|].
  intros y z _ Hstep (Hc & Hi). split.
  - by rewrite (step_conf _ _ Hstep).
  - rewrite (step_ips _ _ Hstep); [done|]. unfold settled. by rewrite Hc, Hi.
Qed.

(** C2: after a successful [Create] on a blueprint with [m] container
    specs and [k] VM specs, the machine list has [m + k] entries, the [m]
    containers in spec order first and then the [k] VMs in spec order, and
    the recorded suffix list has [m] entries. *)
Theorem Create_success_machines s s' :
  lifecycle s →
  Create B s = Done None s' →
  let e := ex s in
  let m := length (DockerConfs (conf e)) in
  let k := length (VBoxConfs (conf e)) in
  ∃ cs vms,
    length cs = m ∧ length vms = k ∧
    machines (ex s') = map InstContainer cs ++ map InstVM vms ∧
    length (machines (ex s')) = (m + k)%nat ∧
    createdContainers (trace s s')
    = zip (map (λ c, set_DNS [dnsIP e] (containerSpec c)) (DockerConfs (conf e))) cs ∧
    copiedVMs (trace s s') = zip (map vbox_Image (VBoxConfs (conf e))) vms ∧
    length (default [] (ips (ex s'))) = m.
Proof.
  intros Hok%lifecycle_ips_ok H e m k.
  apply Create_Done in H
    as (cs & ds & vms & tail & Hlen & Hc & _ & _ & _ & Hcalls & Hl & Hv & -> & Hm & Hi).
  fold e in Hc, Hcalls, Hl, Hv, Hi.
  exists cs, vms. rewrite Hm, (trace_app _ _ _ Hcalls), app_nil_r.
  destruct (projections_app
              (createCalls (dnsIP e) (ips e) 0
                 (map containerSpec (DockerConfs (conf e))) cs ds)
              (copyCalls (Interface B) (VBoxConfs (conf e)) vms))
    as (_ & _ & -> & ->).
  rewrite createdContainers_createCalls, copiedVMs_createCalls by done.
  destruct (no_connect_copyCalls (Interface B) (VBoxConfs (conf e)) vms)
    as (_ & _ & ->).
  rewrite copiedVMs_copyCalls, app_nil_r, app_nil_l, map_map.
  split; [by rewrite Hlen|]. split; [done|]. split; [done|].
  split; [rewrite length_app, !length_map; lia|].
  split; [done|]. split; [done|].
  rewrite Hi. unfold ips_ok in Hok. fold e in Hok.
  destruct (ips e) as [l|]; [exact Hok|].
  by rewrite recordedIps_default.
Qed.

Lemma later_Create_requests s0 s1 s2 r s3 :
  ips (ex s0) = None →
  Create B s0 = Done None s1 →
  rtc step s1 s2 →
  Create B s2 = Done r s3 →
  let recorded := assignedSuffixes (trace s0 s1) in
  default [] (ips (ex s1)) = recorded ∧
  ips (ex s3) = ips (ex s1) ∧
  (∃ j, connectRequests (trace s2 s3) = map Some (take j recorded)) ∧
  (r = None →
     connectRequests (trace s2 s3) = map Some recorded ∧
     (honours_requests → assignedSuffixes (trace s2 s3) = recorded)).
Proof.
  intros H0 H1 Hlater H2 recorded.
  destruct (later_same_blueprint s1 s2 Hlater (Create_settles _ _ H0 H1)) as (Hc2 & Hi2).
  pose proof (Create_justified _ _ _ H2) as J2.
  apply Create_Done in H1
    as (cs1 & ds1 & vms1 & tail1 & Hlen1 & Hc1 & _ & _ & _ & Hcalls1
        & Hl1 & _ & -> & _ & Hi1).
  rewrite H0 in Hi1.
  assert (Hrec : recorded = ds1).
  { unfold recorded. rewrite (trace_app _ _ _ Hcalls1).
    destruct (requests_of_run (ex s0) cs1 ds1 vms1 [] _ eq_refl) as (_ & ->).
    rewrite assignedSuffixes_createCalls by (rewrite ?length_map; lia).
    apply app_nil_r. }
  rewrite Hrec. clear recorded Hrec Hcalls1.
  split; [by rewrite Hi1, recordedIps_default|].
  apply Create_Done in H2
    as (cs2 & ds2 & vms2 & tail2 & Hlen2 & _ & _ & _ & _ & Hcalls2 & Hr2).
  apply trace_app in Hcalls2. rewrite Hcalls2 in *.
  destruct (requests_of_run (ex s2) cs2 ds2 vms2 tail2 _ eq_refl) as (-> & ->).
  rewrite assignedSuffixes_createCalls.
  2: done.
  2: { rewrite length_map. destruct r as [err|].
       - destruct Hr2 as (_ & _ & [(_ & spec & Hs & _)|(-> & _)]); [|done].
         apply lookup_lt_Some in Hs. rewrite length_map in Hs. lia.
       - by destruct Hr2 as (-> & _). }
  unfold createEnd in Hr2. rewrite Hi2, Hc2, Hc1, Hi1 in *.
  destruct ds1 as [|d1 ds1].
  - (* no container spec: nothing recorded, nothing to connect *)
    cbn [length] in Hl1.
    destruct (DockerConfs (conf (ex s0))) as [|? ?] eqn:Econfs; [|discriminate].
    cbn [map createCalls]. cbn [recordedIps fold_left] in *.
    destruct r as [err|].
    + destruct Hr2 as (_ & -> & [(_ & spec & Hs & _)|(_ & spec & _ & ->)]);
        [discriminate Hs|].
      split; [done|]. split; [by exists 0%nat|]. discriminate.
    + destruct Hr2 as (Hl2 & _ & -> & _ & ->).
      destruct ds2; [|discriminate].
      split; [done|]. split; [by exists 0%nat|]. by intros _.
  - rewrite recordedIps_cons in *. remember (d1 :: ds1) as l eqn:El. clear El.
    destruct r as [err|].
    + destruct Hr2 as (_ & -> & Hend). split; [done|]. split; [|discriminate].
      destruct Hend as [(_ & spec & Hs & Hf)|(Hl2 & spec & _ & ->)].
      * apply lookup_lt_Some in Hs. rewrite length_map in Hs.
        rewrite connectRequests_createCalls by (rewrite ?length_map; lia).
        rewrite drop_0.
        destruct Hf as [->|(c & ->)].
        -- exists (length ds2). apply app_nil_r.
        -- destruct (lookup_lt_is_Some_2 l (length ds2)) as [x Hx]; [lia|].
           exists (S (length ds2)). rewrite (take_S_r _ _ _ Hx), map_app.
           cbn [requested]. by rewrite Hx.
      * rewrite connectRequests_createCalls by (rewrite ?length_map; lia).
        rewrite drop_0. exists (length ds2). apply app_nil_r.
    + destruct Hr2 as (Hl2 & _ & -> & _ & ->). split; [done|].
      assert (Hreq : connectRequests
                       (createCalls (dnsIP (ex s2)) (Some l) 0
                          (map containerSpec (DockerConfs (conf (ex s0)))) cs2 ds2)
                     ++ connectRequests [] = map Some l).
      { rewrite connectRequests_createCalls by (rewrite ?length_map; lia).
        rewrite drop_0, take_ge by lia. apply app_nil_r. }
      split; [exists (length l); by rewrite Hreq, firstn_all|].
      intros _. split; [exact Hreq|]. intros Hh.
      destruct (requests_of_run (ex s2) cs2 ds2 vms2 [] _ eq_refl) as (Hq & Ha).
      rewrite Hi2, Hc2 in Hq, Ha.
      rewrite assignedSuffixes_createCalls in Ha by (rewrite ?length_map; lia).
      rewrite <- Ha.
      apply (assigned_as_requested _ Hh J2).
      * by rewrite Hq.
      * rewrite Ha, app_nil_r. lia.
Qed.

Lemma connections_app tr1 tr2 :
  connections (tr1 ++ tr2) = connections tr1 ++ connections tr2.
Proof. apply omap_app. Qed.

Lemma connections_copyCalls bridge specs :
  ∀ vms, connections (copyCalls bridge specs vms) = [].
Proof.
  induction specs as [|spec specs IH]; intros vms; [by destruct vms|].
  destruct vms as [|vm vms]; [done|]. apply IH.
Qed.

(** The [k]-th [Connect] call of complete iterations connects the
    container created from the [k]-th launch spec. *)
Lemma createCalls_at dns eips specs :
  ∀ i cs ds k c q res,
  connections (createCalls dns eips i specs cs ds) !! k = Some (c, q, res) →
  ∃ spec d,
    specs !! k = Some spec ∧
    createdContainers (createCalls dns eips i specs cs ds) !! k
    = Some (set_DNS [dns] spec, c) ∧
    q = requested eips (i + k) ∧ res = inr d ∧
    assignedSuffixes (createCalls dns eips i specs cs ds) !! k = Some d.
Proof.
  induction specs as [|spec specs IH]; intros i cs ds k c q res H;
    [by destruct cs, ds|].
  destruct cs as [|c0 cs], ds as [|d0 ds]; try done.
  cbn [createCalls] in *.
  change (connections (?a :: ?b :: ?tr))
    with ((c0, requested eips i, @inr error Z d0) :: connections tr) in H.
  change (createdContainers (?a :: ?b :: ?tr))
    with ((set_DNS [dns] spec, c0) :: createdContainers tr).
  change (assignedSuffixes (?a :: ?b :: ?tr)) with (d0 :: assignedSuffixes tr).
  destruct k as [|k].
  - injection H as <- <- <-. exists spec, d0. by rewrite Nat.add_0_r.
  - apply IH in H as (spec' & d & Hs & Hc & -> & -> & Ha).
    exists spec', d. replace (i + S k)%nat with (S i + k)%nat by lia. done.
Qed.

Lemma createCalls_lengths dns eips specs :
  ∀ i cs ds,
  length cs = length ds → (length ds ≤ length specs)%nat →
  length (connections (createCalls dns eips i specs cs ds)) = length ds ∧
  length (createdContainers (createCalls dns eips i specs cs ds)) = length ds.
Proof.
  induction specs as [|spec specs IH]; intros i cs ds Hlen Hle.
  - destruct ds; [|cbn in Hle; lia]. by destruct cs.
  - destruct cs as [|c cs], ds as [|d ds]; try discriminate; [done|].
    cbn [length] in *. cbn [createCalls].
    change (connections (?a :: ?b :: ?tr))
      with ((c, requested eips i, @inr error Z d) :: connections tr).
    change (createdContainers (?a :: ?b :: ?tr))
      with ((set_DNS [dns] spec, c) :: createdContainers tr).
    cbn [length]. destruct (IH (S i) cs ds) as [-> ->]; [lia|lia|done].
Qed.

(** Every [Connect] call of a run of [Create], by its position: it
    connects the container created from the container spec at that
    position and asks for the suffix recorded at that position, if any. A
    run that succeeds makes one such call per container spec, and each is
    answered with a suffix. *)
Lemma Create_connections s r s' :
  Create B s = Done r s' →
  (∀ i c q res,
     connections (trace s s') !! i = Some (c, q, res) →
     ∃ conf_i,
       DockerConfs (conf (ex s)) !! i = Some conf_i ∧
       createdContainers (trace s s') !! i
       = Some (set_DNS [dnsIP (ex s)] (containerSpec conf_i), c) ∧
       q = requested (ips (ex s)) i ∧
       ∀ d, res = inr d → assignedSuffixes (trace s s') !! i = Some d) ∧
  (r = None →
     length (connections (trace s s')) = length (DockerConfs (conf (ex s))) ∧
     length (assignedSuffixes (trace s s')) = length (DockerConfs (conf (ex s))) ∧
     ∀ i, (i < length (DockerConfs (conf (ex s))))%nat →
          ∃ c d, connections (trace s s') !! i
                 = Some (c, requested (ips (ex s)) i, inr d)).
Proof.
  intros H. apply Create_Done in H
    as (cs & ds & vms & tail & Hlen & _ & _ & _ & _ & Hcalls & Hr).
  cbn zeta in *. rewrite (trace_app _ _ _ Hcalls). clear Hcalls.
  set (specs := map containerSpec (DockerConfs (conf (ex s)))) in *.
  set (cc := createCalls (dnsIP (ex s)) (ips (ex s)) 0 specs cs ds).
  set (vc := copyCalls (Interface B) (VBoxConfs (conf (ex s))) vms).
  destruct (projections_app cc (vc ++ tail)) as (_ & -> & -> & _).
  destruct (projections_app vc tail) as (_ & -> & -> & _).
  destruct (no_connect_copyCalls (Interface B) (VBoxConfs (conf (ex s))) vms)
    as (_ & Ha0 & Hc0). fold vc in Ha0, Hc0. rewrite Ha0, Hc0.
  assert (Hv0 : connections vc = []) by apply connections_copyCalls.
  rewrite !connections_app, Hv0. cbn [app].
  assert (Hle : (length ds ≤ length specs)%nat).
  { unfold specs. rewrite length_map. destruct r as [err|].
    - destruct Hr as (_ & _ & [(_ & spec & Hs & _)|(-> & _)]); [|done].
      apply lookup_lt_Some in Hs. rewrite length_map in Hs. lia.
    - by destruct Hr as (-> & _). }
  destruct (createCalls_lengths (dnsIP (ex s)) (ips (ex s)) specs 0 cs ds Hlen Hle)
    as [Hlc Hlk]. fold cc in Hlc, Hlk.
  assert (Hin : ∀ i c q res,
            connections cc !! i = Some (c, q, res) →
            ∃ conf_i,
              DockerConfs (conf (ex s)) !! i = Some conf_i ∧
              createdContainers cc !! i
              = Some (set_DNS [dnsIP (ex s)] (containerSpec conf_i), c) ∧
              q = requested (ips (ex s)) i ∧
              ∃ d, res = inr d ∧ assignedSuffixes cc !! i = Some d).
  { intros i c q res Hi.
    apply createCalls_at in Hi as (spec & d & Hs & Hc & -> & -> & Ha).
    unfold specs in Hs. rewrite list_lookup_fmap in Hs.
    destruct (DockerConfs (conf (ex s)) !! i) as [conf_i|] eqn:Ei; [|done].
    injection Hs as <-. exists conf_i. split; [done|]. split; [done|].
    split; [done|]. by exists d. }
  split.
  - intros i c q res Hi. apply lookup_app_Some in Hi as [Hi|[Hge Hi]].
    + destruct (Hin _ _ _ _ Hi) as (conf_i & Hs & Hc & -> & d & -> & Ha).
      exists conf_i. split; [done|].
      split; [by apply lookup_app_l_Some|]. split; [done|].
      intros d' [= <-]. by apply lookup_app_l_Some.
    + rewrite Hlc in Hge, Hi. destruct r as [err|].
      * destruct Hr as (_ & _ & [(_ & spec & Hs & [->|(c' & ->)])|(_ & spec & _ & ->)]);
          [by destruct (i - length ds)%nat| |by destruct (i - length ds)%nat].
        change (connections [?a; ?b])
          with [(c', requested (ips (ex s)) (length ds), @inl error Z err)] in Hi.
        destruct (i - length ds)%nat as [|n] eqn:En; [|done].
        assert (i = length ds) as -> by lia. injection Hi as <- <- <-.
        unfold specs in Hs. rewrite list_lookup_fmap in Hs.
        destruct (DockerConfs (conf (ex s)) !! length ds) as [conf_i|] eqn:Ei; [|done].
        injection Hs as <-. exists conf_i. split; [done|]. split.
        { rewrite lookup_app_r by lia. rewrite Hlk, Nat.sub_diag. done. }
        split; [done|]. intros d. discriminate.
      * destruct Hr as (_ & _ & -> & _). by destruct (i - length ds)%nat.
  - intros ->. destruct Hr as (Hl & _ & -> & _).
    change (connections []) with (@nil (Container * option Z * (error + Z))).
    change (assignedSuffixes []) with (@nil Z).
    rewrite !app_nil_r, Hlc. unfold cc at 1.
    rewrite assignedSuffixes_createCalls by done.
    split; [done|]. split; [done|]. intros i Hi.
    destruct (lookup_lt_is_Some_2 (connections cc) i) as [[[c q] res] Hx]; [lia|].
    destruct (Hin _ _ _ _ Hx) as (_ & _ & _ & -> & d & -> & _). by exists c, d.
Qed.

(** C3: the first successful [Create] connects one container per
    container spec, in spec order, lets the network choose, and records
    the suffixes it assigned, one per position. Every later [Create] of
    this exercise works on the same blueprint and leaves the recorded list
    as it is; each [Connect] call it makes connects the container it
    created from the spec at that position and asks for the suffix
    recorded at that very position; a later [Create] that succeeds makes
    such a call for every container spec, and on a network that hands back
    what it is asked for the containers get the addresses of the first
    cycle again. *)
Theorem Create_reuses_recorded_ips s0 s1 s2 r s3 :
  ips (ex s0) = None →
  Create B s0 = Done None s1 →
  rtc step s1 s2 →
  Create B s2 = Done r s3 →
  let recorded := assignedSuffixes (trace s0 s1) in
  let confs := DockerConfs (conf (ex s0)) in
  length recorded = length confs ∧
  (∀ i conf_i,
     confs !! i = Some conf_i →
     ∃ c d,
       createdContainers (trace s0 s1) !! i
       = Some (set_DNS [dnsIP (ex s0)] (containerSpec conf_i), c) ∧
       connections (trace s0 s1) !! i = Some (c, None, inr d) ∧
       recorded !! i = Some d) ∧
  default [] (ips (ex s1)) = recorded ∧
  conf (ex s2) = conf (ex s0) ∧
  ips (ex s3) = ips (ex s1) ∧
  (∃ j, connectRequests (trace s2 s3) = map Some (take j recorded)) ∧
  (∀ i c q res,
     connections (trace s2 s3) !! i = Some (c, q, res) →
     ∃ conf_i d,
       confs !! i = Some conf_i ∧
       createdContainers (trace s2 s3) !! i
       = Some (set_DNS [dnsIP (ex s2)] (containerSpec conf_i), c) ∧
       recorded !! i = Some d ∧ q = Some d ∧
       ∀ d', res = inr d' → assignedSuffixes (trace s2 s3) !! i = Some d') ∧
  (r = None →
     length (connections (trace s2 s3)) = length confs ∧
     length (assignedSuffixes (trace s2 s3)) = length confs ∧
     (∀ i d, recorded !! i = Some d →
             ∃ c d', connections (trace s2 s3) !! i = Some (c, Some d, inr d')) ∧
     connectRequests (trace s2 s3) = map Some recorded ∧
     (honours_requests → assignedSuffixes (trace s2 s3) = recorded)).
Proof.
  intros H0 H1 Hlater H2 recorded confs.
  destruct (later_Create_requests _ _ _ _ _ H0 H1 Hlater H2)
    as (Hrec & Hips & Hprefix & Hall).
  fold recorded in Hrec, Hprefix, Hall.
  destruct (later_same_blueprint s1 s2 Hlater (Create_settles _ _ H0 H1)) as (Hc2 & Hi2).
  destruct (Create_connections _ _ _ H1) as (Hat1 & Hfull1).
  destruct (Hfull1 eq_refl) as (Hlc1 & Hla1 & Hevery1).
  destruct (Create_connections _ _ _ H2) as (Hat2 & Hfull2).
  assert (Hc1 : conf (ex s1) = conf (ex s0)).
  { by apply Create_Done in H1 as (? & ? & ? & ? & _ & Hc & _). }
  assert (Hreq : ∀ i, (i < length confs)%nat →
                      requested (ips (ex s2)) i = recorded !! i).
  { intros i Hi. rewrite Hi2. unfold requested.
    destruct (ips (ex s1)) as [l|] eqn:El; simpl in Hrec; [by rewrite Hrec|].
    fold recorded confs in Hla1. rewrite <- Hrec in Hla1. cbn in Hla1. lia. }
  rewrite H0 in Hat1, Hevery1. cbn [requested] in Hat1, Hevery1.
  fold recorded confs in Hla1, Hlc1, Hat1, Hevery1.
  rewrite Hc2, Hc1 in Hat2, Hfull2. fold confs in Hat2, Hfull2.
  split; [exact Hla1|]. split.
  { intros i conf_i Hi. apply lookup_lt_Some in Hi as Hlt.
    destruct (Hevery1 i Hlt) as (c & d & Hx).
    destruct (Hat1 _ _ _ _ Hx) as (conf' & Hs & Hc & _ & Ha).
    rewrite Hi in Hs. injection Hs as <-.
    exists c, d. split; [done|]. split; [done|]. by apply Ha. }
  split; [exact Hrec|]. split; [by rewrite Hc2, Hc1|]. split; [exact Hips|].
  split; [exact Hprefix|]. split.
  { intros i c q res Hx.
    destruct (Hat2 _ _ _ _ Hx) as (conf_i & Hs & Hc & -> & Ha).
    apply lookup_lt_Some in Hs as Hlt.
    destruct (lookup_lt_is_Some_2 recorded i) as [d Hd]; [lia|].
    exists conf_i, d. split; [done|]. split; [done|]. split; [done|].
    split; [by rewrite Hreq, Hd|done]. }
  intros ->. destruct (Hfull2 eq_refl) as (Hlc2 & Hla2 & Hevery2).
  destruct (Hall eq_refl) as (Hq & Hh).
  split; [exact Hlc2|]. split; [exact Hla2|]. split; [|by split].
  intros i d Hd. apply lookup_lt_Some in Hd as Hlt.
  destruct (Hevery2 i) as (c & d' & Hx); [lia|].
  exists c, d'. rewrite Hx. rewrite Hreq by lia. by rewrite Hd.
Qed.

(** C8: [Close] always returns. When it returns success, every machine
    was closed, in list order and without error, and the machine list is
    empty. When it returns an error, that error is the first one a close
    gave (all machines before it closed without error, none after it was
    touched), and the machine list keeps all its entries. *)
Theorem Close_all_or_nothing s :
  ∃ r s',
    Close B s = Done r s' ∧
    match r with
    | None =>
      trace s s' = closedAll (machines (ex s)) ∧
      machines (ex s') = []
    | Some err =>
      (∃ j m, machines (ex s) !! j = Some m ∧
              trace s s' = closedAll (take j (machines (ex s)))
                           ++ [CallClose m (Some err)]) ∧
      machines (ex s') = machines (ex s) ∧
      length (machines (ex s')) = length (machines (ex s))
    end.
Proof.
  destruct (closeLoop_Done (machines (ex s)) s) as (r & s1 & Hrun & Hex & Hr).
  unfold Close. unfold bind at 1. cbn [get]. unfold bind at 1. rewrite Hrun.
  destruct r as [err|].
  - exists (Some err), s1. split; [done|]. rewrite Hex.
    destruct Hr as (j & m & Hj & Hcalls). split; [|done].
    exists j, m. split; [done|]. by apply trace_app.
  - eexists None, _. cbn. split; [reflexivity|]. cbn [ex calls set_machines machines].
    split; [|done]. by apply trace_app.
Qed.

(** C9: when [Create] returns an error, the machine list and the
    recorded suffix list are what they were before the call, as are the
    blueprint, the flags and the DNS address; the DNS records have grown by
    the resolved records of the containers connected before the failure. *)
Theorem Create_error_frame s err s' :
  Create B s = Done (Some err) s' →
  let e := ex s in
  machines (ex s') = machines e ∧
  ips (ex s') = ips e ∧
  conf (ex s') = conf e ∧ flags (ex s') = flags e ∧ dnsIP (ex s') = dnsIP e ∧
  ∃ ds,
    (length ds ≤ length (DockerConfs (conf e)))%nat ∧
    assignedSuffixes (trace s s') = ds ∧
    dnsRecords (ex s')
    = dnsRecords e ++ resolvedRecords 0 ds (map Records (DockerConfs (conf e))).
Proof.
  intros H e.
  apply Create_Done in H
    as (cs & ds & vms & tail & Hlen & Hc & Hf & Hd & Hdns & Hcalls & Hm & Hi & Hend).
  fold e in Hc, Hf, Hd, Hdns, Hcalls, Hm, Hi, Hend.
  repeat (split; [done|]). exists ds.
  assert (Hle : (length ds ≤ length (DockerConfs (conf e)))%nat).
  { destruct Hend as [(_ & spec & Hs & _)|(-> & _)]; [|done].
    apply lookup_lt_Some in Hs. rewrite length_map in Hs. lia. }
  split; [done|]. split; [|done].
  rewrite (trace_app _ _ _ Hcalls).
  destruct (projections_app
              (createCalls (dnsIP e) (ips e) 0
                 (map containerSpec (DockerConfs (conf e))) cs ds)
              (copyCalls (Interface B) (VBoxConfs (conf e)) vms ++ tail))
    as (_ & -> & _).
  destruct (projections_app (copyCalls (Interface B) (VBoxConfs (conf e)) vms) tail)
    as (_ & -> & _).
  rewrite assignedSuffixes_createCalls by (rewrite ?length_map; done).
  destruct (no_connect_copyCalls (Interface B) (VBoxConfs (conf e)) vms)
    as (_ & -> & _).
  destruct Hend as [(_ & spec & _ & [->|(c & ->)])|(_ & spec & _ & ->)];
    cbn; by rewrite app_nil_r.
Qed.

(** C10: [Close] runs the loop [Stop] runs, and is [Stop] followed, on
    success, by clearing the machine list. *)
Theorem Close_is_Stop_then_clear :
  (∀ ms s, closeLoop B ms s = stopLoop B ms s) ∧
  (∀ s, Close B s = StopThenClear s).
Proof. split; [apply closeLoop_stopLoop|apply Close_StopThenClear]. Qed.

End Proofs.

(** C7 (amended): in the launch spec that [ContainerOpts] produces for a
    container spec, each key of the environment map is mapped to the value
    of the last override carrying that key if there is one, otherwise to
    the default of the last flag definition carrying it; a key carried by
    neither is absent. Overrides win over flag defaults; among several
    entries of one kind with one key, the later one wins. *)
Theorem ContainerOpts_env_last_wins (ec : Config) (i : nat)
    (conf : DockerConfig) (k : string) :
  DockerConfs ec !! i = Some conf →
  ∃ spec, (ContainerOpts ec).1 !! i = Some spec ∧
    EnvVars spec !! k =
    match lastWith env_EnvVar k (Envs conf) with
    | Some env => Some (Value env)
    | None =>
      match lastWith flag_EnvVar k (docker_Flags conf) with
      | Some flag => Some (Default flag)
      | None => None
      end
    end.
Proof.
  intros Hi. exists (containerSpec conf). split.
  - rewrite ContainerOpts_map. cbn [fst]. by rewrite list_lookup_fmap, Hi.
  - cbn [containerSpec EnvVars]. unfold overrideEnvVars, flagEnvVars.
    rewrite (lookup_fold_insert env_EnvVar Value).
    destruct (lastWith env_EnvVar k (Envs conf)); [done|].
    rewrite (lookup_fold_insert flag_EnvVar Default).
    by destruct (lastWith flag_EnvVar k (docker_Flags conf)).
Qed.

(** C7 as it was stated fails on two flag definitions with one key: the
    key of the first is not mapped to the first one's default, although no
    override carries that key. *)
Lemma ContainerOpts_env_duplicate_flag_key :
  let flag1 := mkFlagConfig "first" "FLAG" "aaa" 5 in
  let ec := mkConfig "demo" [] [demoTwoFlags] [] in
  ∃ spec, (ContainerOpts ec).1 = [spec] ∧
          flag1 ∈ docker_Flags demoTwoFlags ∧
          Envs demoTwoFlags = [] ∧
          EnvVars spec !! flag_EnvVar flag1 = Some "bbb" ∧
          EnvVars spec !! flag_EnvVar flag1 ≠ Some (Default flag1).
Proof.
  eexists. split; [reflexivity|]. split; [by left|]. split; [reflexivity|].
  split; [by vm_compute|]. vm_compute. discriminate.
Qed.

(** C7 (amended) on the container spec with two flags on one key. *)
Lemma ContainerOpts_env_last_wins_witness :
  let ec := mkConfig "demo" [] [demoTwoFlags] [] in
  DockerConfs ec !! 0%nat = Some demoTwoFlags ∧
  ∃ spec, (ContainerOpts ec).1 !! 0%nat = Some spec ∧
          EnvVars spec !! "FLAG" = Some "bbb".
Proof.
  intros ec. split; [reflexivity|].
  destruct (ContainerOpts_env_last_wins ec 0 demoTwoFlags "FLAG" eq_refl)
    as (spec & Hspec & Henv).
  exists spec. split; [exact Hspec|exact Henv].
Defined.

(** C2 on a blueprint with two container specs and one VM spec. *)
Lemma Create_success_machines_witness :
  lifecycle demoBackends (demoFresh ["web"; "db"]) ∧
  Create demoBackends (demoFresh ["web"; "db"]) = Done None demoCreated ∧
  length (machines (ex demoCreated)) = 3%nat ∧
  length (default [] (ips (ex demoCreated))) = 2%nat.
Proof.
  assert (H1 : lifecycle demoBackends (demoFresh ["web"; "db"])).
  { exists (demoFresh ["web"; "db"]). split; [reflexivity|apply rtc_refl]. }
  assert (H2 : Create demoBackends (demoFresh ["web"; "db"]) = Done None demoCreated).
  { vm_compute. reflexivity. }
  split; [exact H1|]. split; [exact H2|].
  destruct (Create_success_machines demoBackends _ _ H1 H2)
    as (cs & vms & _ & _ & _ & Hlen & _ & _ & Hips).
  split; [exact Hlen|exact Hips].
Defined.

(** C3 on a create, close, create cycle. *)
Lemma Create_reuses_recorded_ips_witness :
  ips (ex (demoFresh ["web"; "db"])) = None ∧
  Create demoBackends (demoFresh ["web"; "db"]) = Done None demoCreated ∧
  rtc (step demoBackends) demoCreated demoClosed ∧
  Create demoBackends demoClosed = Done None demoRecreated ∧
  ips (ex demoRecreated) = ips (ex demoCreated) ∧
  connectRequests (trace demoClosed demoRecreated)
  = map Some (assignedSuffixes (trace (demoFresh ["web"; "db"]) demoCreated)) ∧
  length (assignedSuffixes (trace (demoFresh ["web"; "db"]) demoCreated)) = 2%nat ∧
  length (connections (trace demoClosed demoRecreated)) = 2%nat.
Proof.
  assert (H0 : ips (ex (demoFresh ["web"; "db"])) = None) by reflexivity.
  assert (H1 : Create demoBackends (demoFresh ["web"; "db"]) = Done None demoCreated).
  { vm_compute. reflexivity. }
  assert (H2 : rtc (step demoBackends) demoCreated demoClosed).
  { apply rtc_once. apply (step_Close demoBackends demoCreated None).
    vm_compute. reflexivity. }
  assert (H3 : Create demoBackends demoClosed = Done None demoRecreated).
  { vm_compute. reflexivity. }
  repeat (split; [assumption|]).
  destruct (Create_reuses_recorded_ips demoBackends _ _ _ _ _ H0 H1 H2 H3)
    as (Hlen & _ & _ & _ & Hips & _ & _ & Hall).
  destruct (Hall eq_refl) as (Hconn & _ & _ & Hreq & _).
  split; [exact Hips|]. split; [exact Hreq|]. split; [exact Hlen|exact Hconn].
Defined.

(** C9 on a blueprint whose second container image the runtime refuses. *)
Lemma Create_error_frame_witness :
  Create demoBackends (demoFresh ["web"; "broken"])
  = Done (Some "no such image") demoFailed ∧
  machines (ex demoFailed) = machines (ex (demoFresh ["web"; "broken"])) ∧
  ips (ex demoFailed) = ips (ex (demoFresh ["web"; "broken"])).
Proof.
  assert (H1 : Create demoBackends (demoFresh ["web"; "broken"])
               = Done (Some "no such image") demoFailed).
  { vm_compute. reflexivity. }
  split; [exact H1|].
  destruct (Create_error_frame demoBackends _ _ _ H1) as (Hm & Hi & _).
  split; [exact Hm|exact Hi].
Defined.

End ExerciseProofs.

(** ** Package lab *)
Module LabProofs.
Import Go Lab GoFacts.

Section Proofs.
Context {Config Library W : Type} (B : @Backends Config Library W).
Local Open Scope go_scope.
Local Abbreviation st := (@Lab.st Config Library W).
Local Abbreviation hub := (@Lab.hub Config Library).
Local Abbreviation operating := (Lab.operating B).

Lemma history_app (s s' : st) evs :
  events (snd s') = events (snd s) ++ evs → history s s' = evs.
Proof. unfold history. intros ->. apply drop_app_length. Qed.

Lemma claim_Done id (s : st) x s' :
  claim id s = Done x s' →
  ∃ c, try_recv mkRsrc (r (get_sema id (fst s))) = Ready (x, c) ∧
       s' = (set_sema id (mkSemaphore c) (fst s), log (EvClaim id) (snd s)).
Proof.
  destruct s as [h e]. unfold claim. cbn [fst snd].
  destruct (try_recv mkRsrc (r (get_sema id h))) as [[x' c]| |]; [|done|done].
  intros [= <- <-]. by exists c.
Qed.

Lemma release_Done id (s : st) s' :
  release id s = Done tt s' →
  ∃ c, try_send mkRsrc (r (get_sema id (fst s))) = Ready c ∧
       s' = (set_sema id (mkSemaphore c) (fst s), log (EvRelease id) (snd s)).
Proof.
  destruct s as [h e]. unfold release. cbn [fst snd].
  destruct (try_send mkRsrc (r (get_sema id h))) as [c| |]; [|done|done].
  intros [= <-]. by exists c.
Qed.

Lemma enqueue_Done lab (s : st) s' :
  enqueue lab s = Done tt s' →
  snd s' = snd s ∧
  createSema (fst s') = createSema (fst s) ∧
  maximumSema (fst s') = maximumSema (fst s) ∧
  labs (fst s') = labs (fst s).
Proof.
  destruct s as [h e]. unfold enqueue.
  destruct (try_send lab (buffer h)); [|by intros [= <-]|done].
  by intros [= <-].
Qed.

(** What [buildLab] leaves behind: the semaphores and the dispensed list
    as they were, and either one failed factory call or none. *)
Lemma buildLab_Done (s : st) ret s1 :
  buildLab B s = Done ret s1 →
  createSema (fst s1) = createSema (fst s) ∧
  maximumSema (fst s1) = maximumSema (fst s) ∧
  labs (fst s1) = labs (fst s) ∧
  ∃ evs, events (snd s1) = events (snd s) ++ evs ∧
    ((∃ err, evs = [EvNewLab (inl err)] ∧ ret = Some err ∧ fst s1 = fst s)
     ∨ (∀ err, EvNewLab (inl err) ∉ evs)).
Proof.
  destruct s as [h e]. unfold buildLab. unfold bind at 1. cbn [get].
  unfold bind at 1, backend at 1.
  destruct (NewLab B (vboxLib h) (Lab.conf h) (world e)) as [[err|lab] w].
  - intros [= <- <-]. cbn. repeat split; try done.
    exists [EvNewLab (inl err)]. split; [done|]. left. by exists err.
  - unfold bind at 1, backend. cbn [world log set_world].
    destruct (LabStart B lab w) as [[err|] w2].
    + cbn. intros [= <- <-]. cbn. repeat split; try done.
      eexists. split; [by rewrite <- !app_assoc|]. right.
      intros err' Hin. apply list_elem_of_In in Hin. cbn in Hin.
      destruct Hin as [?|[?|[?|[]]]]; discriminate.
    + intros H. apply bind_Done in H as ([] & s2 & Henq & [= <- <-]).
      apply enqueue_Done in Henq as (He & Hc & Hm & Hl). cbn [fst snd] in *.
      rewrite He, Hc, Hm, Hl. cbn. repeat split; try done.
      eexists. split; [by rewrite <- !app_assoc|]. right.
      intros err' Hin. apply list_elem_of_In in Hin. cbn in Hin.
      destruct Hin as [?|[?|[]]]; discriminate.
Qed.

Lemma wrap32_id z : - 2 ^ 31 ≤ z ≤ max_int32 → wrap32 z = z.
Proof. unfold wrap32, max_int32. intros H. rewrite Z.mod_small; lia. Qed.

Lemma len_nonneg {A} (c : chan A) : 0 ≤ len c.
Proof. unfold len. lia. Qed.

Lemma enqueue_ok lab (s : st) s' :
  buffer_ok (fst s) → enqueue lab s = Done tt s' → buffer_ok (fst s').
Proof.
  destruct s as [h e]. unfold enqueue, buffer_ok, try_send. cbn [fst].
  intros (Hcl & Hn & Hle & Hcap). rewrite Hcl.
  destruct (len (buffer h) <? capacity (buffer h)) eqn:Elt.
  - intros [= <-]. cbn. apply Z.ltb_lt in Elt.
    pose proof (len_nonneg (buffer h)).
    assert (Hlen : len (mkChan (items (buffer h) ++ [lab]) (capacity (buffer h)) false)
                   = len (buffer h) + 1).
    { unfold len. cbn. rewrite length_app. cbn. lia. }
    rewrite Hlen, Hn. rewrite wrap32_id by (unfold max_int32 in *; lia).
    repeat split; lia.
  - by intros [= <-].
Qed.

Lemma set_sema_ok id sem (h : hub) : buffer_ok h → buffer_ok (set_sema id sem h).
Proof. by destruct id. Qed.

Lemma buildLab_ok (s : st) ret s' :
  buffer_ok (fst s) → buildLab B s = Done ret s' → buffer_ok (fst s').
Proof.
  destruct s as [h e]. intros Hok. unfold buildLab. unfold bind at 1. cbn [get].
  unfold bind at 1, backend at 1.
  destruct (NewLab B (vboxLib h) (Lab.conf h) (world e)) as [[err|lab] w].
  - by intros [= <- <-].
  - unfold bind at 1, backend. cbn [world log set_world].
    destruct (LabStart B lab w) as [[err|] w2].
    + cbn. by intros [= <- <-].
    + intros H. apply bind_Done in H as ([] & s2 & Henq & [= <- <-]).
      by apply enqueue_ok in Henq.
Qed.

Lemma addLab_ok (s : st) ret s' :
  buffer_ok (fst s) → addLab B s = Done ret s' → buffer_ok (fst s').
Proof.
  intros Hok H. unfold addLab in H.
  apply bind_Done in H as (n & s0 & Hav & H).
  destruct s as [h e]. cbn in Hav. injection Hav as <- <-.
  destruct (len (r (maximumSema h)) =? 0); [by injection H as <- <-|].
  apply bind_Done in H as (x1 & s1 & Hc1 & H).
  apply claim_Done in Hc1 as (c1 & _ & ->).
  apply bind_Done in H as (x2 & s2 & Hc2 & H).
  apply claim_Done in Hc2 as (c2 & _ & ->).
  apply defer_Done in H as (s3 & Hbody & Hrel).
  apply buildLab_ok in Hbody; [|by do 2 apply set_sema_ok].
  apply release_Done in Hrel as (c3 & _ & ->). by apply set_sema_ok.
Qed.

Lemma initLoop_ok n : ∀ (s : st) s',
  buffer_ok (fst s) → initLoop B n s = Done tt s' → buffer_ok (fst s').
Proof.
  induction n as [|n IH]; intros s s' Hok H.
  - by injection H as <-.
  - cbn [initLoop] in H. apply bind_Done in H as (ret & s1 & Ha & H).
    apply addLab_ok in Ha; [|done]. by apply IH in H.
Qed.

Lemma with_hub_Done {A} (h : hub) (m : M st A) e a h' e' :
  with_hub h m e = Done (a, h') e' → m (h, e) = Done a (h', e').
Proof.
  unfold with_hub.
  destruct (m (h, e)) as [a0 [h0 e0]|? [? ?]|[? ?]]; cbn; [|discriminate|discriminate].
  by intros [= <- <- <-].
Qed.

Lemma NewHub_ok conf lib available cap e0 h e :
  available ≤ max_int32 →
  NewHub B conf lib available cap e0 = Done (Some h, None) e → buffer_ok h.
Proof.
  intros Hmax H. unfold NewHub in H.
  destruct (available >? cap); [discriminate|].
  apply bind_Done in H as (cs & e1 & _ & H).
  apply bind_Done in H as (ms & e2 & _ & H).
  apply bind_Done in H as (buf & e3 & Hbuf & H).
  apply bind_Done in H as ([ret h'] & e4 & Hinit & [= <- <-]).
  unfold make_buffer, make_chan in Hbuf.
  destruct (available <? 0) eqn:Eneg; [discriminate|]. injection Hbuf as <- <-.
  apply with_hub_Done in Hinit as Ei.
  unfold init in Ei. rewrite Eneg in Ei.
  apply bind_Done in Ei as ([] & s1 & Hloop & [= <- ->]).
  apply initLoop_ok in Hloop; [done|].
  unfold buffer_ok, len. cbn. apply Z.ltb_ge in Eneg. repeat split; lia.
Qed.

Lemma Get_cases (s : st) :
  match items (buffer (fst s)) with
  | lab :: rest =>
    ∃ e',
      Get s = Done (lab, None)
                (set_labs (labs (fst s) ++ [lab])
                   (set_numbLabs (wrap32 (numbLabs (fst s) + -1))
                      (set_buffer (mkChan rest (capacity (buffer (fst s)))
                                     (closed (buffer (fst s)))) (fst s))), e')
  | [] =>
    if closed (buffer (fst s))
    then ∃ s', Get s = Done (None, None) s'
    else Get s = Done (None, Some MaximumLabsErr) s
  end.
Proof.
  destruct s as [[lib conf cs ms ls [[|lab rest] cap cl] n] e];
    cbn [fst buffer items closed capacity labs numbLabs].
  - destruct cl; unfold Get, bind, get, try_recv; cbn; [|done].
    destruct (_ <? BUFFERSIZE); cbn; eauto.
  - unfold Get, bind, get, try_recv; cbn.
    destruct (_ <? BUFFERSIZE); cbn; eauto.
Qed.

Lemma Get_ok (s : st) ret s' :
  buffer_ok (fst s) → Get s = Done ret s' → buffer_ok (fst s').
Proof.
  intros (Hcl & Hn & Hle & Hcap) H. pose proof (Get_cases s) as Hc.
  unfold len in *. destruct (items (buffer (fst s))) as [|lab rest] eqn:Ei.
  - rewrite Hcl in Hc. rewrite Hc in H. injection H as <- <-.
    unfold buffer_ok, len. by rewrite Ei.
  - destruct Hc as (e' & Hc). rewrite Hc in H. injection H as <- <-.
    unfold buffer_ok, len. cbn. cbn in Hn, Hle. rewrite Hn.
    rewrite wrap32_id by (unfold max_int32 in *; lia).
    repeat split; try done; lia.
Qed.

Lemma operating_ok (s : st) : operating s → buffer_ok (fst s).
Proof.
  induction 1 as [conf lib available cap e0 h e Hmax H
                 |s ret s' _ IH H|s ret s' _ IH H|s w _ IH].
  - by eapply NewHub_ok.
  - by eapply Get_ok.
  - by eapply addLab_ok.
  - exact IH.
Qed.

(** C1: in a run of [addLab] whose call of the lab factory fails,
    [addLab] returns the factory's error; the run claims a capacity permit
    and a creation permit, calls the factory and releases the creation
    permit, in this order and nothing else; the creation semaphore holds as
    many permits as before and the capacity semaphore one less. *)
Theorem addLab_factory_failure (s s' : st) (ret : option error) (err : error) :
  addLab B s = Done ret s' →
  EvNewLab (inl err) ∈ history s s' →
  ret = Some err ∧
  history s s' = [EvClaim MaximumSema; EvClaim CreateSema;
                  EvNewLab (inl err); EvRelease CreateSema] ∧
  permits CreateSema s' = permits CreateSema s ∧
  permits MaximumSema s' = permits MaximumSema s - 1 ∧
  labs (fst s') = labs (fst s) ∧ buffer (fst s') = buffer (fst s) ∧
  numbLabs (fst s') = numbLabs (fst s).
Proof.
  intros H Hin. unfold addLab in H.
  apply bind_Done in H as (n & s0 & Hav & H).
  destruct s as [h e]. cbn in Hav. injection Hav as <- <-.
  destruct (len (r (maximumSema h)) =? 0) eqn:Emax.
  { injection H as <- <-. unfold history in Hin. cbn in Hin.
    rewrite drop_all in Hin. by apply elem_of_nil in Hin. }
  apply Z.eqb_neq in Emax.
  apply bind_Done in H as (x1 & s1 & Hc1 & H).
  apply claim_Done in Hc1 as (c1 & Hr1 & ->). cbn [fst snd get_sema] in Hr1.
  apply bind_Done in H as (x2 & s2 & Hc2 & H).
  apply claim_Done in Hc2 as (c2 & Hr2 & ->). cbn [fst snd get_sema set_sema createSema] in Hr2.
  apply defer_Done in H as (s3 & Hbody & Hrel).
  apply buildLab_Done in Hbody as (Hcs & Hms & Hls & evs & Hevs & Hcase).
  apply release_Done in Hrel as (c3 & Hs3 & Hs').
  cbn [fst snd get_sema set_sema createSema maximumSema labs events log]
    in Hcs, Hms, Hls, Hevs, Hs3, Hcase.
  rewrite Hcs in Hs3. cbn [r] in Hs3.
  assert (Hhist : history (h, e) s'
                  = [EvClaim MaximumSema; EvClaim CreateSema] ++ evs
                    ++ [EvRelease CreateSema]).
  { apply history_app. rewrite Hs'. cbn [snd events log]. rewrite Hevs.
    cbn [snd events log]. by rewrite <- !app_assoc. }
  rewrite Hhist in Hin |- *. clear Hhist.
  destruct Hcase as [(err' & -> & -> & Hfst)|Hno].
  - apply list_elem_of_In in Hin. cbn in Hin.
    destruct Hin as [?|[?|[Hin|[?|[]]]]]; try discriminate.
    injection Hin as ->. split; [done|]. split; [done|].
    unfold permits. rewrite Hs', Hfst. cbn.
    split; [by eapply recv_then_send|].
    split; [by eapply recv_nonempty|]. done.
  - exfalso. apply list_elem_of_In in Hin. cbn in Hin.
    destruct Hin as [?|[?|Hin]]; try discriminate.
    apply in_app_or in Hin as [Hin|[?|[]]]; [|discriminate].
    apply list_elem_of_In in Hin. by apply Hno in Hin.
Qed.

(** C4: with [available > cap], [NewHub] returns no hub and the error
    [AvailableSizeErr], and leaves everything around it as it was: no
    semaphore or buffer is made, the lab factory is not called, no
    goroutine is started. *)
Theorem NewHub_available_gt_cap (conf : Config) (lib : Library)
    (available cap : Z) (e : env) :
  available > cap →
  NewHub B conf lib available cap e = Done (None, Some AvailableSizeErr) e.
Proof.
  intros H. unfold NewHub. destruct (available >? cap) eqn:E; [done|]. lia.
Qed.

(** C5: on a hub in service whose [Available] is 0, [Get] returns at
    once with no lab and [MaximumLabsErr], and changes nothing: neither the
    dispensed labs nor the counter (nor anything else). *)
Theorem Get_empty_buffer (s : st) :
  operating s → Available s = 0 →
  Get s = Done (None, Some MaximumLabsErr) s.
Proof.
  intros Hop H0. apply operating_ok in Hop as (Hcl & Hn & _).
  unfold Available in H0. rewrite Hn in H0. unfold len in H0.
  pose proof (Get_cases s) as Hc.
  destruct (items (buffer (fst s))); [|cbn in H0; lia].
  by rewrite Hcl in Hc.
Qed.

(** C6: on a hub in service, a [Get] that returns a lab and no error
    lowers [Available] by exactly 1 and appends the returned lab, and
    nothing else, to the dispensed labs; the lab is the one that was at the
    head of the warm buffer. *)
Theorem Get_success (s s' : st) (lab : Lab) :
  operating s → Get s = Done (lab, None) s' →
  Available s' = Available s - 1 ∧
  GetLabs s' = GetLabs s ++ [lab] ∧
  buffer (fst s) = mkChan (lab :: items (buffer (fst s'))) (capacity (buffer (fst s'))) false.
Proof.
  intros Hop H. apply operating_ok in Hop as (Hcl & Hn & Hle & Hcap).
  pose proof (Get_cases s) as Hc. unfold Available, GetLabs.
  unfold len in *. destruct (buffer (fst s)) as [[|lab' rest] cap cl] eqn:Eb.
  - cbn [items closed] in Hc, Hcl. rewrite Hcl in Hc. rewrite Hc in H. discriminate.
  - cbn [items capacity closed] in *. destruct Hc as (e' & Hc).
    rewrite Hc in H. injection H as <- <-. cbn. rewrite Hn. subst cl.
    cbn [length] in *.
    rewrite wrap32_id by (unfold max_int32 in *; lia).
    repeat split; try done; lia.
Qed.

End Proofs.

(** C1 on the hub with two warm labs, whose factory is out of disk. *)
Lemma addLab_factory_failure_witness :
  addLab demoHost demoPool
  = Done (Some "out of disk") (state_after (addLab demoHost) demoPool) ∧
  EvNewLab (inl "out of disk")
    ∈ history demoPool (state_after (addLab demoHost) demoPool) ∧
  permits CreateSema (state_after (addLab demoHost) demoPool) = 3 ∧
  permits MaximumSema (state_after (addLab demoHost) demoPool) = 2.
Proof.
  assert (H1 : addLab demoHost demoPool
               = Done (Some "out of disk") (state_after (addLab demoHost) demoPool)).
  { vm_compute. reflexivity. }
  assert (H2 : EvNewLab (inl "out of disk")
                 ∈ history demoPool (state_after (addLab demoHost) demoPool)).
  { apply list_elem_of_In. vm_compute. tauto. }
  split; [exact H1|]. split; [exact H2|].
  destruct (addLab_factory_failure demoHost _ _ _ _ H1 H2)
    as (_ & _ & Hc & Hm & _).
  split; [exact Hc|exact Hm].
Defined.

(** C4 on a warm size of 6 with a cap of 5. *)
Lemma NewHub_available_gt_cap_witness :
  6 > 5 ∧
  NewHub demoHost tt tt 6 5 demoEnv = Done (None, Some AvailableSizeErr) demoEnv.
Proof.
  assert (H : 6 > 5) by lia.
  split; [exact H|]. exact (NewHub_available_gt_cap demoHost tt tt 6 5 demoEnv H).
Defined.

(** C5 on the hub built with a warm size of 0. *)
Lemma Get_empty_buffer_witness :
  operating demoHost demoEmptyPool ∧
  Available demoEmptyPool = 0 ∧
  Get demoEmptyPool = Done (None, Some MaximumLabsErr) demoEmptyPool.
Proof.
  assert (H1 : operating demoHost demoEmptyPool).
  { apply (op_NewHub demoHost tt tt 0 5 demoEnv).
    - unfold max_int32. lia.
    - vm_compute. reflexivity. }
  assert (H2 : Available demoEmptyPool = 0) by reflexivity.
  split; [exact H1|]. split; [exact H2|].
  exact (Get_empty_buffer demoHost demoEmptyPool H1 H2).
Defined.

(** C6 on the hub with two warm labs. *)
Lemma Get_success_witness :
  operating demoHost demoPool ∧
  Get demoPool = Done (Some 0%nat, None) (state_after Get demoPool) ∧
  Available (state_after Get demoPool) = 1 ∧
  GetLabs (state_after Get demoPool) = [Some 0%nat].
Proof.
  assert (H1 : operating demoHost demoPool).
  { apply (op_NewHub demoHost tt tt 2 5 demoEnv).
    - unfold max_int32. lia.
    - vm_compute. reflexivity. }
  assert (H2 : Get demoPool = Done (Some 0%nat, None) (state_after Get demoPool)).
  { vm_compute. reflexivity. }
  split; [exact H1|]. split; [exact H2|].
  destruct (Get_success demoHost _ _ _ H1 H2) as (Ha & Hl & _).
  split; [exact Ha|exact Hl].
Defined.

End LabProofs.


Module ExerciseMoreProofs.
Import Go Exercise GoFacts ExerciseProofs ExerciseMore.

Lemma fold_left_app_concat {X Y} (f : X → list Y) (l : list X) (acc : list Y) :
  fold_left (λ acc x, acc ++ f x) l acc = acc ++ concat (map f l).
Proof.
  revert acc. induction l as [|x l IH]; intros acc; cbn.
  - by rewrite app_nil_r.
  - by rewrite IH, <- app_assoc.
Qed.

(** X1: [Flags] lists the flag definitions of the container specs, spec by
    spec in order, and after them those of the VM specs. *)
Theorem Flags_in_spec_order (conf : Config) :
  Flags conf = concat (map docker_Flags (DockerConfs conf))
               ++ concat (map vbox_Flags (VBoxConfs conf)).
Proof. unfold Flags. by rewrite !fold_left_app_concat. Qed.

(** X2: [ContainerOpts] returns one launch spec and one record list per
    container spec, in spec order: the launch spec carries the image and
    the resource limits of its container spec and no DNS server or MAC
    address yet; the record list is the spec's own. *)
Theorem ContainerOpts_per_spec (ec : Config) :
  length (ContainerOpts ec).1 = length (DockerConfs ec) ∧
  length (ContainerOpts ec).2 = length (DockerConfs ec) ∧
  ∀ i conf, DockerConfs ec !! i = Some conf →
    (ContainerOpts ec).2 !! i = Some (Records conf) ∧
    ∃ spec, (ContainerOpts ec).1 !! i = Some spec ∧
            Image spec = docker_Image conf ∧
            MemoryMB (Resources_ spec) = docker_MemoryMB conf ∧
            CPU (Resources_ spec) = docker_CPU conf ∧
            DNS spec = [] ∧ MacAddress spec = "".
Proof.
  rewrite ContainerOpts_map. cbn [fst snd]. rewrite !length_map.
  split; [done|]. split; [done|]. intros i conf Hi.
  rewrite !list_lookup_fmap, Hi. split; [done|]. by exists (containerSpec conf).
Qed.

Section Proofs.
Context {W : Type} (B : Backends W).
Local Open Scope go_scope.

(** X3: in the life of an exercise [Create] returns: no index of the
    recorded suffixes or of the record lists is ever out of range. *)
Theorem Create_never_panics (s : state W) :
  lifecycle B s → ∃ r s', Create B s = Done r s'.
Proof. intros H%lifecycle_ips_ok. by apply Create_returns. Qed.

Lemma untouched_createCalls dns eips specs :
  ∀ i cs ds, Forall (λ c, touches_machine c = false) (createCalls dns eips i specs cs ds).
Proof.
  induction specs as [|spec specs IH]; intros i cs ds; [constructor|].
  destruct cs, ds; try constructor; [done|]. constructor; [done|]. apply IH.
Qed.

Lemma untouched_copyCalls bridge specs :
  ∀ vms, Forall (λ c, touches_machine c = false) (copyCalls bridge specs vms).
Proof.
  induction specs as [|spec specs IH]; intros vms; [constructor|].
  destruct vms; constructor; [done|]. apply IH.
Qed.

(** X4: [Create] never starts or closes a machine, whatever it returns:
    after a failure the containers and VMs made so far are left as they
    are. *)
Theorem Create_touches_no_machine (s : state W) r s' :
  Create B s = Done r s' →
  Forall (λ c, touches_machine c = false) (trace s s').
Proof.
  intros H. apply Create_Done in H
    as (cs & ds & vms & tail & _ & _ & _ & _ & _ & Hcalls & Hr).
  rewrite (trace_app _ _ _ Hcalls).
  apply Forall_app. split; [apply untouched_createCalls|].
  apply Forall_app. split; [apply untouched_copyCalls|].
  destruct r as [err|].
  - destruct Hr as (_ & _ & [(_ & spec & _ & [->|(c & ->)])|(_ & spec & _ & ->)]);
      by repeat constructor.
  - by destruct Hr as (_ & _ & -> & _).
Qed.

Lemma resolvedRecords_concat (confs : list DockerConfig) :
  ∀ i ds pre,
  length pre = i → length ds = length confs →
  resolvedRecords B i ds (map Records (pre ++ confs))
  = concat (zip_with (recordsOf B) ds confs).
Proof.
  induction confs as [|conf confs IH]; intros i ds pre Hi Hlen.
  - by destruct ds.
  - destruct ds as [|d ds]; [done|]. cbn [resolvedRecords zip_with concat].
    rewrite list_lookup_fmap, lookup_app_r by lia.
    replace (i - length pre)%nat with 0%nat by lia. cbn [lookup list_lookup fmap option_fmap option_map default].
    f_equal.
    replace (pre ++ conf :: confs) with ((pre ++ [conf]) ++ confs) by by rewrite <- app_assoc.
    apply IH; [rewrite length_app; cbn; lia|]. by injection Hlen.
Qed.

Lemma Create_resolves_records_lemma (s : state W) s' :
  Create B s = Done None s' →
  length (assignedSuffixes (trace s s')) = length (DockerConfs (conf (ex s))) ∧
  dnsRecords (ex s')
  = dnsRecords (ex s)
    ++ concat (zip_with (recordsOf B) (assignedSuffixes (trace s s'))
                        (DockerConfs (conf (ex s)))).
Proof.
  intros H. apply Create_Done in H
    as (cs & ds & vms & tail & Hlen & _ & _ & _ & Hdns & Hcalls & Hl & _ & -> & _).
  rewrite (trace_app _ _ _ Hcalls).
  destruct (requests_of_run B (ex s) cs ds vms [] _ eq_refl) as (_ & ->).
  rewrite assignedSuffixes_createCalls by (rewrite ?length_map; lia).
  rewrite app_nil_r. split; [done|].
  rewrite Hdns. f_equal. by apply (resolvedRecords_concat _ 0 ds []).
Qed.

(** X5: a successful [Create] appends to the DNS records, container by
    container in spec order, the records of each container spec, where a
    blank address is replaced by the formatted address of the suffix the
    network returned for that container and any other address is kept. *)
Theorem Create_resolves_records (s : state W) s' :
  Create B s = Done None s' →
  length (assignedSuffixes (trace s s')) = length (DockerConfs (conf (ex s))) ∧
  dnsRecords (ex s')
  = dnsRecords (ex s)
    ++ concat (zip_with (recordsOf B) (assignedSuffixes (trace s s'))
                        (DockerConfs (conf (ex s)))).
Proof. apply Create_resolves_records_lemma. Qed.


Lemma startLoop_Done ms :
  ∀ s : state W, ∃ r s',
    startLoop B ms s = Done r s' ∧ ex s' = ex s ∧
    match r with
    | None => calls s' = calls s ++ startedAll ms
    | Some err =>
      ∃ j m, ms !! j = Some m ∧
             calls s' = calls s ++ startedAll (take j ms) ++ [CallStart m (Some err)]
    end.
Proof.
  induction ms as [|m ms IH]; intros s.
  - exists None, s. cbn. by rewrite app_nil_r.
  - cbn [startLoop]. unfold bind at 1, callStart, backend.
    destruct (InstStart B m (world s)) as [[err|] w] eqn:E.
    + eexists (Some err), _. split; [reflexivity|]. split; [done|].
      by exists 0%nat, m.
    + destruct (IH (mkState (ex s) w (calls s ++ [CallStart m None])))
        as (r & s' & Hrun & Hex & Hr).
      exists r, s'. split; [exact Hrun|]. split; [exact Hex|].
      cbn [calls] in Hr. destruct r as [err|].
      * destruct Hr as (j & m' & Hj & ->). exists (S j), m'.
        split; [done|]. cbn [take startedAll map]. by rewrite <- app_assoc.
      * rewrite Hr. cbn [startedAll map]. by rewrite <- app_assoc.
Qed.

Lemma Start_runs (s : state W) :
  ∃ r s',
    Start B s = Done r s' ∧ ex s' = ex s ∧
    match r with
    | None => trace s s' = startedAll (machines (ex s))
    | Some err =>
      ∃ j m, machines (ex s) !! j = Some m ∧
             trace s s' = startedAll (take j (machines (ex s)))
                          ++ [CallStart m (Some err)]
    end.
Proof.
  destruct (startLoop_Done (machines (ex s)) s) as (r & s' & Hrun & Hex & Hr).
  exists r, s'. unfold Start. unfold bind at 1. cbn [get].
  split; [exact Hrun|]. split; [exact Hex|].
  destruct r as [err|].
  - destruct Hr as (j & m & Hj & Hcalls). exists j, m. split; [done|].
    by apply trace_app.
  - by apply trace_app.
Qed.

(** X6: [Start] always returns and does not change the exercise. It
    starts the machines in list order and stops at the first error, which
    it returns: the machines before it were started and stay started (no
    machine is closed), the machines after it are not touched. *)
Theorem Start_fails_fast (s : state W) :
  ∃ r s',
    Start B s = Done r s' ∧ ex s' = ex s ∧
    match r with
    | None => trace s s' = startedAll (machines (ex s))
    | Some err =>
      ∃ j m, machines (ex s) !! j = Some m ∧
             trace s s' = startedAll (take j (machines (ex s)))
                          ++ [CallStart m (Some err)]
    end.
Proof. apply Start_runs. Qed.

Lemma Start_total (s : state W) : ∃ r s', Start B s = Done r s' ∧ ex s' = ex s.
Proof.
  destruct (Start_runs s) as (r & s' & H1 & H2 & _). by exists r, s'.
Qed.

Lemma Stop_runs (s : state W) :
  ∃ r s',
    Stop B s = Done r s' ∧ ex s' = ex s ∧
    match r with
    | None => trace s s' = closedAll (machines (ex s))
    | Some err =>
      ∃ j m, machines (ex s) !! j = Some m ∧
             trace s s' = closedAll (take j (machines (ex s)))
                          ++ [CallClose m (Some err)]
    end.
Proof.
  destruct (closeLoop_Done B (machines (ex s)) s) as (r & s' & Hrun & Hex & Hr).
  exists r, s'. unfold Stop. unfold bind at 1. cbn [get].
  rewrite <- closeLoop_stopLoop.
  split; [exact Hrun|]. split; [exact Hex|].
  destruct r as [err|].
  - destruct Hr as (j & m & Hj & Hcalls). exists j, m. split; [done|].
    by apply trace_app.
  - by apply trace_app.
Qed.

(** X7: [Stop] always returns and does not change the exercise: unlike
    [Close] it keeps the machine list also when every machine closed. It
    closes the machines in list order and stops at the first error, which
    it returns. *)
Theorem Stop_keeps_machines (s : state W) :
  ∃ r s',
    Stop B s = Done r s' ∧ ex s' = ex s ∧
    match r with
    | None => trace s s' = closedAll (machines (ex s))
    | Some err =>
      ∃ j m, machines (ex s) !! j = Some m ∧
             trace s s' = closedAll (take j (machines (ex s)))
                          ++ [CallClose m (Some err)]
    end.
Proof. apply Stop_runs. Qed.

Lemma Stop_total (s : state W) : ∃ r s', Stop B s = Done r s' ∧ ex s' = ex s.
Proof.
  destruct (Stop_runs s) as (r & s' & H1 & H2 & _). by exists r, s'.
Qed.

Lemma Reset_runs (s : state W) :
  ∃ r s',
    Reset B s = Done r s' ∧ ex s' = ex s ∧
    let ms := machines (ex s) in
    match r with
    | None => trace s s' = closedAll ms ++ startedAll ms
    | Some err =>
      (∃ j m, ms !! j = Some m ∧
              trace s s' = closedAll (take j ms) ++ [CallClose m (Some err)])
      ∨ (∃ j m, ms !! j = Some m ∧
                trace s s' = closedAll ms ++ startedAll (take j ms)
                             ++ [CallStart m (Some err)])
    end.
Proof.
  destruct (closeLoop_Done B (machines (ex s)) s) as (r1 & s1 & Hrun1 & Hex1 & Hr1).
  rewrite closeLoop_stopLoop in Hrun1.
  unfold Reset. unfold bind at 1. unfold Stop at 1. unfold bind at 1. cbn [get].
  rewrite Hrun1. destruct r1 as [err|].
  - exists (Some err), s1. split; [done|]. split; [done|]. left.
    destruct Hr1 as (j & m & Hj & Hcalls). exists j, m. split; [done|].
    by apply trace_app.
  - destruct (startLoop_Done (machines (ex s1)) s1) as (r2 & s2 & Hrun2 & Hex2 & Hr2).
    unfold bind at 1. unfold Start at 1. unfold bind at 1. cbn [get].
    rewrite Hrun2. rewrite Hex1 in *.
    exists r2, s2. split; [by destruct r2|]. split; [done|].
    destruct r2 as [err|].
    + right. destruct Hr2 as (j & m & Hj & Hcalls). exists j, m. split; [done|].
      apply trace_app. rewrite Hcalls, Hr1. by rewrite <- !app_assoc.
    + apply trace_app. rewrite Hr2, Hr1. by rewrite <- !app_assoc.
Qed.

(** X8: [Reset] always returns and does not change the exercise. When a
    close fails it returns that error and starts nothing; when every
    machine closed it starts the same machines in list order, and returns
    the first error of a start, if any. *)
Theorem Reset_stop_then_start (s : state W) :
  ∃ r s',
    Reset B s = Done r s' ∧ ex s' = ex s ∧
    let ms := machines (ex s) in
    match r with
    | None => trace s s' = closedAll ms ++ startedAll ms
    | Some err =>
      (∃ j m, ms !! j = Some m ∧
              trace s s' = closedAll (take j ms) ++ [CallClose m (Some err)])
      ∨ (∃ j m, ms !! j = Some m ∧
                trace s s' = closedAll ms ++ startedAll (take j ms)
                             ++ [CallStart m (Some err)])
    end.
Proof. apply Reset_runs. Qed.

Lemma Reset_total (s : state W) : ∃ r s', Reset B s = Done r s' ∧ ex s' = ex s.
Proof.
  destruct (Reset_runs s) as (r & s' & H1 & H2 & _). by exists r, s'.
Qed.

Lemma Start_ex (s : state W) r s' : Start B s = Done r s' → ex s' = ex s.
Proof.
  destruct (Start_total s) as (r0 & s0 & Hrun & Hex). rewrite Hrun.
  by intros [= <- <-].
Qed.

Lemma Stop_ex (s : state W) r s' : Stop B s = Done r s' → ex s' = ex s.
Proof.
  destruct (Stop_total s) as (r0 & s0 & Hrun & Hex). rewrite Hrun.
  by intros [= <- <-].
Qed.

Lemma Reset_ex (s : state W) r s' : Reset B s = Done r s' → ex s' = ex s.
Proof.
  destruct (Reset_total s) as (r0 & s0 & Hrun & Hex). rewrite Hrun.
  by intros [= <- <-].
Qed.

Lemma Close_dnsRecords (s : state W) r s' :
  Close B s = Done r s' → dnsRecords (ex s') = dnsRecords (ex s).
Proof.
  intros H. rewrite Close_StopThenClear in H. unfold StopThenClear in H.
  apply bind_Done in H as (r1 & s1 & Hs & H). apply Stop_ex in Hs.
  destruct r1 as [err|]; [injection H as <- <-; by rewrite Hs|].
  cbn in H. injection H as <- <-. cbn. by rewrite Hs.
Qed.

Lemma Close_empties (s s' : state W) :
  Close B s = Done None s' → machines (ex s') = [].
Proof.
  intros H. rewrite Close_StopThenClear in H. unfold StopThenClear in H.
  apply bind_Done in H as (r1 & s1 & _ & H).
  destruct r1 as [err|]; [discriminate|]. cbn in H. by injection H as <-.
Qed.

(** X9: after a [Close] that succeeded there is no machine left to act on:
    [Start], [Stop], [Reset] and a second [Close] return success at once,
    without a call to any backend and without a change of state. *)
Theorem nothing_to_do_after_Close (s s' : state W) :
  Close B s = Done None s' →
  Start B s' = Done None s' ∧ Stop B s' = Done None s' ∧
  Reset B s' = Done None s' ∧ Close B s' = Done None s'.
Proof.
  intros H%Close_empties. destruct s' as [[c f ms i d rs] w cl].
  cbn in H. subst ms. by repeat split.
Qed.

Lemma dnsRecords_grow_lemma (s s' : state W) :
  rtc (step B) s s' → ∃ more, dnsRecords (ex s') = dnsRecords (ex s) ++ more.
Proof.
  intros Hsteps.
  refine (rtc_ind_r (λ s', ∃ more, dnsRecords (ex s') = dnsRecords (ex s) ++ more)
            s _ _ s' Hsteps).
  - exists []. by rewrite app_nil_r.
  - intros y z _ Hstep (more & Hy).
    enough (∃ more', dnsRecords (ex z) = dnsRecords (ex y) ++ more') as (more' & Hz)
      by (exists (more ++ more'); by rewrite Hz, Hy, app_assoc).
    destruct Hstep as [y r z H|y r z H|y r z H|y r z H|y r z H|y w].
    + apply Create_Done in H as (? & ds & ? & ? & _ & _ & _ & _ & Hdns & _).
      by eexists.
    + exists []. by rewrite (Start_ex _ _ _ H), app_nil_r.
    + exists []. by rewrite (Stop_ex _ _ _ H), app_nil_r.
    + exists []. rewrite app_nil_r. by apply Close_dnsRecords in H.
    + exists []. by rewrite (Reset_ex _ _ _ H), app_nil_r.
    + exists []. by rewrite app_nil_r.
Qed.

(** X10: no method ever removes a DNS record: each call keeps the records
    there are and can only append. *)
Theorem dnsRecords_only_grow (s s' : state W) :
  rtc (step B) s s' → ∃ more, dnsRecords (ex s') = dnsRecords (ex s) ++ more.
Proof. apply dnsRecords_grow_lemma. Qed.

Lemma requests_createCalls_None dns specs :
  ∀ i cs ds,
  Forall (λ q, q = None) (connectRequests (createCalls dns None i specs cs ds)).
Proof.
  induction specs as [|spec specs IH]; intros i cs ds; [constructor|].
  destruct cs as [|c cs], ds as [|d ds]; [constructor|constructor|constructor|].
  cbn [createCalls requested].
  change (connectRequests (?a :: ?b :: ?tr)) with (@None Z :: connectRequests tr).
  constructor; [done|]. apply IH.
Qed.

(** X11: while no suffixes are recorded, [Create] passes no suffix to the
    network in any [Connect] call: the network chooses every address. *)
Theorem Create_lets_network_choose (s : state W) r s' :
  ips (ex s) = None →
  Create B s = Done r s' →
  Forall (λ q, q = None) (connectRequests (trace s s')).
Proof.
  intros H0 H. apply Create_Done in H
    as (cs & ds & vms & tail & _ & _ & _ & _ & _ & Hcalls & Hr).
  rewrite (trace_app _ _ _ Hcalls).
  destruct (requests_of_run B (ex s) cs ds vms tail _ eq_refl) as (-> & _).
  rewrite H0. apply Forall_app. split; [apply requests_createCalls_None|].
  destruct r as [err|].
  - destruct Hr as (_ & _ & [(_ & spec & _ & [->|(c & ->)])|(_ & spec & _ & ->)]).
    + constructor.
    + rewrite H0. by repeat constructor.
    + constructor.
  - destruct Hr as (_ & _ & -> & _). constructor.
Qed.

Lemma recreate_assigns_same (s0 s1 s2 s3 : state W) :
  ips (ex s0) = None →
  Create B s0 = Done None s1 →
  rtc (step B) s1 s2 →
  Create B s2 = Done None s3 →
  honours_requests B →
  conf (ex s2) = conf (ex s0) ∧
  assignedSuffixes (trace s2 s3) = assignedSuffixes (trace s0 s1).
Proof.
  intros H0 H1 Hlater H2 Hh.
  destruct (later_same_blueprint B s1 s2 Hlater (Create_settles B _ _ H0 H1))
    as (Hc2 & Hi2).
  pose proof (Create_justified B _ _ _ H2) as J2.
  apply Create_Done in H1
    as (cs1 & ds1 & vms1 & tail1 & Hlen1 & Hc1 & _ & _ & _ & Hcalls1
        & Hl1 & _ & -> & _ & Hi1).
  rewrite H0 in Hi1. split; [congruence|].
  rewrite (trace_app _ _ _ Hcalls1).
  destruct (requests_of_run B (ex s0) cs1 ds1 vms1 [] _ eq_refl) as (_ & ->).
  rewrite assignedSuffixes_createCalls by (rewrite ?length_map; lia).
  rewrite app_nil_r.
  apply Create_Done in H2
    as (cs2 & ds2 & vms2 & tail2 & Hlen2 & _ & _ & _ & _ & Hcalls2
        & Hl2 & _ & -> & _ & _).
  apply trace_app in Hcalls2. rewrite Hcalls2 in *.
  destruct (requests_of_run B (ex s2) cs2 ds2 vms2 [] _ eq_refl) as (Hq & Ha).
  rewrite Hi2, Hc2, Hc1, Hi1 in *.
  rewrite assignedSuffixes_createCalls in Ha by (rewrite ?length_map; lia).
  change (assignedSuffixes []) with (@nil Z) in Ha. rewrite (app_nil_r ds2) in Ha.
  destruct ds1 as [|d1 ds1].
  - rewrite Ha. destruct ds2; [done|]. cbn in Hl1, Hl2. lia.
  - rewrite recordedIps_cons in *. remember (d1 :: ds1) as l eqn:El. clear El.
    rewrite connectRequests_createCalls in Hq by (rewrite ?length_map; lia).
    change (connectRequests []) with (@nil (option Z)) in Hq.
    rewrite drop_0, take_ge, (app_nil_r (map Some l)) in Hq by lia.
    apply (assigned_as_requested B _ Hh J2 l Hq). rewrite Ha. lia.
Qed.

(** X12: [Create] appends to the DNS records without looking at those
    already there. On a network that hands back the suffix it is asked
    for, a [Create] that succeeds after an earlier one has succeeded
    appends the very records the first one appended: they are then in the
    list twice. *)
Theorem Create_again_repeats_records (s0 s1 s2 s3 : state W) :
  ips (ex s0) = None →
  Create B s0 = Done None s1 →
  rtc (step B) s1 s2 →
  Create B s2 = Done None s3 →
  honours_requests B →
  ∃ first between,
    dnsRecords (ex s1) = dnsRecords (ex s0) ++ first ∧
    dnsRecords (ex s3) = dnsRecords (ex s0) ++ first ++ between ++ first.
Proof.
  intros H0 H1 Hlater H2 Hh.
  destruct (recreate_assigns_same _ _ _ _ H0 H1 Hlater H2 Hh) as (Hc & Ha).
  destruct (Create_resolves_records_lemma _ _ H1) as (_ & Hd1).
  destruct (Create_resolves_records_lemma _ _ H2) as (_ & Hd3).
  destruct (dnsRecords_grow_lemma _ _ Hlater) as (between & Hd2).
  eexists _, between. split; [exact Hd1|].
  rewrite Hd3, Hd2, Hd1, Ha, Hc. by rewrite <- !app_assoc.
Qed.

End Proofs.

Lemma demoBackends_honours : honours_requests demoBackends.
Proof. intros c mac d w d' w' H. cbn in H. by injection H as <- _. Qed.

Lemma demoCreated_Create :
  Create demoBackends (demoFresh ["web"; "db"]) = Done None demoCreated.
Proof. vm_compute. reflexivity. Qed.

Lemma demoClosed_Close : Close demoBackends demoCreated = Done None demoClosed.
Proof. vm_compute. reflexivity. Qed.

Lemma demoRecreated_Create : Create demoBackends demoClosed = Done None demoRecreated.
Proof. vm_compute. reflexivity. Qed.

(** The exercise after its first [Create]. *)
Lemma Create_never_panics_witness :
  lifecycle demoBackends demoCreated ∧
  ∃ r s', Create demoBackends demoCreated = Done r s'.
Proof.
  assert (H : lifecycle demoBackends demoCreated).
  { exists (demoFresh ["web"; "db"]). split; [reflexivity|].
    apply rtc_once. apply (step_Create demoBackends _ None). exact demoCreated_Create. }
  split; [exact H|exact (Create_never_panics demoBackends demoCreated H)].
Defined.

(** A [Create] that fails at its second container. *)
Lemma Create_touches_no_machine_witness :
  Create demoBackends (demoFresh ["web"; "broken"])
  = Done (Some "no such image") demoFailed ∧
  Forall (λ c, touches_machine c = false) (trace (demoFresh ["web"; "broken"]) demoFailed).
Proof.
  assert (H : Create demoBackends (demoFresh ["web"; "broken"])
              = Done (Some "no such image") demoFailed).
  { vm_compute. reflexivity. }
  split; [exact H|exact (Create_touches_no_machine demoBackends _ _ _ H)].
Defined.

(** The records of the two containers of the demo blueprint. *)
Lemma Create_resolves_records_witness :
  Create demoBackends (demoFresh ["web"; "db"]) = Done None demoCreated ∧
  dnsRecords (ex demoCreated)
  = [mkRecordConfig "web.local" "A" "172.16.5.101";
     mkRecordConfig "db.local" "A" "172.16.5.103"].
Proof.
  split; [exact demoCreated_Create|].
  destruct (Create_resolves_records demoBackends _ _ demoCreated_Create) as [_ H].
  rewrite H. vm_compute. reflexivity.
Defined.

Lemma nothing_to_do_after_Close_witness :
  Close demoBackends demoCreated = Done None demoClosed ∧
  Start demoBackends demoClosed = Done None demoClosed ∧
  Stop demoBackends demoClosed = Done None demoClosed ∧
  Reset demoBackends demoClosed = Done None demoClosed ∧
  Close demoBackends demoClosed = Done None demoClosed.
Proof.
  split; [exact demoClosed_Close|].
  exact (nothing_to_do_after_Close demoBackends _ _ demoClosed_Close).
Defined.

Lemma dnsRecords_only_grow_witness :
  rtc (step demoBackends) demoCreated demoRecreated ∧
  ∃ more, dnsRecords (ex demoRecreated) = dnsRecords (ex demoCreated) ++ more.
Proof.
  assert (H : rtc (step demoBackends) demoCreated demoRecreated).
  { eapply rtc_l; [apply (step_Close demoBackends _ None); exact demoClosed_Close|].
    apply rtc_once. apply (step_Create demoBackends _ None). exact demoRecreated_Create. }
  split; [exact H|exact (dnsRecords_only_grow demoBackends _ _ H)].
Defined.

Lemma Create_lets_network_choose_witness :
  ips (ex (demoFresh ["web"; "db"])) = None ∧
  Create demoBackends (demoFresh ["web"; "db"]) = Done None demoCreated ∧
  Forall (λ q, q = None) (connectRequests (trace (demoFresh ["web"; "db"]) demoCreated)).
Proof.
  assert (H0 : ips (ex (demoFresh ["web"; "db"])) = None) by reflexivity.
  split; [exact H0|]. split; [exact demoCreated_Create|].
  exact (Create_lets_network_choose demoBackends _ _ _ H0 demoCreated_Create).
Defined.

(** Create, Close, Create on the demo blueprint. *)
Lemma Create_again_repeats_records_witness :
  ips (ex (demoFresh ["web"; "db"])) = None ∧
  Create demoBackends (demoFresh ["web"; "db"]) = Done None demoCreated ∧
  rtc (step demoBackends) demoCreated demoClosed ∧
  Create demoBackends demoClosed = Done None demoRecreated ∧
  honours_requests demoBackends ∧
  ∃ first between,
    dnsRecords (ex demoCreated) = dnsRecords (ex (demoFresh ["web"; "db"])) ++ first ∧
    dnsRecords (ex demoRecreated)
    = dnsRecords (ex (demoFresh ["web"; "db"])) ++ first ++ between ++ first.
Proof.
  assert (H0 : ips (ex (demoFresh ["web"; "db"])) = None) by reflexivity.
  assert (H2 : rtc (step demoBackends) demoCreated demoClosed).
  { apply rtc_once. apply (step_Close demoBackends _ None). exact demoClosed_Close. }
  split; [exact H0|]. split; [exact demoCreated_Create|]. split; [exact H2|].
  split; [exact demoRecreated_Create|]. split; [exact demoBackends_honours|].
  exact (Create_again_repeats_records demoBackends _ _ _ _ H0 demoCreated_Create H2
           demoRecreated_Create demoBackends_honours).
Defined.

End ExerciseMoreProofs.


Module LabMoreProofs.
Import Go Lab GoFacts LabProofs LabMore.

Lemma fill_Ready (k : nat) :
  ∀ c : chan rsrc,
  closed c = false → len c + Z.of_nat k ≤ capacity c →
  ∃ c', fill k c = Ready c' ∧ closed c' = false ∧
        capacity c' = capacity c ∧ len c' = len c + Z.of_nat k.
Proof.
  induction k as [|k IH]; intros c Hcl Hle.
  - exists c. cbn. repeat split; try done. lia.
  - cbn [fill]. unfold try_send. rewrite Hcl.
    destruct (len c <? capacity c) eqn:Elt; [|apply Z.ltb_ge in Elt; lia].
    destruct (IH (mkChan (items c ++ [mkRsrc]) (capacity c) false)) as (c' & -> & ? & ? & Hlen).
    + done.
    + unfold len in *. cbn. rewrite length_app. cbn. lia.
    + exists c'. repeat split; try done.
      rewrite Hlen. unfold len. cbn. rewrite length_app. cbn. lia.
Qed.

Section Proofs.
Context {Config Library W : Type} (B : @Backends Config Library W).
Local Open Scope go_scope.
Local Abbreviation st := (@Lab.st Config Library W).
Local Abbreviation hub := (@Lab.hub Config Library).
Local Abbreviation env := (@Lab.env W).
Local Abbreviation operating := (Lab.operating B).

Lemma newSemaphore_runs (n : Z) (e : env) :
  (0 ≤ n →
   ∃ sem, newSemaphore n e = Done sem (log (EvNewSemaphore n) e) ∧
          len (r sem) = n ∧ capacity (r sem) = n ∧ closed (r sem) = false) ∧
  (n < 0 → newSemaphore n e = Panicked "makechan: size out of range" e).
Proof.
  unfold newSemaphore, make_chan. split; intros Hn.
  - destruct (n <? 0) eqn:E; [apply Z.ltb_lt in E; lia|].
    destruct (fill_Ready (Z.to_nat n) (mkChan [] n false)) as (c & -> & Hcl & Hcap & Hlen).
    + done.
    + unfold len. cbn. lia.
    + exists (mkSemaphore c). cbn [r]. split; [done|].
      rewrite Hlen. unfold len. cbn. split; [lia|]. done.
  - destruct (n <? 0) eqn:E; [done|]. apply Z.ltb_ge in E. lia.
Qed.


(** A run of [addLab] that finds a permit in each semaphore, step by step:
    what it returns and the state it leaves in each of its five ways out. *)
Lemma addLab_runs lib conf y ci cc x mi mc mcl ls buf n (e : env) :
  (len (mkChan ci cc false) <? cc) = true →
  let after buf' n' : hub :=
    mkHub lib conf (mkSemaphore (mkChan (ci ++ [mkRsrc]) cc false))
          (mkSemaphore (mkChan mi mc mcl)) ls buf' n' in
  let e0 := log (EvClaim CreateSema) (log (EvClaim MaximumSema) e) in
  addLab B (mkHub lib conf (mkSemaphore (mkChan (y :: ci) cc false))
                  (mkSemaphore (mkChan (x :: mi) mc mcl)) ls buf n, e)
  = match NewLab B lib conf (world e) with
    | (inl err, w1) =>
      Done (Some err)
           (after buf n,
            log (EvRelease CreateSema) (log (EvNewLab (inl err)) (set_world w1 e0)))
    | (inr lab, w1) =>
      let e1 := log (EvNewLab (inr lab)) (set_world w1 e0) in
      match LabStart B lab w1 with
      | (Some err, w2) =>
        Done (Some err)
             (after buf n,
              log (EvRelease CreateSema)
                  (spawn_close lab (log (EvStart lab (Some err)) (set_world w2 e1))))
      | (None, w2) =>
        let e2 := log (EvRelease CreateSema) (log (EvStart lab None) (set_world w2 e1)) in
        match try_send (Some lab) buf with
        | Ready c => Done None (after c (wrap32 (n + 1)), e2)
        | NotReady => Done None (after buf n, e2)
        | Fault => Panicked "send on closed channel" (after buf n, e2)
        end
      end
    end.
Proof.
  intros Hroom after e0.
  assert (Hmax : (len (mkChan (x :: mi) mc mcl) =? 0) = false).
  { apply Z.eqb_neq. unfold len. cbn [items length]. lia. }
  unfold addLab, defer, buildLab, available, claim, release, go, enqueue, backend.
  unfold bind, get, modify, ret, try_recv.
  cbn -[wrap32 Z.add try_send len Z.ltb]. rewrite Hmax.
  cbn -[wrap32 Z.add try_send len Z.ltb].
  destruct (NewLab B lib conf (world e)) as [[err|lab] w1];
    cbn -[wrap32 Z.add try_send len Z.ltb].
  - unfold try_send at 1. cbn -[len Z.ltb]. by rewrite Hroom.
  - destruct (LabStart B lab w1) as [[err|] w2]; cbn -[wrap32 Z.add try_send len Z.ltb].
    + unfold try_send at 1. cbn -[len Z.ltb]. by rewrite Hroom.
    + unfold try_send. destruct buf as [bi bc bcl]. cbn [closed capacity].
      destruct bcl; [|destruct (len _ <? bc)];
        cbn -[wrap32 Z.add len Z.ltb]; by rewrite Hroom.
Qed.


(** [hub.Get], way by way. *)
Lemma Get_runs (lib : Library) (conf : Config) cs ms ls (bi : list Lab) bc bcl n (e : env) :
  let spawn_if n' : env :=
    if n' <? BUFFERSIZE
    then mkEnv (world e) (events e ++ [EvGo GoAddLab]) (spawned e ++ [GoAddLab])
    else e in
  Get (mkHub lib conf cs ms ls (mkChan bi bc bcl) n, e)
  = match bi with
    | lab :: rest =>
      Done (lab, None)
           (mkHub lib conf cs ms (ls ++ [lab]) (mkChan rest bc bcl) (wrap32 (n + -1)),
            spawn_if (wrap32 (n + -1)))
    | [] =>
      if bcl
      then Done (None, None)
                (mkHub lib conf cs ms (ls ++ [None]) (mkChan [] bc true)
                       (wrap32 (n + -1)),
                 spawn_if (wrap32 (n + -1)))
      else Done (None, Some MaximumLabsErr)
                (mkHub lib conf cs ms ls (mkChan [] bc false) n, e)
    end.
Proof.
  intros spawn_if. unfold spawn_if, Get, go. unfold bind, get, modify, ret, try_recv.
  cbn -[wrap32 Z.add Z.ltb BUFFERSIZE].
  destruct bi as [|lab rest]; [destruct bcl|]; cbn -[wrap32 Z.add Z.ltb BUFFERSIZE];
    try done; by destruct (wrap32 (n + -1) <? BUFFERSIZE).
Qed.

Lemma addLab_at_cap (s : st) :
  permits MaximumSema s = 0 → addLab B s = Done (Some MaximumLabsErr) s.
Proof.
  destruct s as [h e]. unfold permits, addLab. cbn [fst get_sema].
  unfold bind at 1, available. cbn [get_sema]. by intros ->.
Qed.

Lemma serving_shape (s : st) :
  serving s → permits MaximumSema s ≠ 0 →
  ∃ lib conf y1 y2 y3 x mi mc ls bi bc n e,
    s = (mkHub lib conf (mkSemaphore (mkChan [y1; y2; y3] 3 false))
               (mkSemaphore (mkChan (x :: mi) mc false)) ls (mkChan bi bc false) n, e).
Proof.
  destruct s as [[lib conf [[ci cc ccl]] [[mi mc mcl]] ls [bi bc bcl] n] e].
  unfold serving, hub_sound, buffer_ok, permits, len.
  cbn [fst createSema maximumSema buffer r items capacity closed get_sema].
  intros ((-> & -> & Hc & -> & _) & (-> & _)) Hm.
  destruct ci as [|y1 [|y2 [|y3 [|? ?]]]]; cbn in Hc; try lia.
  destruct mi as [|x mi]; [done|]. by eexists _, _, _, _, _, _, _, _, _, _, _, _, _.
Qed.


Lemma history_logs (h h' : hub) (e e' : env) evs :
  events e' = events e ++ evs → history (h, e) (h', e') = evs.
Proof. intros H. by apply history_app. Qed.

(** Bring the events of an environment built from [log]s into the form
    [events e ++ [...]]. *)
Ltac log_shape :=
  cbn [events log set_world spawn_close world]; rewrite <- ?app_assoc; reflexivity.

Ltac read_history :=
  erewrite history_logs;
  [|cbn [events log set_world spawn_close world]; rewrite <- ?app_assoc; reflexivity].

Lemma addLab_serving (s : st) :
  serving s → permits MaximumSema s ≠ 0 →
  ∃ ret s',
    addLab B s = Done ret s' ∧ serving s' ∧
    permits MaximumSema s' = permits MaximumSema s - 1 ∧
    permits CreateSema s' = 3 ∧
    labs (fst s') = labs (fst s) ∧
    capacity (buffer (fst s')) = capacity (buffer (fst s)) ∧
    capacity (r (maximumSema (fst s'))) = capacity (r (maximumSema (fst s))) ∧
    events (snd s') = events (snd s) ++ history s s' ∧
    length (factoryCalls (history s s')) = 1%nat ∧
    (len (buffer (fst s)) < capacity (buffer (fst s)) →
     Available s' = Available s + Z.of_nat (length (startedLabs (history s s')))) ∧
    (length (startedLabs (history s s')) ≤ 1)%nat.
Proof.
  intros Hserv Hm.
  destruct (serving_shape s Hserv Hm)
    as (lib & conf & y1 & y2 & y3 & x & mi & mc & ls & bi & bc & n & e & ->).
  destruct Hserv as ((_ & _ & _ & _ & Hacc & Hls & Hbi) & (_ & Hn & Hle & Hcap)).
  unfold permits, Available, len in *.
  cbn [fst createSema maximumSema buffer labs numbLabs r items capacity closed length get_sema]
    in *.
  rewrite addLab_runs by reflexivity.
  assert (Hs : ∀ (bi' : list Lab) (n' : Z) (e' : env),
    Forall is_Some bi' → n' = Z.of_nat (length bi') →
    (length bi' ≤ S (length bi))%nat → Z.of_nat (length bi') ≤ bc →
    serving (mkHub lib conf (mkSemaphore (mkChan ([y2; y3] ++ [mkRsrc]) 3 false))
                   (mkSemaphore (mkChan mi mc false)) ls (mkChan bi' bc false) n', e')).
  { intros bi' n' e' Hall -> Hlen Hbc. unfold serving, hub_sound, buffer_ok, len.
    cbn [fst createSema maximumSema buffer labs numbLabs r items capacity closed length app].
    repeat split; try done; lia. }
  destruct (NewLab B lib conf (world e)) as [[err|lab] w1].
  - eexists _, _. split; [reflexivity|]. split; [apply Hs; try done; lia|].
    cbn [fst snd createSema maximumSema buffer labs numbLabs r items capacity closed
         length app get_sema].
    read_history. unfold Lab in *.
    repeat split; try done; try lia; try log_shape; try intros ?; cbn; lia.
  - cbn zeta. destruct (LabStart B lab w1) as [[err|] w2].
    + eexists _, _. split; [reflexivity|]. split; [apply Hs; try done; lia|].
      cbn [fst snd createSema maximumSema buffer labs numbLabs r items capacity closed
           length app get_sema].
      read_history. unfold Lab in *.
    repeat split; try done; try lia; try log_shape; try intros ?; cbn; lia.
    + unfold try_send. cbn [closed capacity]. unfold len. cbn [items].
      match goal with |- context [if ?b then _ else _] => destruct b eqn:Eroom end.
      * apply Z.ltb_lt in Eroom.
        eexists _, _. split; [reflexivity|]. split.
        { apply Hs.
          - apply Forall_app. split; [done|]. by repeat constructor.
          - rewrite length_app. cbn. unfold Lab in *. rewrite wrap32_id; lia.
          - rewrite length_app. cbn. unfold Lab in *. lia.
          - rewrite length_app. cbn. unfold Lab in *. lia. }
        cbn [fst snd createSema maximumSema buffer labs numbLabs r items capacity closed
             length app get_sema].
        read_history. repeat split; try done; [lia|log_shape| |..]; [|cbn; lia..].
        intros _. unfold Lab in *. rewrite wrap32_id by lia. cbn. lia.
      * apply Z.ltb_ge in Eroom.
        eexists _, _. split; [reflexivity|]. split; [apply Hs; try done; lia|].
        cbn [fst snd createSema maximumSema buffer labs numbLabs r items capacity closed
             length app get_sema].
        read_history. unfold Lab in *.
    repeat split; try done; try lia; try log_shape; try intros ?; cbn; lia.
Qed.


Lemma history_trans (s s1 s2 : st) :
  events (snd s1) = events (snd s) ++ history s s1 →
  events (snd s2) = events (snd s1) ++ history s1 s2 →
  events (snd s2) = events (snd s) ++ history s s2 ∧
  history s s2 = history s s1 ++ history s1 s2.
Proof.
  intros H1 H2.
  assert (H : history s s2 = history s s1 ++ history s1 s2).
  { apply history_app. rewrite H2, H1. by rewrite app_assoc. }
  split; [|done]. rewrite H, H2, H1. by rewrite app_assoc.
Qed.

Lemma history_refl (s : st) : history s s = [].
Proof. apply history_app. by rewrite app_nil_r. Qed.

Lemma factoryCalls_app (a b : list event) :
  factoryCalls (a ++ b) = factoryCalls a ++ factoryCalls b.
Proof. apply omap_app. Qed.

Lemma startedLabs_app (a b : list event) :
  startedLabs (a ++ b) = startedLabs a ++ startedLabs b.
Proof. apply omap_app. Qed.

Lemma closedLabs_app (a b : list event) :
  closedLabs (a ++ b) = closedLabs a ++ closedLabs b.
Proof. apply omap_app. Qed.

(** The pre-warming loop on a hub in service with enough permits and
    enough room in the buffer. *)
Lemma initLoop_serving (k : nat) : ∀ s : st,
  serving s →
  Z.of_nat k ≤ permits MaximumSema s →
  len (buffer (fst s)) + Z.of_nat k ≤ capacity (buffer (fst s)) →
  ∃ s',
    initLoop B k s = Done tt s' ∧ serving s' ∧
    permits MaximumSema s' = permits MaximumSema s - Z.of_nat k ∧
    labs (fst s') = labs (fst s) ∧
    capacity (buffer (fst s')) = capacity (buffer (fst s)) ∧
    capacity (r (maximumSema (fst s'))) = capacity (r (maximumSema (fst s))) ∧
    events (snd s') = events (snd s) ++ history s s' ∧
    length (factoryCalls (history s s')) = k ∧
    Available s' = Available s + Z.of_nat (length (startedLabs (history s s'))) ∧
    (length (startedLabs (history s s')) ≤ k)%nat.
Proof.
  induction k as [|k IH]; intros s Hserv Hperm Hroom.
  - exists s. cbn [initLoop]. rewrite history_refl. cbn.
    rewrite app_nil_r. split_and!; try done; lia.
  - destruct (addLab_serving s Hserv)
      as (ret & s1 & Ha & Hserv1 & Hp1 & _ & Hl1 & Hc1 & Hm1 & He1 & Hf1 & Hav1 & Hs1);
      [lia|].
    destruct (IH s1 Hserv1)
      as (s2 & Hb & Hserv2 & Hp2 & Hl2 & Hc2 & Hm2 & He2 & Hf2 & Hav2 & Hs2); [lia| |].
    { destruct Hserv as (_ & _ & Hn & _), Hserv1 as (_ & _ & Hn1 & _).
      unfold Available in Hav1. rewrite Hc1. lia. }
    destruct (history_trans s s1 s2 He1 He2) as [He Hh].
    exists s2. cbn [initLoop]. unfold bind. rewrite Ha.
    rewrite Hh, factoryCalls_app, startedLabs_app, !length_app.
    split_and!; try done; try congruence; try lia.
Qed.

(** [NewHub] with sizes in range: the hub it builds. *)
Lemma NewHub_serving (conf : Config) (lib : Library) (available cap : Z) (e0 : env) :
  0 ≤ available → available ≤ cap → available ≤ max_int32 →
  ∃ h e,
    NewHub B conf lib available cap e0 = Done (Some h, None) e ∧
    serving (h, e) ∧
    labs h = [] ∧
    capacity (buffer h) = available ∧
    capacity (r (maximumSema h)) = cap ∧
    permits MaximumSema (h, e) = cap - available ∧
    length (factoryCalls (drop (length (events e0)) (events e))) = Z.to_nat available ∧
    Available (h, e)
    = Z.of_nat (length (startedLabs (drop (length (events e0)) (events e)))).
Proof.
  intros H0 Hle Hmax. unfold NewHub.
  destruct (available >? cap) eqn:Egt; [apply Z.gtb_lt in Egt; lia|].
  destruct (newSemaphore_runs 3 e0) as [H3 _].
  destruct H3 as (cs & Ecs & Hcs1 & Hcs2 & Hcs3); [lia|].
  destruct (newSemaphore_runs cap (log (EvNewSemaphore 3) e0)) as [Hc _].
  destruct Hc as (ms & Ems & Hms1 & Hms2 & Hms3); [lia|].
  unfold bind at 1. rewrite Ecs. unfold bind at 1. rewrite Ems.
  unfold bind at 1, make_buffer, make_chan.
  destruct (available <? 0) eqn:Eneg; [apply Z.ltb_lt in Eneg; lia|].
  set (h0 := mkHub lib conf cs ms [] (mkChan [] available false) 0).
  set (e1 := log (EvMakeBuffer available) _).
  destruct (initLoop_serving (Z.to_nat available) (h0, e1))
    as ([h e] & Hi & Hserv & Hp & Hl & Hc & Hm & He & Hf & Hav & _).
  { unfold serving, hub_sound, buffer_ok, len in *. cbn. repeat split; try done; lia. }
  { unfold permits. cbn. lia. }
  { unfold len. cbn. lia. }
  exists h, e. unfold bind, with_hub, init, ret. rewrite Eneg. unfold bind, ret.
  rewrite Hi. split; [done|].
  assert (Hd : drop (length (events e0)) (events e)
               = [EvNewSemaphore 3; EvNewSemaphore cap; EvMakeBuffer available]
                   ++ history (h0, e1) (h, e)).
  { cbn [snd] in He. rewrite He. unfold e1. cbn [events log].
    rewrite <- !app_assoc. by rewrite drop_app_length. }
  rewrite Hd, factoryCalls_app, startedLabs_app.
  unfold permits, Available in *. subst h0.
  cbn [fst get_sema maximumSema labs buffer capacity numbLabs] in *.
  cbn [app length omap]. split_and!; try done; try congruence; try lia.
Qed.

(** [Get] keeps a hub in service. *)
Lemma Get_serving (s : st) ret s' : serving s → Get s = Done ret s' → serving s'.
Proof.
  destruct s as [[lib conf cs ms ls [bi bc bcl] n] e].
  intros ((Hc1 & Hc2 & Hc3 & Hm & Hacc & Hls & Hbi) & (Hcl & Hn & Hle & Hcap)).
  unfold len in *.
  cbn [fst createSema maximumSema buffer labs numbLabs r items capacity closed] in *.
  subst bcl. rewrite Get_runs. destruct bi as [|lab rest].
  - intros [= <- <-]. unfold serving, hub_sound, buffer_ok, len. cbn. by repeat split.
  - intros [= <- <-]. apply Forall_cons in Hbi as [Hlab Hrest].
    unfold serving, hub_sound, buffer_ok, len.
    cbn [fst createSema maximumSema buffer labs numbLabs r items capacity closed].
    rewrite length_app. cbn [length] in *. unfold Lab in *.
    rewrite wrap32_id by lia.
    repeat split; try done; try lia.
    apply Forall_app. split; [done|]. by repeat constructor.
Qed.

(** Every hub in service keeps the account of its permits. *)
Lemma operating_serving (s : st) : operating s → serving s.
Proof.
  induction 1 as [conf lib available cap e0 h e Hmax H|s ret s' _ IH H
                 |s ret s' _ IH H|s w _ IH].
  - assert (Hr : 0 ≤ available ≤ cap).
    { unfold NewHub in H.
      destruct (available >? cap) eqn:Egt; [discriminate|].
      apply bind_Done in H as (cs & e1 & _ & H).
      apply bind_Done in H as (ms & e2 & _ & H).
      apply bind_Done in H as (buf & e3 & Hbuf & _).
      unfold make_buffer, make_chan in Hbuf.
      destruct (available <? 0) eqn:Eneg; [discriminate|].
      apply Z.ltb_ge in Eneg.
      destruct (Z.gtb_spec available cap); [discriminate|lia]. }
    destruct (NewHub_serving conf lib available cap e0) as (h' & e' & H' & Hs & _);
      [lia|lia|done|].
    rewrite H' in H. by injection H as <- <-.
  - by eapply Get_serving.
  - destruct (decide (permits MaximumSema s = 0)) as [E|E].
    + rewrite addLab_at_cap in H by done. by injection H as _ <-.
    + destruct (addLab_serving s IH E) as (ret' & s'' & Ha & Hs & _).
      rewrite Ha in H. by injection H as _ <-.
  - done.
Qed.


(** Closing a list of labs that holds no nil lab: the hub is left as it
    is, every lab is closed once, in order, whatever the closes return. *)
Lemma closeLabs_runs (ls : list Lab) : Forall is_Some ls → ∀ s : st,
  ∃ s',
    closeLabs B ls s = Done tt s' ∧
    fst s' = fst s ∧
    spawned (snd s') = spawned (snd s) ∧
    events (snd s') = events (snd s) ++ history s s' ∧
    closedLabs (history s s') = omap id ls ∧
    length (history s s') = length ls.
Proof.
  induction 1 as [|[lab|] ls [lab' Hlab] _ IH]; intros [h e]; [|clear lab' Hlab|done].
  - exists (h, e). rewrite history_refl. cbn. by rewrite app_nil_r.
  - cbn [closeLabs]. unfold bind at 1, backend.
    destruct (LabClose B lab (world e)) as [err w] eqn:Ec.
    set (s1 := (h, log (EvClose lab err) (set_world w e))).
    destruct (IH s1) as (s2 & Hrun & Hh & Hsp & Hev & Hcl & Hlen).
    assert (He1 : events (snd s1) = events (snd (h, e)) ++ history (h, e) s1).
    { unfold s1. by read_history. }
    assert (Hh1 : history (h, e) s1 = [EvClose lab err]).
    { unfold s1. by read_history. }
    destruct (history_trans (h, e) s1 s2 He1 Hev) as [He Hhist].
    exists s2. rewrite Hhist, closedLabs_app, length_app, Hcl, Hlen, Hh1.
    split_and!; try done. by rewrite He, Hhist, Hh1.
Qed.

(** [hub.Close] on a hub in service. *)
Lemma Close_runs (s : st) :
  serving s →
  ∃ s',
    Close B s = Done None s' ∧
    fst s' = set_buffer (mkChan [] (capacity (buffer (fst s))) true) (fst s) ∧
    spawned (snd s') = spawned (snd s) ∧
    closedLabs (history s s') = omap id (labs (fst s) ++ items (buffer (fst s))) ∧
    length (history s s') = length (labs (fst s) ++ items (buffer (fst s))).
Proof.
  destruct s as [[lib conf cs ms ls [bi bc bcl] n] e].
  intros ((_ & _ & _ & _ & _ & Hls & Hbi) & (Hcl & _)).
  cbn [fst buffer labs items closed capacity] in *. subst bcl.
  unfold Close, bind at 1, get, close_chan. cbn [buffer closed items capacity labs].
  unfold bind at 1, modify. cbn [set_buffer vboxLib Lab.conf createSema maximumSema
                                  labs buffer numbLabs].
  set (s0 := (set_buffer (mkChan bi bc true) _, e)).
  destruct (closeLabs_runs ls Hls s0) as (s1 & Hr1 & Hh1 & Hsp1 & He1 & Hc1 & Hl1).
  destruct (closeLabs_runs bi Hbi s1) as (s2 & Hr2 & Hh2 & Hsp2 & He2 & Hc2 & Hl2).
  destruct (history_trans s0 s1 s2 He1 He2) as [He Hhist].
  unfold bind at 1. rewrite Hr1. unfold bind at 1. rewrite Hr2.
  destruct s2 as [h2 e2]. cbn [fst snd] in *.
  unfold bind, modify, ret. eexists. split; [reflexivity|].
  assert (Hh : history (mkHub lib conf cs ms ls (mkChan bi bc false) n, e)
                       (set_buffer (mkChan [] bc true) h2, e2) = history s0 (h2, e2))
    by done.
  rewrite Hh, Hhist, closedLabs_app, length_app, omap_app, length_app, Hc1, Hc2, Hl1, Hl2.
  cbn [fst snd]. rewrite Hh2, Hh1, Hsp2, Hsp1. by split_and!.
Qed.

(** The loop of [GetLabByTag] over labs none of which is nil. *)
Lemma findByTag_runs (GetTag : labRef → W → string) (tag : string) (ls : list Lab) (s : st) :
  Forall is_Some ls →
  ∃ res,
    findByTag GetTag tag ls s = Done res s ∧
    match res with
    | (Some lab, None) =>
      ∃ i : nat, ls !! i = Some (Some lab) ∧ GetTag lab (world (snd s)) = tag ∧
                 ∀ (j : nat) l, (j < i)%nat → ls !! j = Some (Some l) →
                                GetTag l (world (snd s)) ≠ tag
    | (None, Some err) =>
      err = CouldNotFindLabErr ∧
      ∀ l, Some l ∈ ls → GetTag l (world (snd s)) ≠ tag
    | _ => False
    end.
Proof.
  destruct s as [h e]. cbn [snd].
  induction 1 as [|[lab|] ls [lab' Hlab] _ IH]; [|clear lab' Hlab|done].
  - exists (None, Some CouldNotFindLabErr). cbn. split; [done|]. split; [done|].
    intros l Hin. by apply elem_of_nil in Hin.
  - cbn [findByTag]. unfold bind, get.
    destruct (decide (tag = GetTag lab (world e))) as [E|E].
    + exists (Some lab, None). split; [done|]. exists 0%nat. split; [done|].
      split; [done|]. intros j l Hj. lia.
    + destruct IH as ([[found|] [err|]] & Hrun & Hres); try done.
      * exists (Some found, None). split; [done|].
        destruct Hres as (i & Hi & Ht & Hbefore). exists (S i). split; [done|].
        split; [done|]. intros [|j] l Hj Hl.
        -- injection Hl as <-. congruence.
        -- apply (Hbefore j); [lia|done].
      * exists (None, Some err). split; [done|]. destruct Hres as [-> Hnone].
        split; [done|]. intros l Hin. apply elem_of_cons in Hin as [[= ->]|Hin].
        -- congruence.
        -- by apply Hnone.
Qed.

(** X13: a new semaphore holds [n] permits and is full; a negative [n]
    makes [make] panic. [newSemaphore] never blocks. *)
Theorem newSemaphore_full (n : Z) (e : env) :
  if n <? 0
  then newSemaphore n e = Panicked "makechan: size out of range" e
  else ∃ sem, newSemaphore n e = Done sem (log (EvNewSemaphore n) e) ∧
              len (r sem) = n ∧ capacity (r sem) = n ∧ closed (r sem) = false.
Proof.
  destruct (newSemaphore_runs n e) as [Hpos Hneg].
  destruct (n <? 0) eqn:E.
  - apply Z.ltb_lt in E. by apply Hneg.
  - apply Z.ltb_ge in E. by apply Hpos.
Qed.

(** X14: on an open semaphore within its capacity that holds a permit,
    [claim] takes one permit and a following [release] gives it back: the
    hub is as before; [claim] on an open semaphore without permits
    blocks. *)
Theorem claim_then_release (id : semaId) (s : st) :
  closed (r (get_sema id (fst s))) = false →
  len (r (get_sema id (fst s))) ≤ capacity (r (get_sema id (fst s))) →
  (permits id s = 0 → claim id s = Blocked s) ∧
  (permits id s ≠ 0 →
   ∃ s1 s2,
     claim id s = Done mkRsrc s1 ∧ permits id s1 = permits id s - 1 ∧
     release id s1 = Done tt s2 ∧ fst s2 = fst s ∧
     history s s2 = [EvClaim id; EvRelease id]).
Proof.
  destruct s as [h e]. unfold permits, len. cbn [fst].
  intros Hcl Hle. split; intros Hp.
  - unfold claim, try_recv.
    destruct (items (r (get_sema id h))) as [|x rest]; [|cbn in Hp; lia].
    by rewrite Hcl.
  - unfold claim, try_recv.
    destruct h as [lib conf [[ci cc ccl]] [[mi mc mcl]] ls buf n].
    destruct id; cbn [get_sema createSema maximumSema r items capacity closed] in *;
      subst.
    + destruct ci as [|[] rest]; [done|]. eexists _, _. split; [reflexivity|].
      cbn [fst set_sema get_sema createSema r items length].
      split; [cbn [length]; lia|].
      unfold release, try_send, len.
      cbn [fst set_sema get_sema createSema r items capacity closed length] in *.
      destruct (Z.of_nat (length rest) <? cc) eqn:E; [|apply Z.ltb_ge in E; lia].
      split; [reflexivity|]. split; [|by read_history].
      cbn. do 4 f_equal. clear. induction rest as [|[] rest IH]; [done|].
      cbn. by rewrite IH.
    + destruct mi as [|[] rest]; [done|]. eexists _, _. split; [reflexivity|].
      cbn [fst set_sema get_sema maximumSema r items length].
      split; [cbn [length]; lia|].
      unfold release, try_send, len.
      cbn [fst set_sema get_sema maximumSema r items capacity closed length] in *.
      destruct (Z.of_nat (length rest) <? mc) eqn:E; [|apply Z.ltb_ge in E; lia].
      split; [reflexivity|]. split; [|by read_history].
      cbn. do 4 f_equal. clear. induction rest as [|[] rest IH]; [done|].
      cbn. by rewrite IH.
Qed.


(** X15: the account of a hub in service: the creation semaphore is back at
    its three permits between runs, and the labs waiting in the buffer,
    the labs dispensed and the capacity permits still free never add up to
    more than the cap; no lab dispensed is nil, and [Available] lies
    between 0 and the warm size. *)
Theorem hub_accounting (s : st) :
  operating s →
  permits CreateSema s = 3 ∧
  Available s + Z.of_nat (length (GetLabs s)) + permits MaximumSema s
    ≤ capacity (r (maximumSema (fst s))) ∧
  Forall is_Some (GetLabs s) ∧
  0 ≤ Available s ≤ capacity (buffer (fst s)).
Proof.
  intros Hop. destruct (operating_serving s Hop)
    as ((_ & _ & Hc & _ & Hacc & Hls & _) & (_ & Hn & Hle & _)).
  unfold permits, Available, GetLabs. cbn [get_sema]. rewrite Hn.
  pose proof (len_nonneg (buffer (fst s))). by split_and!.
Qed.


(** X17: when the lab is built but does not start, [addLab] returns the
    start error, leaves the closing of the lab to a goroutine, and leaves
    buffer, counter and dispensed labs as they were; the capacity permit
    stays claimed. *)
Theorem addLab_start_failure (s : st) (lab : labRef) (w1 w2 : W) (err : error) :
  operating s →
  permits MaximumSema s ≠ 0 →
  NewLab B (vboxLib (fst s)) (conf (fst s)) (world (snd s)) = (inr lab, w1) →
  LabStart B lab w1 = (Some err, w2) →
  ∃ s',
    addLab B s = Done (Some err) s' ∧
    spawned (snd s') = spawned (snd s) ++ [GoCloseLab lab] ∧
    closedLabs (history s s') = [] ∧
    buffer (fst s') = buffer (fst s) ∧
    Available s' = Available s ∧
    GetLabs s' = GetLabs s ∧
    permits MaximumSema s' = permits MaximumSema s - 1.
Proof.
  intros Hop Hm HN HS. pose proof (operating_serving s Hop) as Hserv.
  destruct (serving_shape s Hserv Hm)
    as (lib & conf & y1 & y2 & y3 & x & mi & mc & ls & bi & bc & n & e & ->).
  cbn [fst snd vboxLib Lab.conf] in HN.
  rewrite addLab_runs by reflexivity. rewrite HN. cbn zeta. rewrite HS.
  eexists. split; [reflexivity|]. read_history.
  unfold permits, Available, GetLabs, len. cbn. split_and!; try done. lia.
Qed.

(** X18: when the lab is built and starts, [addLab] returns nil. With room
    in the buffer the lab is queued last and [Available] grows by one;
    with a full buffer the lab is dropped: it is neither queued nor
    closed, no goroutine is started for it, and its capacity permit stays
    claimed. *)
Theorem addLab_queues_or_drops (s : st) (lab : labRef) (w1 w2 : W) :
  operating s →
  permits MaximumSema s ≠ 0 →
  NewLab B (vboxLib (fst s)) (conf (fst s)) (world (snd s)) = (inr lab, w1) →
  LabStart B lab w1 = (None, w2) →
  ∃ s',
    addLab B s = Done None s' ∧
    spawned (snd s') = spawned (snd s) ∧
    closedLabs (history s s') = [] ∧
    GetLabs s' = GetLabs s ∧
    permits MaximumSema s' = permits MaximumSema s - 1 ∧
    if len (buffer (fst s)) <? capacity (buffer (fst s))
    then items (buffer (fst s')) = items (buffer (fst s)) ++ [Some lab] ∧
         Available s' = Available s + 1
    else buffer (fst s') = buffer (fst s) ∧ Available s' = Available s.
Proof.
  intros Hop Hm HN HS. pose proof (operating_serving s Hop) as Hserv.
  destruct (serving_shape s Hserv Hm)
    as (lib & conf & y1 & y2 & y3 & x & mi & mc & ls & bi & bc & n & e & ->).
  destruct Hserv as (_ & (_ & Hn & Hle & Hcap)).
  cbn [fst snd vboxLib Lab.conf buffer numbLabs capacity] in HN, Hn, Hle, Hcap.
  rewrite addLab_runs by reflexivity. rewrite HN. cbn zeta. rewrite HS.
  unfold try_send. cbn [closed capacity fst buffer].
  destruct (len _ <? bc) eqn:Eroom.
  - eexists. split; [reflexivity|]. read_history.
    unfold permits, Available, GetLabs, len in *.
    cbn -[wrap32 Z.add Z.of_nat] in *. unfold Lab in *.
    apply Z.ltb_lt in Eroom. rewrite wrap32_id by lia.
    split_and!; try done. lia.
  - eexists. split; [reflexivity|]. read_history.
    unfold permits, Available, GetLabs, len. cbn. split_and!; try done. lia.
Qed.

(** X19: [NewHub] with 0 ≤ available ≤ cap (and a warm size that fits the
    int32 counter) returns a hub and no error. It has called the lab
    factory exactly [available] times, [Available] counts the labs that
    started, nothing is dispensed yet, and [cap - available] capacity
    permits are left, whether the labs could be built or not. *)
Theorem NewHub_prewarms (conf : Config) (lib : Library) (available cap : Z) (e0 : env) :
  0 ≤ available → available ≤ cap → available ≤ max_int32 →
  ∃ h e,
    NewHub B conf lib available cap e0 = Done (Some h, None) e ∧
    GetLabs (h, e) = [] ∧
    length (factoryCalls (drop (length (events e0)) (events e))) = Z.to_nat available ∧
    Available (h, e)
    = Z.of_nat (length (startedLabs (drop (length (events e0)) (events e)))) ∧
    Available (h, e) ≤ available ∧
    permits MaximumSema (h, e) = cap - available.
Proof.
  intros H0 Hle Hmax.
  destruct (NewHub_serving conf lib available cap e0 H0 Hle Hmax)
    as (h & e & Hrun & Hserv & Hl & Hc & _ & Hp & Hf & Hav).
  exists h, e. split_and!; try done.
  destruct Hserv as (_ & (_ & Hn & Hlen & _)). unfold Available. cbn [fst] in *. lia.
Qed.

(** X20: a negative warm size that passes the guard makes [NewHub] panic in
    [make], before any lab is built. *)
Theorem NewHub_negative_available (conf : Config) (lib : Library) (available cap : Z)
    (e0 : env) :
  available < 0 → available ≤ cap →
  ∃ e,
    NewHub B conf lib available cap e0 = Panicked "makechan: size out of range" e ∧
    world e = world e0 ∧
    factoryCalls (drop (length (events e0)) (events e)) = [].
Proof.
  intros Hneg Hle. unfold NewHub.
  destruct (available >? cap) eqn:Egt; [apply Z.gtb_lt in Egt; lia|].
  destruct (newSemaphore_runs 3 e0) as [H3 _].
  destruct H3 as (cs & Ecs & _); [lia|].
  unfold bind at 1. rewrite Ecs.
  destruct (newSemaphore_runs cap (log (EvNewSemaphore 3) e0)) as [Hpos Hneg'].
  destruct (decide (cap < 0)) as [Ec|Ec].
  - unfold bind at 1. rewrite Hneg' by done. eexists. split; [reflexivity|].
    split; [done|]. cbn [events log]. by rewrite drop_app_length.
  - destruct Hpos as (ms & Ems & _); [lia|].
    unfold bind at 1. rewrite Ems. unfold bind at 1, make_buffer, make_chan.
    apply Z.ltb_lt in Hneg. rewrite Hneg. eexists. split; [reflexivity|].
    split; [done|]. cbn [events log]. rewrite <- app_assoc. by rewrite drop_app_length.
Qed.

(** X21: a [Get] that hands out a lab starts one goroutine running [addLab]
    exactly when fewer than [BUFFERSIZE] labs are left waiting, and does
    nothing else outside the hub: no backend is called and the semaphores
    are as before. *)
Theorem Get_replenishes (s s' : st) (lab : Lab) :
  operating s →
  Get s = Done (lab, None) s' →
  spawned (snd s')
  = spawned (snd s) ++ (if Available s' <? BUFFERSIZE then [GoAddLab] else []) ∧
  history s s' = (if Available s' <? BUFFERSIZE then [EvGo GoAddLab] else []) ∧
  world (snd s') = world (snd s) ∧
  createSema (fst s') = createSema (fst s) ∧
  maximumSema (fst s') = maximumSema (fst s) ∧
  is_Some lab.
Proof.
  intros Hop. pose proof (operating_serving s Hop) as Hserv.
  destruct s as [[lib conf cs ms ls [bi bc bcl] n] e].
  destruct Hserv as ((_ & _ & _ & _ & _ & _ & Hbi) & (Hcl & _)).
  cbn [fst buffer closed items] in Hcl, Hbi. subst bcl. rewrite Get_runs.
  destruct bi as [|lab' rest]; [done|]. intros [= <- <-].
  apply Forall_cons in Hbi as [Hlab _].
  unfold Available. cbn [fst snd numbLabs createSema maximumSema].
  destruct (wrap32 (n + -1) <? BUFFERSIZE).
  - split_and!; try done. by read_history.
  - unfold history. cbn [snd]. rewrite drop_all, app_nil_r. by split_and!.
Qed.

(** X22: [GetLabByTag] on a hub in service never panics and changes
    nothing. It returns the first dispensed lab, in the order of
    dispensing, whose tag is the one asked for, and [CouldNotFindLabErr]
    exactly when no dispensed lab has that tag. *)
Theorem GetLabByTag_first_match (GetTag : labRef → W → string) (tag : string) (s : st) :
  operating s →
  ∃ res,
    GetLabByTag GetTag tag s = Done res s ∧
    match res with
    | (Some lab, None) =>
      ∃ i : nat, GetLabs s !! i = Some (Some lab) ∧
                 GetTag lab (world (snd s)) = tag ∧
                 ∀ (j : nat) l, (j < i)%nat → GetLabs s !! j = Some (Some l) →
                                GetTag l (world (snd s)) ≠ tag
    | (None, Some err) =>
      err = CouldNotFindLabErr ∧
      ∀ l, Some l ∈ GetLabs s → GetTag l (world (snd s)) ≠ tag
    | _ => False
    end.
Proof.
  intros Hop. destruct (operating_serving s Hop) as ((_ & _ & _ & _ & _ & Hls & _) & _).
  destruct (findByTag_runs GetTag tag (labs (fst s)) s Hls) as (res & Hrun & Hres).
  exists res. split; [|done]. destruct s as [h e]. done.
Qed.

(** X23: [Close] on a hub in service returns nil whatever the labs' closes
    return. Every dispensed lab and every lab waiting in the buffer is
    closed exactly once (dispensed labs first, each group in order, in the
    schedule that runs the closing goroutines one after the other) and
    nothing else is called; the buffer is left closed and empty, while the
    dispensed labs stay listed and [Available] keeps its value. *)
Theorem Close_in_service (s : st) :
  operating s →
  ∃ s',
    Close B s = Done None s' ∧
    closedLabs (history s s') = omap id (GetLabs s ++ items (buffer (fst s))) ∧
    length (history s s') = length (GetLabs s ++ items (buffer (fst s))) ∧
    spawned (snd s') = spawned (snd s) ∧
    closed (buffer (fst s')) = true ∧
    items (buffer (fst s')) = [] ∧
    GetLabs s' = GetLabs s ∧
    Available s' = Available s.
Proof.
  intros Hop. pose proof (operating_serving s Hop) as Hserv.
  destruct (Close_runs s Hserv) as (s' & Hrun & Hh & Hsp & Hcl & Hlen).
  exists s'. unfold GetLabs, Available. rewrite Hh. by split_and!.
Qed.

(** X24: closing a hub a second time panics: the buffer is closed already. *)
Theorem Close_twice_panics (s : st) :
  operating s →
  ∃ s', Close B s = Done None s' ∧
        Close B s' = Panicked "close of closed channel" s'.
Proof.
  intros Hop. pose proof (operating_serving s Hop) as Hserv.
  destruct (Close_runs s Hserv) as ([h' e'] & Hrun & Hh & _).
  exists (h', e'). split; [done|]. cbn [fst] in Hh. subst h'.
  by destruct s as [[lib conf cs ms ls [bi bc bcl] n] e].
Qed.

(** X25: after [Close], [Get] does not fail: the closed and drained buffer
    yields the zero value, so [Get] returns a nil lab with a nil error,
    lists the nil lab among the dispensed ones, lowers [Available] below
    its value at closing and starts another [addLab] when that is less
    than [BUFFERSIZE]. *)
Theorem Get_after_Close (s : st) :
  operating s →
  ∃ s1 s2,
    Close B s = Done None s1 ∧
    Get s1 = Done (None, None) s2 ∧
    GetLabs s2 = GetLabs s ++ [None] ∧
    Available s2 = wrap32 (Available s + -1) ∧
    spawned (snd s2)
    = spawned (snd s) ++ (if Available s2 <? BUFFERSIZE then [GoAddLab] else []).
Proof.
  intros Hop. pose proof (operating_serving s Hop) as Hserv.
  destruct (Close_runs s Hserv) as ([h' e'] & Hrun & Hh & Hsp & _).
  exists (h', e'). cbn [fst snd] in Hh, Hsp. subst h'.
  destruct s as [[lib conf cs ms ls [bi bc bcl] n] e].
  cbn [fst snd set_buffer vboxLib Lab.conf createSema maximumSema labs buffer numbLabs
       capacity] in *.
  unfold set_buffer. cbn [vboxLib Lab.conf createSema maximumSema labs buffer numbLabs].
  rewrite Get_runs. eexists. split; [done|]. split; [reflexivity|].
  unfold GetLabs, Available. cbn [fst snd labs numbLabs].
  split; [done|]. split; [done|].
  destruct (wrap32 (n + -1) <? BUFFERSIZE); cbn [spawned]; rewrite Hsp; [done|].
  by rewrite app_nil_r.
Qed.

(** X26: the [default] branch at the end of [addLab] does not guard
    against a closed buffer: when [addLab] runs after [Close] and the lab
    is built and started, the send panics. The deferred release still
    gives the creation permit back. *)
Theorem addLab_after_Close (s s1 : st) (lab : labRef) (w1 w2 : W) :
  operating s →
  Close B s = Done None s1 →
  permits MaximumSema s1 ≠ 0 →
  NewLab B (vboxLib (fst s1)) (conf (fst s1)) (world (snd s1)) = (inr lab, w1) →
  LabStart B lab w1 = (None, w2) →
  ∃ s2,
    addLab B s1 = Panicked "send on closed channel" s2 ∧
    permits CreateSema s2 = 3 ∧
    permits MaximumSema s2 = permits MaximumSema s1 - 1.
Proof.
  intros Hop Hclose Hm HN HS. pose proof (operating_serving s Hop) as Hserv.
  destruct (Close_runs s Hserv) as ([h' e'] & Hrun & Hh & _).
  rewrite Hrun in Hclose. injection Hclose as <-.
  cbn [fst] in Hh. subst h'.
  assert (Hm' : permits MaximumSema s ≠ 0).
  { by destruct s as [[lib conf cs ms ls [bi bc bcl] n] e]. }
  destruct (serving_shape s Hserv Hm')
    as (lib & conf & y1 & y2 & y3 & x & mi & mc & ls & bi & bc & n & e & ->).
  cbn [fst snd set_buffer vboxLib Lab.conf createSema maximumSema labs buffer numbLabs
       capacity] in *.
  unfold set_buffer.
  cbn [fst snd vboxLib Lab.conf createSema maximumSema labs buffer numbLabs capacity].
  rewrite addLab_runs by reflexivity. rewrite HN. cbn zeta. rewrite HS.
  unfold try_send. cbn [closed]. eexists. split; [reflexivity|].
  unfold permits, len. cbn. lia.
Qed.

End Proofs.

Lemma demoPool_operating : operating demoHost demoPool.
Proof.
  apply (op_NewHub demoHost tt tt 2 5 demoEnv).
  - unfold max_int32. lia.
  - vm_compute. reflexivity.
Qed.

Lemma demoEmptyPool_operating (B : @Backends unit unit nat) : operating B demoEmptyPool.
Proof.
  apply (op_NewHub B tt tt 0 5 demoEnv).
  - unfold max_int32. lia.
  - vm_compute. reflexivity.
Qed.

(** A permit of the creation semaphore of the demo hub. *)
Lemma claim_then_release_witness :
  closed (r (get_sema CreateSema (fst demoPool))) = false ∧
  len (r (get_sema CreateSema (fst demoPool)))
    ≤ capacity (r (get_sema CreateSema (fst demoPool))) ∧
  ∃ s1 s2,
    claim CreateSema demoPool = Done mkRsrc s1 ∧
    permits CreateSema s1 = 2 ∧
    release CreateSema s1 = Done tt s2 ∧ fst s2 = fst demoPool.
Proof.
  assert (H1 : closed (r (get_sema CreateSema (fst demoPool))) = false) by reflexivity.
  assert (H2 : len (r (get_sema CreateSema (fst demoPool)))
               ≤ capacity (r (get_sema CreateSema (fst demoPool)))).
  { vm_compute. discriminate. }
  split; [exact H1|]. split; [exact H2|].
  destruct (claim_then_release CreateSema demoPool H1 H2) as [_ H].
  destruct H as (s1 & s2 & Hc & Hp & Hr & Hh & _); [vm_compute; discriminate|].
  exists s1, s2. by split_and!.
Defined.

Lemma hub_accounting_witness :
  operating demoHost demoPool ∧
  permits CreateSema demoPool = 3 ∧
  Available demoPool + Z.of_nat (length (GetLabs demoPool)) + permits MaximumSema demoPool
    ≤ 5 ∧
  Forall is_Some (GetLabs demoPool) ∧
  0 ≤ Available demoPool ≤ 2.
Proof.
  split; [exact demoPool_operating|].
  exact (hub_accounting demoHost demoPool demoPool_operating).
Defined.


(** The first lab of a host whose labs do not start. *)
Lemma addLab_start_failure_witness :
  operating demoFlakyHost demoEmptyPool ∧
  permits MaximumSema demoEmptyPool ≠ 0 ∧
  NewLab demoFlakyHost tt tt 0%nat = (inr 0%nat, 1%nat) ∧
  LabStart demoFlakyHost 0%nat 1%nat = (Some "no network", 1%nat) ∧
  ∃ s',
    addLab demoFlakyHost demoEmptyPool = Done (Some "no network") s' ∧
    spawned (snd s') = [GoCloseLab 0%nat] ∧
    Available s' = 0 ∧
    permits MaximumSema s' = 4.
Proof.
  assert (H2 : permits MaximumSema demoEmptyPool ≠ 0) by (vm_compute; discriminate).
  assert (H3 : NewLab demoFlakyHost tt tt 0%nat = (inr 0%nat, 1%nat)) by reflexivity.
  assert (H4 : LabStart demoFlakyHost 0%nat 1%nat = (Some "no network", 1%nat))
    by reflexivity.
  split; [exact (demoEmptyPool_operating demoFlakyHost)|].
  split; [exact H2|]. split; [exact H3|]. split; [exact H4|].
  destruct (addLab_start_failure demoFlakyHost demoEmptyPool 0%nat 1%nat 1%nat
              "no network" (demoEmptyPool_operating demoFlakyHost) H2 H3 H4)
    as (s' & Hrun & Hsp & _ & _ & Hav & _ & Hp).
  exists s'. by split_and!.
Defined.

(** The hub with a warm size of 0 has a buffer without room: the lab
    is dropped. *)
Lemma addLab_queues_or_drops_witness :
  operating demoHost demoEmptyPool ∧
  permits MaximumSema demoEmptyPool ≠ 0 ∧
  NewLab demoHost tt tt 0%nat = (inr 0%nat, 1%nat) ∧
  LabStart demoHost 0%nat 1%nat = (None, 1%nat) ∧
  ∃ s',
    addLab demoHost demoEmptyPool = Done None s' ∧
    spawned (snd s') = [] ∧
    buffer (fst s') = buffer (fst demoEmptyPool) ∧
    Available s' = 0 ∧
    permits MaximumSema s' = 4.
Proof.
  assert (H2 : permits MaximumSema demoEmptyPool ≠ 0) by (vm_compute; discriminate).
  assert (H3 : NewLab demoHost tt tt 0%nat = (inr 0%nat, 1%nat)) by reflexivity.
  assert (H4 : LabStart demoHost 0%nat 1%nat = (None, 1%nat)) by reflexivity.
  split; [exact (demoEmptyPool_operating demoHost)|].
  split; [exact H2|]. split; [exact H3|]. split; [exact H4|].
  destruct (addLab_queues_or_drops demoHost demoEmptyPool 0%nat 1%nat 1%nat
              (demoEmptyPool_operating demoHost) H2 H3 H4)
    as (s' & Hrun & Hsp & _ & _ & Hp & Hbuf & Hav).
  exists s'. by split_and!.
Defined.

Lemma NewHub_prewarms_witness :
  0 ≤ 2 ∧ 2 ≤ 5 ∧ 2 ≤ max_int32 ∧
  ∃ h e,
    NewHub demoHost tt tt 2 5 demoEnv = Done (Some h, None) e ∧
    GetLabs (h, e) = [] ∧
    length (factoryCalls (events e)) = 2%nat ∧
    Available (h, e) = Z.of_nat (length (startedLabs (events e))) ∧
    Available (h, e) ≤ 2 ∧
    permits MaximumSema (h, e) = 3.
Proof.
  assert (H1 : 0 ≤ 2) by lia. assert (H2 : 2 ≤ 5) by lia.
  assert (H3 : 2 ≤ max_int32) by (unfold max_int32; lia).
  split; [exact H1|]. split; [exact H2|]. split; [exact H3|].
  exact (NewHub_prewarms demoHost tt tt 2 5 demoEnv H1 H2 H3).
Defined.

Lemma NewHub_negative_available_witness :
  -1 < 0 ∧ -1 ≤ 5 ∧
  ∃ e,
    NewHub demoHost tt tt (-1) 5 demoEnv = Panicked "makechan: size out of range" e ∧
    world e = 0%nat ∧
    factoryCalls (events e) = [].
Proof.
  assert (H1 : -1 < 0) by lia. assert (H2 : -1 ≤ 5) by lia.
  split; [exact H1|]. split; [exact H2|].
  exact (NewHub_negative_available demoHost tt tt (-1) 5 demoEnv H1 H2).
Defined.

(** The first [Get] on the demo hub leaves one lab waiting. *)
Lemma Get_replenishes_witness :
  operating demoHost demoPool ∧
  Get demoPool = Done (Some 0%nat, None) (state_after Get demoPool) ∧
  spawned (snd (state_after Get demoPool)) = [GoAddLab] ∧
  history demoPool (state_after Get demoPool) = [EvGo GoAddLab] ∧
  world (snd (state_after Get demoPool)) = 2%nat.
Proof.
  assert (H : Get demoPool = Done (Some 0%nat, None) (state_after Get demoPool)).
  { vm_compute. reflexivity. }
  split; [exact demoPool_operating|]. split; [exact H|].
  destruct (Get_replenishes demoHost _ _ _ demoPool_operating H)
    as (Hsp & Hh & Hw & _).
  by split_and!.
Defined.

Lemma demoPool_Get_operating : operating demoHost (state_after Get demoPool).
Proof.
  apply (op_Get demoHost demoPool (Some 0%nat, None)); [exact demoPool_operating|].
  vm_compute. reflexivity.
Qed.

(** The demo hub after its first [Get]: lab 0 is dispensed and tagged red. *)
Lemma GetLabByTag_first_match_witness :
  operating demoHost (state_after Get demoPool) ∧
  ∃ res,
    GetLabByTag demoTag "red" (state_after Get demoPool)
    = Done res (state_after Get demoPool) ∧
    match res with
    | (Some lab, None) =>
      ∃ i : nat, GetLabs (state_after Get demoPool) !! i = Some (Some lab) ∧
                 demoTag lab 2%nat = "red" ∧
                 ∀ (j : nat) l, (j < i)%nat →
                                GetLabs (state_after Get demoPool) !! j = Some (Some l) →
                                demoTag l 2%nat ≠ "red"
    | (None, Some err) =>
      err = CouldNotFindLabErr ∧
      ∀ l, Some l ∈ GetLabs (state_after Get demoPool) → demoTag l 2%nat ≠ "red"
    | _ => False
    end.
Proof.
  split; [exact demoPool_Get_operating|].
  exact (GetLabByTag_first_match demoHost demoTag "red" _ demoPool_Get_operating).
Defined.

Lemma Close_in_service_witness :
  operating demoHost demoPool ∧
  ∃ s',
    Close demoHost demoPool = Done None s' ∧
    closedLabs (history demoPool s') = [0%nat; 1%nat] ∧
    length (history demoPool s') = 2%nat ∧
    spawned (snd s') = [] ∧
    closed (buffer (fst s')) = true ∧
    items (buffer (fst s')) = [] ∧
    GetLabs s' = [] ∧
    Available s' = 2.
Proof.
  split; [exact demoPool_operating|].
  exact (Close_in_service demoHost demoPool demoPool_operating).
Defined.

Lemma Close_twice_panics_witness :
  operating demoHost demoPool ∧
  ∃ s', Close demoHost demoPool = Done None s' ∧
        Close demoHost s' = Panicked "close of closed channel" s'.
Proof.
  split; [exact demoPool_operating|].
  exact (Close_twice_panics demoHost demoPool demoPool_operating).
Defined.

Lemma Get_after_Close_witness :
  operating demoHost demoPool ∧
  ∃ s1 s2,
    Close demoHost demoPool = Done None s1 ∧
    Get s1 = Done (None, None) s2 ∧
    GetLabs s2 = [None] ∧
    Available s2 = 1 ∧
    spawned (snd s2) = [GoAddLab].
Proof.
  split; [exact demoPool_operating|].
  destruct (Get_after_Close demoHost demoPool demoPool_operating)
    as (s1 & s2 & Hc & Hg & Hl & Ha & Hs).
  exists s1, s2. split; [exact Hc|]. split; [exact Hg|]. split; [exact Hl|].
  split; [exact Ha|]. rewrite Hs, Ha. reflexivity.
Defined.

(** The hub with a warm size of 0, closed before its first lab is built. *)
Lemma addLab_after_Close_witness :
  operating demoHost demoEmptyPool ∧
  Close demoHost demoEmptyPool
  = Done None (state_after (Close demoHost) demoEmptyPool) ∧
  permits MaximumSema (state_after (Close demoHost) demoEmptyPool) ≠ 0 ∧
  NewLab demoHost tt tt 0%nat = (inr 0%nat, 1%nat) ∧
  LabStart demoHost 0%nat 1%nat = (None, 1%nat) ∧
  ∃ s2,
    addLab demoHost (state_after (Close demoHost) demoEmptyPool)
    = Panicked "send on closed channel" s2 ∧
    permits CreateSema s2 = 3 ∧
    permits MaximumSema s2 = 4.
Proof.
  assert (H1 : Close demoHost demoEmptyPool
               = Done None (state_after (Close demoHost) demoEmptyPool)).
  { vm_compute. reflexivity. }
  assert (H2 : permits MaximumSema (state_after (Close demoHost) demoEmptyPool) ≠ 0).
  { vm_compute. discriminate. }
  assert (H3 : NewLab demoHost tt tt 0%nat = (inr 0%nat, 1%nat)) by reflexivity.
  assert (H4 : LabStart demoHost 0%nat 1%nat = (None, 1%nat)) by reflexivity.
  split; [exact (demoEmptyPool_operating demoHost)|].
  split; [exact H1|]. split; [exact H2|]. split; [exact H3|]. split; [exact H4|].
  exact (addLab_after_Close demoHost demoEmptyPool _ 0%nat 1%nat 1%nat
           (demoEmptyPool_operating demoHost) H1 H2 H3 H4).
Defined.

End LabMoreProofs.


Module StoreProofs.
Import Store.

Lemma nullable_lang r : nullable r = true ↔ lang r [].
Proof.
  induction r as [| |p|r1 IH1 r2 IH2|r1 IH1 r2 IH2|r IH]; cbn [nullable].
  - split; [done|]. inversion 1.
  - split; [constructor|done].
  - split; [done|]. inversion 1.
  - rewrite andb_true_iff, IH1, IH2. split.
    + intros [H1 H2]. apply (lang_Cat _ _ [] [] H1 H2).
    + inversion 1 as [| |? ? s1 s2 H1 H2 E1 E2| | | |]; subst.
      apply app_eq_nil in E2 as [-> ->]. done.
  - rewrite orb_true_iff, IH1, IH2. split.
    + intros [H|H]; [by apply lang_Alt_l|by apply lang_Alt_r].
    + inversion 1; subst; auto.
  - split; [constructor|done].
Qed.

(** A text of [Star r] that starts with [a] starts with a text of [r]
    that starts with [a]. *)
Lemma lang_Star_inv r a s :
  lang (Star r) (a :: s) →
  ∃ s1 s2, s = s1 ++ s2 ∧ lang r (a :: s1) ∧ lang (Star r) s2.
Proof.
  enough (H : ∀ r' t, lang r' t → r' = Star r → t = a :: s →
              ∃ s1 s2, s = s1 ++ s2 ∧ lang r (a :: s1) ∧ lang (Star r) s2)
    by (intros Hl; by apply (H _ _ Hl)).
  induction 1 as [| | | | | |r0 s1 s2 H1 _ H2 IH2]; intros Er Et; try discriminate.
  injection Er as ->. destruct s1 as [|a' s1].
  - by apply IH2.
  - cbn in Et. injection Et as -> <-. by exists s1, s2.
Qed.

Lemma deriv_lang r : ∀ a s, lang (deriv a r) s ↔ lang r (a :: s).
Proof.
  induction r as [| |p|r1 IH1 r2 IH2|r1 IH1 r2 IH2|r IH]; intros a s; cbn [deriv].
  - split; inversion 1.
  - split; inversion 1.
  - destruct (p a) eqn:Ep; split.
    + inversion 1; subst. by constructor.
    + inversion 1; subst. constructor.
    + inversion 1.
    + inversion 1; subst. congruence.
  - assert (Hcat : lang (Cat (deriv a r1) r2) s →  lang (Cat r1 r2) (a :: s)).
    { inversion 1 as [| |? ? s1 s2 H1 H2| | | |]; subst.
      apply IH1 in H1. apply (lang_Cat _ _ (a :: s1) s2 H1 H2). }
    assert (Hinv : lang (Cat r1 r2) (a :: s) →
                   lang (Cat (deriv a r1) r2) s ∨ (lang r1 [] ∧ lang r2 (a :: s))).
    { inversion 1 as [| |? ? s1 s2 H1 H2 E1 E2| | | |]; subst.
      destruct s1 as [|a' s1]; cbn in E2.
      - subst. by right.
      - injection E2 as -> <-. left. apply lang_Cat; [by apply IH1|done]. }
    destruct (nullable r1) eqn:En; split.
    + inversion 1 as [| | |? ? ? Hl|? ? ? Hr| |]; subst; [by apply Hcat|].
      apply nullable_lang in En. apply IH2 in Hr.
      apply (lang_Cat _ _ [] (a :: s) En Hr).
    + intros [H|[_ H]]%Hinv; [by apply lang_Alt_l|].
      apply lang_Alt_r. by apply IH2.
    + apply Hcat.
    + intros [H|[H _]]%Hinv; [done|].
      apply nullable_lang in H. congruence.
  - split.
    + inversion 1; subst; [apply lang_Alt_l|apply lang_Alt_r]; by apply IH1 || by apply IH2.
    + inversion 1; subst; [apply lang_Alt_l|apply lang_Alt_r]; by apply IH1 || by apply IH2.
  - split.
    + inversion 1 as [| |? ? s1 s2 H1 H2| | | |]; subst.
      apply IH in H1. apply (lang_Star_app _ (a :: s1) s2 H1 H2).
    + intros (s1 & s2 & -> & H1 & H2)%lang_Star_inv.
      apply lang_Cat; [by apply IH|done].
Qed.

Lemma matches_lang s : ∀ r, matches r s = true ↔ lang r s.
Proof.
  induction s as [|a s IH]; intros r; cbn [matches].
  - apply nullable_lang.
  - rewrite IH. apply deriv_lang.
Qed.

Lemma lang_Star_Class p s :
  lang (Star (Class p)) s ↔ Forall (λ a, p a = true) s.
Proof.
  split.
  - intros H. remember (Star (Class p)) as r eqn:Er.
    induction H as [| | | | | |r0 s1 s2 H1 _ H2 IH2]; try discriminate; [constructor|].
    injection Er as ->. inversion H1; subst. constructor; [done|]. by apply IH2.
  - induction 1 as [|a s Ha _ IH]; [constructor|].
    apply (lang_Star_app _ [a] s); [by constructor|done].
Qed.

Lemma lang_tagRegex s :
  lang tagRegex s ↔
  ∃ a mid b, s = a :: mid ++ [b] ∧
             lower_or_digit a = true ∧
             Forall (λ c, lower_digit_or_dash c = true) mid ∧
             lower_or_digit b = true.
Proof.
  unfold tagRegex. split.
  - inversion 1 as [| |? ? s1 s2 Hhead Hrest| | | |]; subst.
    inversion Hhead; subst.
    inversion Hrest as [| |? ? s3 s4 Hmid Hlast| | | |]; subst.
    inversion Hlast; subst. apply lang_Star_Class in Hmid. by eexists _, _, _.
  - intros (a & mid & b & -> & Ha & Hmid & Hb).
    apply (lang_Cat _ _ [a] (mid ++ [b])); [by constructor|].
    apply lang_Cat; [by apply lang_Star_Class|by constructor].
Qed.

(** X27: [Validate] accepts exactly the tags made of a byte of [a-z0-9],
    then any number of bytes of [a-z0-9-], then a byte of [a-z0-9]; so a
    valid tag has at least two bytes and neither starts nor ends with a
    dash. *)
Theorem Validate_accepts (t : Tag) :
  Validate t = None ↔
  ∃ a mid b, String.list_ascii_of_string t = a :: mid ++ [b] ∧
             lower_or_digit a = true ∧
             Forall (λ c, lower_digit_or_dash c = true) mid ∧
             lower_or_digit b = true.
Proof.
  rewrite <- lang_tagRegex, <- matches_lang. unfold Validate, MatchString.
  destruct (decide (t = "")) as [->|Hne].
  - split; [done|]. cbn. discriminate.
  - destruct (matches tagRegex (String.list_ascii_of_string t)); cbn; split; done.
Qed.


(** X29: a tag of a single byte is rejected with [InvalidTagSyntaxErr],
    also when the byte is a letter or a digit: the expression asks for a
    first and a last byte. *)
Theorem Validate_single_byte (t : Tag) :
  String.length t = 1%nat → Validate t = Some (InvalidTagSyntaxErr t).
Proof.
  destruct t as [|a [|b t]]; [done| |cbn; lia]. intros _.
  unfold Validate, MatchString, tagRegex.
  case_decide as Hs; [done|].
  cbn. by destruct (lower_or_digit a).
Qed.

Lemma Validate_single_byte_witness :
  String.length "a" = 1%nat ∧ Validate "a" = Some (InvalidTagSyntaxErr "a").
Proof.
  assert (H : String.length "a" = 1%nat) by reflexivity.
  split; [exact H|exact (Validate_single_byte "a" H)].
Defined.

End StoreProofs.
